(** * Fluid-gradient hero: a shallow embedding of [src/script.js]

    The development follows the class [FluidGradient] (and the guard of
    [PreloaderAnimation.init]) of [src/script.js].

    Conventions of the embedding.
    - JavaScript numbers that carry coordinates, clock readings and colour
      components are rationals ([Q]); the arithmetic of the source
      ([-], [/], [>]) is the exact one.  [NaN] is [None].
    - [frameCount] and the viewport dimensions are integers ([Z]).
    - An object field that is [undefined] until [init] assigns it is an
      [option]; reading a property of [undefined] raises [TypeError].
    - The two render targets are physical objects held in the fields
      [fluidTarget1] and [fluidTarget2]; [currentFluidTarget] and
      [previousFluidTarget] are references ([TargetRef]) to them.
    - What the host returns to the code ([performance.now()],
      [getBoundingClientRect()], [window.innerWidth]) is carried by the
      event that triggers the handler.
    - [renderer.render] appends a [DrawCall] to the GPU log of the host: the
      uniforms of the drawn material, the bound render target and the state
      of both render targets at this moment. *)

From Stdlib Require Import ZArith QArith Bool List Ascii String Lia Lqa.
Import ListNotations.

Local Open Scope Z_scope.

(* ===================================================================== *)
(** * Strings and [parseInt] *)
(* ===================================================================== *)

Module JsString.

(** [s.slice(b, e)] for literal indices [0 <= b <= e]: the characters at
    positions [b .. e-1], fewer when the string is shorter. *)
Definition slice (s : string) (b e : nat) : string :=
  String.substring b (e - b) s.

(** The white space and line terminators skipped by [parseInt], among the
    code units below 256: TAB, LF, VT, FF, CR, SP and NBSP. *)
Definition is_white_space (c : ascii) : bool :=
  let n := Z.of_nat (nat_of_ascii c) in
  ((9 <=? n) && (n <=? 13)) || (n =? 32) || (n =? 160).

Fixpoint trim_start (s : string) : string :=
  match s with
  | String c r => if is_white_space c then trim_start r else s
  | EmptyString => s
  end.

(** Value of a digit in radix 16, [None] for any other character. *)
Definition hex_digit_value (c : ascii) : option Z :=
  let n := Z.of_nat (nat_of_ascii c) in
  if (48 <=? n) && (n <=? 57) then Some (n - 48)
  else if (97 <=? n) && (n <=? 102) then Some (n - 87)
  else if (65 <=? n) && (n <=? 70) then Some (n - 55)
  else None.

Definition is_hex_digit (c : ascii) : bool :=
  match hex_digit_value c with Some _ => true | None => false end.

(** The longest prefix of radix-16 digits, most significant first. *)
Fixpoint hex_prefix (s : string) : list Z :=
  match s with
  | String c r =>
      match hex_digit_value c with
      | Some d => d :: hex_prefix r
      | None => []
      end
  | EmptyString => []
  end.

Definition hex_value (ds : list Z) : Z :=
  fold_left (fun acc d => 16 * acc + d) ds 0.

Definition strip_sign (s : string) : Z * string :=
  match s with
  | String "-"%char r => (-1, r)
  | String "+"%char r => (1, r)
  | _ => (1, s)
  end.

Definition strip_0x (s : string) : string :=
  match s with
  | String "0"%char (String "x"%char r) => r
  | String "0"%char (String "X"%char r) => r
  | _ => s
  end.

(** [parseInt(s, 16)]: leading white space, an optional sign and an
    optional [0x] are dropped, then the longest run of hexadecimal digits
    is read; [NaN] ([None]) when that run is empty. *)
Definition parseInt16 (s : string) : option Z :=
  let '(sign, r) := strip_sign (trim_start s) in
  match hex_prefix (strip_0x r) with
  | [] => None
  | ds => Some (sign * hex_value ds)
  end.

End JsString.

(* ===================================================================== *)
(** * Numbers *)
(* ===================================================================== *)

(** [a / b] on numbers, [NaN] propagating. *)
Definition num_div (a : option Z) (b : Z) : option Q :=
  match a with
  | Some n => Some (inject_Z n / inject_Z b)%Q
  | None => None
  end.

(** [a > b] on numbers. *)
Definition Qgtb (a b : Q) : bool := negb (Qle_bool a b).

(** A [THREE.Vector2] of integers, a [THREE.Vector4] of numbers. *)
Record Vector2 := vec2 { v2_x : Z; v2_y : Z }.
Record Vector4 := vec4 { v4_x : Q; v4_y : Q; v4_z : Q; v4_w : Q }.

Definition zero4 : Vector4 := vec4 0 0 0 0.

(* ===================================================================== *)
(** * [FluidGradient.hexToRgb] *)
(* ===================================================================== *)

(** [[
  hexToRgb(hex) {
    const r = parseInt(hex.slice(1, 3), 16) / 255;
    const g = parseInt(hex.slice(3, 5), 16) / 255;
    const b = parseInt(hex.slice(5, 7), 16) / 255;
    return [r, g, b];
  }
]] *)
Definition hexToRgb (hex : string) : list (option Q) :=
  let r := num_div (JsString.parseInt16 (JsString.slice hex 1 3)) 255 in
  let g := num_div (JsString.parseInt16 (JsString.slice hex 3 5)) 255 in
  let b := num_div (JsString.parseInt16 (JsString.slice hex 5 7)) 255 in
  [r; g; b].

(* ===================================================================== *)
(** * Objects of the scene *)
(* ===================================================================== *)

(** The two physical render targets.  A target's [texture] is an object of
    the target itself, so a reference to the texture is a reference to the
    target. *)
Inductive TargetRef := Target1 | Target2.

Definition TargetRef_eqb (a b : TargetRef) : bool :=
  match a, b with
  | Target1, Target1 | Target2, Target2 => true
  | _, _ => false
  end.

(** [THREE.WebGLRenderTarget]: its dimensions. *)
Record WebGLRenderTarget := mkTarget { rt_width : Z; rt_height : Z }.

(** [target.setSize(width, height)]. *)
Definition setSize (width height : Z) (_ : WebGLRenderTarget) : WebGLRenderTarget :=
  mkTarget width height.

(** [THREE.WebGLRenderer]: the size of its drawing buffer and the bound
    render target ([None] is [null], the screen). *)
Record WebGLRenderer := mkRenderer { r_size : Vector2; r_target : option TargetRef }.

Record Config := mkConfig {
  brushSize : Q; brushStrength : Q; distortionAmount : Q; fluidDecay : Q;
  trailLength : Q; stopDecay : Q;
  color1 : string; color2 : string; color3 : string; color4 : string;
  colorIntensity : Q; softness : Q }.

(** Uniforms of the simulation pass ([fluidMaterial]). *)
Module Fluid.
Record Uniforms := mk {
  iTime : Q; iResolution : Vector2; iMouse : Vector4; iFrame : Z;
  iPreviousFrame : option TargetRef;
  uBrushSize : Q; uBrushStrength : Q; uFluidDecay : Q; uTrailLength : Q;
  uStopDecay : Q }.

Definition set_iTime v '(mk _ a b c d e f g h i) := mk v a b c d e f g h i.
Definition set_iResolution v '(mk a _ b c d e f g h i) := mk a v b c d e f g h i.
Definition set_iMouse v '(mk a b _ c d e f g h i) := mk a b v c d e f g h i.
Definition set_iFrame v '(mk a b c _ d e f g h i) := mk a b c v d e f g h i.
Definition set_iPreviousFrame v '(mk a b c d _ e f g h i) := mk a b c d v e f g h i.
End Fluid.

(** Uniforms of the display pass ([displayMaterial]). *)
Module Display.
Record Uniforms := mk {
  iTime : Q; iResolution : Vector2; iFluid : option TargetRef;
  uDistortionAmount : Q;
  uColor1 : list (option Q); uColor2 : list (option Q);
  uColor3 : list (option Q); uColor4 : list (option Q);
  uColorIntensity : Q; uSoftness : Q }.

Definition set_iTime v '(mk _ a b c d e f g h i) := mk v a b c d e f g h i.
Definition set_iResolution v '(mk a _ b c d e f g h i) := mk a v b c d e f g h i.
Definition set_iFluid v '(mk a b _ c d e f g h i) := mk a b v c d e f g h i.
End Display.

(** A mesh is drawn with the material it was built with. *)
Inductive Mesh := MeshFluid | MeshDisplay.

(** The instance fields of [FluidGradient]; those that [init] creates are
    [None] ([undefined]) before. *)
Record FluidGradient := mkFG {
  config : Config;
  mouseX : Q; mouseY : Q; prevMouseX : Q; prevMouseY : Q;
  lastMoveTime : Q;
  frameCount : Z;
  isInitialized : bool;
  camera : option unit;
  renderer : option WebGLRenderer;
  fluidTarget1 : option WebGLRenderTarget;
  fluidTarget2 : option WebGLRenderTarget;
  currentFluidTarget : option TargetRef;
  previousFluidTarget : option TargetRef;
  fluidMaterial : option Fluid.Uniforms;
  displayMaterial : option Display.Uniforms;
  geometry : option unit;
  fluidPlane : option Mesh;
  displayPlane : option Mesh }.

Definition set_mouseX v '(mkFG a _ c d e f g h i j k l m n o p q r s) :=
  mkFG a v c d e f g h i j k l m n o p q r s.
Definition set_mouseY v '(mkFG a b _ d e f g h i j k l m n o p q r s) :=
  mkFG a b v d e f g h i j k l m n o p q r s.
Definition set_prevMouseX v '(mkFG a b c _ e f g h i j k l m n o p q r s) :=
  mkFG a b c v e f g h i j k l m n o p q r s.
Definition set_prevMouseY v '(mkFG a b c d _ f g h i j k l m n o p q r s) :=
  mkFG a b c d v f g h i j k l m n o p q r s.
Definition set_lastMoveTime v '(mkFG a b c d e _ g h i j k l m n o p q r s) :=
  mkFG a b c d e v g h i j k l m n o p q r s.
Definition set_frameCount v '(mkFG a b c d e f _ h i j k l m n o p q r s) :=
  mkFG a b c d e f v h i j k l m n o p q r s.
Definition set_isInitialized v '(mkFG a b c d e f g _ i j k l m n o p q r s) :=
  mkFG a b c d e f g v i j k l m n o p q r s.
Definition set_camera v '(mkFG a b c d e f g h _ j k l m n o p q r s) :=
  mkFG a b c d e f g h v j k l m n o p q r s.
Definition set_renderer v '(mkFG a b c d e f g h i _ k l m n o p q r s) :=
  mkFG a b c d e f g h i v k l m n o p q r s.
Definition set_fluidTarget1 v '(mkFG a b c d e f g h i j _ l m n o p q r s) :=
  mkFG a b c d e f g h i j v l m n o p q r s.
Definition set_fluidTarget2 v '(mkFG a b c d e f g h i j k _ m n o p q r s) :=
  mkFG a b c d e f g h i j k v m n o p q r s.
Definition set_currentFluidTarget v '(mkFG a b c d e f g h i j k l _ n o p q r s) :=
  mkFG a b c d e f g h i j k l v n o p q r s.
Definition set_previousFluidTarget v '(mkFG a b c d e f g h i j k l m _ o p q r s) :=
  mkFG a b c d e f g h i j k l m v o p q r s.
Definition set_fluidMaterial v '(mkFG a b c d e f g h i j k l m n _ p q r s) :=
  mkFG a b c d e f g h i j k l m n v p q r s.
Definition set_displayMaterial v '(mkFG a b c d e f g h i j k l m n o _ q r s) :=
  mkFG a b c d e f g h i j k l m n o v q r s.
Definition set_geometry v '(mkFG a b c d e f g h i j k l m n o p _ r s) :=
  mkFG a b c d e f g h i j k l m n o p v r s.
Definition set_fluidPlane v '(mkFG a b c d e f g h i j k l m n o p q _ s) :=
  mkFG a b c d e f g h i j k l m n o p q v s.
Definition set_displayPlane v '(mkFG a b c d e f g h i j k l m n o p q r _) :=
  mkFG a b c d e f g h i j k l m n o p q r v.

(* ===================================================================== *)
(** * The host: DOM, window, listeners, frame queue, console, GPU *)
(* ===================================================================== *)

(** A node appended under the anchor: the renderer's [domElement]. *)
Inductive DomNode := RendererCanvas.

(** What [getBoundingClientRect()] returns. *)
Record DOMRect := mkRect { left : Q; top : Q; width : Q; height : Q }.

(** A registered listener.  The mouse-move closure captures the element
    that [querySelector] returned when it was registered ([false]: null). *)
Inductive Listener :=
| OnMouseMove (gradientCanvas : bool)
| OnMouseLeave
| OnResize.

(** One [renderer.render(mesh, camera)]: the uniforms of the mesh's
    material, the bound render target, and both physical targets as they
    are when the draw is issued. *)
Inductive DrawCall :=
| DrawFluid (u : Fluid.Uniforms) (dst : option TargetRef)
            (t1 t2 : option WebGLRenderTarget)
| DrawDisplay (u : Display.Uniforms) (dst : option TargetRef)
              (t1 t2 : option WebGLRenderTarget).

(** A tween handed to [gsap]: [timeline.to], [gsap.set] or [gsap.to]. *)
Inductive Tween :=
| TimelineTo (selector : string) (x : Z) (duration delay : Q)
| GsapSet (selector : string) (scale : Z)
| GsapTo (index : nat) (scale : Z) (duration : Q) (delay : option Q).

Record Host := mkHost {
  (** children of the element matching [.gradient-canvas]; [None] when no
      element matches *)
  gradientCanvas : option (list DomNode);
  innerWidth : Z;
  innerHeight : Z;
  listeners : list Listener;
  (** callbacks passed to [requestAnimationFrame] and not yet run *)
  animationFrames : nat;
  console : list string;
  gpu : list DrawCall;
  (** number of elements matching [.revealer svg] *)
  revealerSvgs : nat;
  tweens : list Tween }.

Definition set_gradientCanvas v '(mkHost _ b c d e f g h i) := mkHost v b c d e f g h i.
Definition set_innerWidth v '(mkHost a _ c d e f g h i) := mkHost a v c d e f g h i.
Definition set_innerHeight v '(mkHost a b _ d e f g h i) := mkHost a b v d e f g h i.
Definition set_listeners v '(mkHost a b c _ e f g h i) := mkHost a b c v e f g h i.
Definition set_animationFrames v '(mkHost a b c d _ f g h i) := mkHost a b c d v f g h i.
Definition set_console v '(mkHost a b c d e _ g h i) := mkHost a b c d e v g h i.
Definition set_gpu v '(mkHost a b c d e f _ h i) := mkHost a b c d e f v h i.
Definition set_tweens v '(mkHost a b c d e f g h _) := mkHost a b c d e f g h v.

(* ===================================================================== *)
(** * Computations: state passing with exceptions *)
(* ===================================================================== *)

Inductive Error := TypeError.

(** How a call ends: normally, with a value and the state it leaves, or by
    an uncaught exception. *)
Inductive Completion (S A : Type) :=
| Normal (a : A) (s : S)
| Throw (e : Error).
Arguments Normal {S A} a s.
Arguments Throw {S A} e.

Definition M (S A : Type) : Type := S -> Completion S A.

Definition ret {S A} (a : A) : M S A := fun s => Normal a s.

Definition bind {S A B} (c : M S A) (k : A -> M S B) : M S B :=
  fun s => match c s with
           | Normal a s' => k a s'
           | Throw e => Throw e
           end.

Definition throw {S A} (e : Error) : M S A := fun _ => Throw e.

Definition gets {S A} (f : S -> A) : M S A := fun s => Normal (f s) s.

Definition modify {S} (f : S -> S) : M S unit := fun s => Normal tt (f s).

(** Reading a property of [o]: a [TypeError] when [o] is [undefined]. *)
Definition deref {S A} (o : option A) : M S A :=
  match o with
  | Some a => ret a
  | None => throw TypeError
  end.

Fixpoint forEach {S A} (f : A -> M S unit) (l : list A) : M S unit :=
  match l with
  | [] => ret tt
  | a :: r => bind (f a) (fun _ => forEach f r)
  end.

Declare Scope js_scope.
Delimit Scope js_scope with js.
Notation "x <- c ;; k" := (bind c (fun x => k))
  (at level 61, c at next level, right associativity) : js_scope.
Notation "c ;; k" := (bind c (fun _ => k))
  (at level 61, right associativity) : js_scope.
Local Open Scope js_scope.

(** The state a method of [FluidGradient] runs in: the instance and the
    host. *)
Record Machine := mkMachine { this : FluidGradient; host : Host }.

Definition JS := M Machine.

Definition field {A} (f : FluidGradient -> A) : JS A := gets (fun m => f (this m)).

Definition assign (f : FluidGradient -> FluidGradient) : JS unit :=
  modify (fun m => mkMachine (f (this m)) (host m)).

Definition window {A} (f : Host -> A) : JS A := gets (fun m => f (host m)).

Definition effect (f : Host -> Host) : JS unit :=
  modify (fun m => mkMachine (this m) (f (host m))).

(* ===================================================================== *)
(** * The methods of [FluidGradient] *)
(* ===================================================================== *)

(** [[
  constructor() {
    this.config = { brushSize: 25.0, brushStrength: 0.5, distortionAmount: 2.5,
      fluidDecay: 0.98, trailLength: 0.8, stopDecay: 0.85,
      color1: "#000000", color2: "#111111", color3: "#222222", color4: "#333333",
      colorIntensity: 1.0, softness: 1.0 };
    this.mouseX = 0; this.mouseY = 0; this.prevMouseX = 0; this.prevMouseY = 0;
    this.lastMoveTime = 0; this.frameCount = 0; this.isInitialized = false;
  }
]] *)
Definition default_config : Config :=
  mkConfig 25 (1 # 2) (5 # 2) (98 # 100) (8 # 10) (85 # 100)
           "#000000" "#111111" "#222222" "#333333" 1 1.

Definition new_FluidGradient : FluidGradient :=
  mkFG default_config 0 0 0 0 0 0 false
       None None None None None None None None None None None.

(** In-place updates of the objects the instance holds. *)
Definition update_fluidMaterial (f : Fluid.Uniforms -> Fluid.Uniforms) : JS unit :=
  o <- field fluidMaterial ;; u <- deref o ;;
  assign (set_fluidMaterial (Some (f u))).

Definition update_displayMaterial (f : Display.Uniforms -> Display.Uniforms) : JS unit :=
  o <- field displayMaterial ;; u <- deref o ;;
  assign (set_displayMaterial (Some (f u))).

Definition update_renderer (f : WebGLRenderer -> WebGLRenderer) : JS unit :=
  o <- field renderer ;; r <- deref o ;;
  assign (set_renderer (Some (f r))).

Definition update_fluidTarget1 (f : WebGLRenderTarget -> WebGLRenderTarget) : JS unit :=
  o <- field fluidTarget1 ;; t <- deref o ;;
  assign (set_fluidTarget1 (Some (f t))).

Definition update_fluidTarget2 (f : WebGLRenderTarget -> WebGLRenderTarget) : JS unit :=
  o <- field fluidTarget2 ;; t <- deref o ;;
  assign (set_fluidTarget2 (Some (f t))).

(** [this.renderer.setSize(width, height)] *)
Definition renderer_setSize (width height : Z) : JS unit :=
  update_renderer (fun r => mkRenderer (vec2 width height) (r_target r)).

(** [this.renderer.setRenderTarget(target)] *)
Definition setRenderTarget (target : option TargetRef) : JS unit :=
  update_renderer (fun r => mkRenderer (r_size r) target).

(** [this.renderer.render(mesh, this.camera)] *)
Definition render (mesh : option Mesh) : JS unit :=
  o <- field renderer ;; r <- deref o ;;
  msh <- deref mesh ;;
  t1 <- field fluidTarget1 ;;
  t2 <- field fluidTarget2 ;;
  match msh with
  | MeshFluid =>
      o <- field fluidMaterial ;; u <- deref o ;;
      effect (fun h => set_gpu (gpu h ++ [DrawFluid u (r_target r) t1 t2]) h)
  | MeshDisplay =>
      o <- field displayMaterial ;; u <- deref o ;;
      effect (fun h => set_gpu (gpu h ++ [DrawDisplay u (r_target r) t1 t2]) h)
  end.

(** [requestAnimationFrame(() => this.animate())] *)
Definition requestAnimationFrame : JS unit :=
  effect (fun h => set_animationFrames (S (animationFrames h)) h).

(** [[
  setupRenderTargets() {
    this.fluidTarget1 = new THREE.WebGLRenderTarget(window.innerWidth, window.innerHeight, rtOptions);
    this.fluidTarget2 = new THREE.WebGLRenderTarget(window.innerWidth, window.innerHeight, rtOptions);
    this.currentFluidTarget = this.fluidTarget1;
    this.previousFluidTarget = this.fluidTarget2;
  }
]] *)
Definition setupRenderTargets : JS unit :=
  w <- window innerWidth ;; h <- window innerHeight ;;
  assign (set_fluidTarget1 (Some (mkTarget w h))) ;;
  w <- window innerWidth ;; h <- window innerHeight ;;
  assign (set_fluidTarget2 (Some (mkTarget w h))) ;;
  assign (set_currentFluidTarget (Some Target1)) ;;
  assign (set_previousFluidTarget (Some Target2)).

(** [setupMaterials()]: both uniform sets, from the window size and
    [this.config]. *)
Definition setupMaterials : JS unit :=
  cfg <- field config ;;
  w <- window innerWidth ;; h <- window innerHeight ;;
  assign (set_fluidMaterial (Some
    (Fluid.mk 0 (vec2 w h) (vec4 0 0 0 0) 0 None
       (brushSize cfg) (brushStrength cfg) (fluidDecay cfg)
       (trailLength cfg) (stopDecay cfg)))) ;;
  w <- window innerWidth ;; h <- window innerHeight ;;
  assign (set_displayMaterial (Some
    (Display.mk 0 (vec2 w h) None (distortionAmount cfg)
       (hexToRgb (color1 cfg)) (hexToRgb (color2 cfg))
       (hexToRgb (color3 cfg)) (hexToRgb (color4 cfg))
       (colorIntensity cfg) (softness cfg)))).

(** [[
  setupGeometry() {
    this.geometry = new THREE.PlaneGeometry(2, 2);
    this.fluidPlane = new THREE.Mesh(this.geometry, this.fluidMaterial);
    this.displayPlane = new THREE.Mesh(this.geometry, this.displayMaterial);
  }
]] *)
Definition setupGeometry : JS unit :=
  assign (set_geometry (Some tt)) ;;
  assign (set_fluidPlane (Some MeshFluid)) ;;
  assign (set_displayPlane (Some MeshDisplay)).

(** The [mousemove] listener, with the element its closure captured, the
    event's [clientX], [clientY], the rectangle [getBoundingClientRect()]
    returns and the reading of [performance.now()].
[[
      const rect = gradientCanvas.getBoundingClientRect();
      this.prevMouseX = this.mouseX;
      this.prevMouseY = this.mouseY;
      this.mouseX = e.clientX - rect.left;
      this.mouseY = rect.height - (e.clientY - rect.top);
      this.lastMoveTime = performance.now();
      this.fluidMaterial.uniforms.iMouse.value.set(
        this.mouseX, this.mouseY, this.prevMouseX, this.prevMouseY);
]] *)
Definition onMouseMove (gradientCanvas : bool) (clientX clientY : Q)
    (bounding : DOMRect) (now : Q) : JS unit :=
  rect <- (if gradientCanvas then ret bounding else throw TypeError) ;;
  mx <- field mouseX ;; assign (set_prevMouseX mx) ;;
  my <- field mouseY ;; assign (set_prevMouseY my) ;;
  assign (set_mouseX (clientX - left rect)%Q) ;;
  assign (set_mouseY (height rect - (clientY - top rect))%Q) ;;
  assign (set_lastMoveTime now) ;;
  mx <- field mouseX ;; my <- field mouseY ;;
  px <- field prevMouseX ;; py <- field prevMouseY ;;
  update_fluidMaterial (Fluid.set_iMouse (vec4 mx my px py)).

(** The [mouseleave] listener.
[[
      this.fluidMaterial.uniforms.iMouse.value.set(0, 0, 0, 0);
]] *)
Definition onMouseLeave : JS unit :=
  update_fluidMaterial (Fluid.set_iMouse (vec4 0 0 0 0)).

(** The [resize] listener.
[[
      const width = window.innerWidth;
      const height = window.innerHeight;
      this.renderer.setSize(width, height);
      this.fluidMaterial.uniforms.iResolution.value.set(width, height);
      this.displayMaterial.uniforms.iResolution.value.set(width, height);
      this.fluidTarget1.setSize(width, height);
      this.fluidTarget2.setSize(width, height);
      this.frameCount = 0;
]] *)
Definition onResize : JS unit :=
  width <- window innerWidth ;;
  height <- window innerHeight ;;
  renderer_setSize width height ;;
  update_fluidMaterial (Fluid.set_iResolution (vec2 width height)) ;;
  update_displayMaterial (Display.set_iResolution (vec2 width height)) ;;
  update_fluidTarget1 (setSize width height) ;;
  update_fluidTarget2 (setSize width height) ;;
  assign (set_frameCount 0).

(** [[
  setupEventListeners() {
    const gradientCanvas = document.querySelector(".gradient-canvas");
    document.addEventListener("mousemove", ...);
    document.addEventListener("mouseleave", ...);
    window.addEventListener("resize", ...);
  }
]] *)
Definition setupEventListeners : JS unit :=
  c <- window gradientCanvas ;;
  let gradientCanvas := match c with Some _ => true | None => false end in
  effect (fun h => set_listeners (listeners h ++ [OnMouseMove gradientCanvas]) h) ;;
  effect (fun h => set_listeners (listeners h ++ [OnMouseLeave]) h) ;;
  effect (fun h => set_listeners (listeners h ++ [OnResize]) h).

(** One frame; [now1] and [now2] are the two readings of
    [performance.now()], in program order.
[[
  animate() {
    requestAnimationFrame(() => this.animate());
    const time = performance.now() * 0.001;
    this.fluidMaterial.uniforms.iTime.value = time;
    this.displayMaterial.uniforms.iTime.value = time;
    this.fluidMaterial.uniforms.iFrame.value = this.frameCount;
    if (performance.now() - this.lastMoveTime > 100) {
      this.fluidMaterial.uniforms.iMouse.value.set(0, 0, 0, 0);
    }
    this.fluidMaterial.uniforms.iPreviousFrame.value = this.previousFluidTarget.texture;
    this.renderer.setRenderTarget(this.currentFluidTarget);
    this.renderer.render(this.fluidPlane, this.camera);
    this.displayMaterial.uniforms.iFluid.value = this.currentFluidTarget.texture;
    this.renderer.setRenderTarget(null);
    this.renderer.render(this.displayPlane, this.camera);
    const temp = this.currentFluidTarget;
    this.currentFluidTarget = this.previousFluidTarget;
    this.previousFluidTarget = temp;
    this.frameCount++;
  }
]] *)
Definition animate (now1 now2 : Q) : JS unit :=
  requestAnimationFrame ;;
  let time := (now1 * (1 # 1000))%Q in
  update_fluidMaterial (Fluid.set_iTime time) ;;
  update_displayMaterial (Display.set_iTime time) ;;
  fc <- field frameCount ;;
  update_fluidMaterial (Fluid.set_iFrame fc) ;;
  last <- field lastMoveTime ;;
  (if Qgtb (now2 - last) 100
   then update_fluidMaterial (Fluid.set_iMouse (vec4 0 0 0 0))
   else ret tt) ;;
  prev <- field previousFluidTarget ;; texture <- deref prev ;;
  update_fluidMaterial (Fluid.set_iPreviousFrame (Some texture)) ;;
  cur <- field currentFluidTarget ;;
  setRenderTarget cur ;;
  plane <- field fluidPlane ;;
  render plane ;;
  cur <- field currentFluidTarget ;; texture <- deref cur ;;
  update_displayMaterial (Display.set_iFluid (Some texture)) ;;
  setRenderTarget None ;;
  plane <- field displayPlane ;;
  render plane ;;
  temp <- field currentFluidTarget ;;
  prev <- field previousFluidTarget ;;
  assign (set_currentFluidTarget prev) ;;
  assign (set_previousFluidTarget temp) ;;
  fc <- field frameCount ;;
  assign (set_frameCount (fc + 1)).

(** [[
  init() {
    if (this.isInitialized) return;
    const gradientCanvas = document.querySelector(".gradient-canvas");
    if (!gradientCanvas) return;
    this.camera = new THREE.OrthographicCamera(-1, 1, 1, -1, 0, 1);
    this.renderer = new THREE.WebGLRenderer({ antialias: true });
    this.renderer.setSize(window.innerWidth, window.innerHeight);
    gradientCanvas.appendChild(this.renderer.domElement);
    this.setupRenderTargets();
    this.setupMaterials();
    this.setupGeometry();
    this.setupEventListeners();
    this.isInitialized = true;
    this.animate();
  }
]]
    [now1] and [now2] are the clock readings of the first frame.  A new
    renderer has the default canvas size, 300 by 150, and draws to the
    screen. *)
Definition init (now1 now2 : Q) : JS unit :=
  initialized <- field isInitialized ;;
  if initialized then ret tt else
  gradientCanvas <- window gradientCanvas ;;
  match gradientCanvas with
  | None => ret tt
  | Some children =>
      assign (set_camera (Some tt)) ;;
      assign (set_renderer (Some (mkRenderer (vec2 300 150) None))) ;;
      w <- window innerWidth ;; h <- window innerHeight ;;
      renderer_setSize w h ;;
      effect (set_gradientCanvas (Some (children ++ [RendererCanvas]))) ;;
      setupRenderTargets ;;
      setupMaterials ;;
      setupGeometry ;;
      setupEventListeners ;;
      assign (set_isInitialized true) ;;
      animate now1 now2
  end.

(* ===================================================================== *)
(** * Events of the host *)
(* ===================================================================== *)

(** What the browser delivers, with the values the handlers read from it. *)
Inductive Event :=
| MouseMove (clientX clientY : Q) (rect : DOMRect) (now : Q)
| MouseLeave
| Resize (width height : Z)
| AnimationFrame (now1 now2 : Q).

Definition run_listener (ev : Event) (l : Listener) : JS unit :=
  match ev, l with
  | MouseMove x y rect now, OnMouseMove c => onMouseMove c x y rect now
  | MouseLeave, OnMouseLeave => onMouseLeave
  | Resize _ _, OnResize => onResize
  | _, _ => ret tt
  end.

(** Delivery of one event.  A resize first changes the window; an animation
    frame runs one scheduled callback, if there is one. *)
Definition dispatch (ev : Event) : JS unit :=
  match ev with
  | AnimationFrame now1 now2 =>
      n <- window animationFrames ;;
      match n with
      | O => ret tt
      | S k => effect (set_animationFrames k) ;; animate now1 now2
      end
  | Resize w h =>
      effect (set_innerWidth w) ;;
      effect (set_innerHeight h) ;;
      ls <- window listeners ;;
      forEach (run_listener ev) ls
  | _ =>
      ls <- window listeners ;;
      forEach (run_listener ev) ls
  end.

(** Delivery of a sequence of events, one after the other. *)
Definition run (evs : list Event) : JS unit := forEach dispatch evs.

(* ===================================================================== *)
(** * [PreloaderAnimation.init] *)
(* ===================================================================== *)

Module Preloader.

(** The instance: whether [getElementById] found the two elements. *)
Record PreloaderAnimation := mkPA { preloader : bool; mainContent : bool }.

Record PMachine := mkPMachine { self : PreloaderAnimation; phost : Host }.

Definition doc (f : Host -> Host) : M PMachine unit :=
  modify (fun m => mkPMachine (self m) (f (phost m))).

Definition console_error (msg : string) : M PMachine unit :=
  doc (fun h => set_console (console h ++ [msg]) h).

Definition add_tween (t : Tween) : M PMachine unit :=
  doc (fun h => set_tweens (tweens h ++ [t]) h).

(** [delays[i]] for [const delays = [6, 6.5, 7]]. *)
Definition delays (i : nat) : option Q := nth_error [6; 13 # 2; 7]%Q i.

(** [setupAnimation()]: the tweens it hands to [gsap], in order.  The
    [onStart] and [onComplete] callbacks, the only users of [windowWidth]
    and [stepDistance], run later, from [gsap]. *)
Definition setupAnimation : M PMachine unit :=
  add_tween (TimelineTo ".count" (-900) (85 # 100) (1 # 2)) ;;
  forEach (fun i => add_tween (TimelineTo ".count" (-900 + i * 180) (85 # 100) 0))
          [1; 2; 3; 4; 5; 6] ;;
  add_tween (GsapSet ".revealer svg" 0) ;;
  n <- gets (fun m => revealerSvgs (phost m)) ;;
  forEach (fun i => add_tween (GsapTo i 45 (3 # 2) (delays i))) (seq 0 n).

(** [[
  init() {
    if (!this.preloader) {
      console.error("Preloader element not found");
      return;
    }
    this.setupAnimation();
  }
]] *)
Definition init : M PMachine unit :=
  p <- gets (fun m => preloader (self m)) ;;
  if negb p then
    console_error "Preloader element not found" ;;
    ret tt
  else
    setupAnimation.

End Preloader.

(* ===================================================================== *)
(** * Running instances *)
(* ===================================================================== *)

Definition Listener_eqb (a b : Listener) : bool :=
  match a, b with
  | OnMouseMove x, OnMouseMove y => Bool.eqb x y
  | OnMouseLeave, OnMouseLeave => true
  | OnResize, OnResize => true
  | _, _ => false
  end.

Fixpoint listeners_eqb (a b : list Listener) : bool :=
  match a, b with
  | [], [] => true
  | x :: a', y :: b' => Listener_eqb x y && listeners_eqb a' b'
  | _, _ => false
  end.

(** The instance after a successful [init]: every object exists, the two
    roles name different targets, the three listeners are registered once
    and one frame callback is pending. *)
Definition runningb (m : Machine) : bool :=
  let fg := this m in
  isInitialized fg
  && match renderer fg, fluidTarget1 fg, fluidTarget2 fg with
     | Some _, Some _, Some _ => true
     | _, _, _ => false
     end
  && match fluidMaterial fg, displayMaterial fg with
     | Some _, Some _ => true
     | _, _ => false
     end
  && match currentFluidTarget fg, previousFluidTarget fg with
     | Some c, Some p => negb (TargetRef_eqb c p)
     | _, _ => false
     end
  && match fluidPlane fg, displayPlane fg with
     | Some MeshFluid, Some MeshDisplay => true
     | _, _ => false
     end
  && listeners_eqb (listeners (host m)) [OnMouseMove true; OnMouseLeave; OnResize]
  && Nat.eqb (animationFrames (host m)) 1.

Definition Running (m : Machine) : Prop := runningb m = true.

(** The current and the previous target, as a pair. *)
Definition roles (m : Machine) : option TargetRef * option TargetRef :=
  (currentFluidTarget (this m), previousFluidTarget (this m)).

Definition swap_roles (r : option TargetRef * option TargetRef) :=
  (snd r, fst r).

Definition is_frame (ev : Event) : bool :=
  match ev with AnimationFrame _ _ => true | _ => false end.

Definition is_move (ev : Event) : bool :=
  match ev with MouseMove _ _ _ _ => true | _ => false end.

(** Number of animation frames in a sequence of events. *)
Definition frames (evs : list Event) : nat :=
  List.length (filter is_frame evs).

(** A host on which nothing of the component is installed yet, with three
    [.revealer svg] elements. *)
Definition fresh_host (canvas : option (list DomNode)) (w h : Z) : Host :=
  mkHost canvas w h [] 0 [] [] 3 [].

(** The machine right after [new FluidGradient()]. *)
Definition boot (h : Host) : Machine := mkMachine new_FluidGradient h.

(** The pointer quad the simulation pass will be given: the [iMouse]
    uniform of [fluidMaterial]. *)
Definition pointer_quad (m : Machine) : option Vector4 :=
  option_map Fluid.iMouse (fluidMaterial (this m)).

(** No pointer-move event in the sequence. *)
Definition no_move (evs : list Event) : bool :=
  forallb (fun ev => negb (is_move ev)) evs.

(** A page with the anchor, 800 by 600, after [init] at clock reading 0. *)
Definition demo_page : Host := fresh_host (Some []) 800 600.

Definition demo : Machine :=
  match init 0 0 (boot demo_page) with
  | Normal _ m => m
  | Throw _ => boot demo_page
  end.

(** Hexadecimal notation, as it is defined and not as [parseInt] reads it:
    a digit is worth its position in [0123456789abcdef], the letters in
    either case. *)
Definition hex_digits_lower : list ascii :=
  list_ascii_of_string "0123456789abcdef".

Definition hex_digits_upper : list ascii :=
  list_ascii_of_string "0123456789ABCDEF".

(** The position of [c] in [l], counted from [i]. *)
Fixpoint position (c : ascii) (l : list ascii) (i : Z) : option Z :=
  match l with
  | [] => None
  | d :: r => if Ascii.eqb c d then Some i else position c r (i + 1)
  end.

(** The value of a hexadecimal digit; 0 for any other character. *)
Definition digit (c : ascii) : Z :=
  match position c hex_digits_lower 0, position c hex_digits_upper 0 with
  | Some d, _ => d
  | None, Some d => d
  | None, None => 0
  end.

(** The component a pair of hexadecimal digits denotes. *)
Definition component (hi lo : ascii) : Z := 16 * digit hi + digit lo.

(** [#] followed by six characters. *)
Definition hex_string (c1 c2 c3 c4 c5 c6 : ascii) : string :=
  String "#" (String c1 (String c2 (String c3 (String c4 (String c5
    (String c6 EmptyString)))))).

(** The hexadecimal digits. *)
Definition hex_alphabet : list ascii :=
  list_ascii_of_string "0123456789abcdefABCDEF".

(** [c] is a hexadecimal digit. *)
Definition hex_char (c : ascii) : bool :=
  existsb (Ascii.eqb c) hex_alphabet.

From Stdlib Require Import Qminmax.

(* ===================================================================== *)
(** * Sessions: calls of [init] interleaved with events *)
(* ===================================================================== *)

(** What the application does with an instance: it calls [init] (from its
    timers and its key handler) and the browser delivers events. *)
Inductive Action :=
| CallInit (now1 now2 : Q)
| Deliver (ev : Event).

Definition act (a : Action) : JS unit :=
  match a with
  | CallInit now1 now2 => init now1 now2
  | Deliver ev => dispatch ev
  end.

Definition session (acts : list Action) : JS unit := forEach act acts.

Definition is_call (a : Action) : bool :=
  match a with CallInit _ _ => true | Deliver _ => false end.

Definition delivers (allowed : Event -> bool) (a : Action) : bool :=
  match a with CallInit _ _ => true | Deliver ev => allowed ev end.

Definition has_canvas (h : Host) : bool :=
  match gradientCanvas h with Some _ => true | None => false end.

(** The instance as the constructor leaves it, on a host where it has
    installed nothing and drawn nothing. *)
Definition Pristine (m : Machine) : Prop :=
  this m = new_FluidGradient
  /\ listeners (host m) = []
  /\ animationFrames (host m) = 0%nat
  /\ gpu (host m) = [].

(** Everything that has a size has the size of the window. *)
Definition Sized (m : Machine) : Prop :=
  let size := mkTarget (innerWidth (host m)) (innerHeight (host m)) in
  let res := vec2 (innerWidth (host m)) (innerHeight (host m)) in
  fluidTarget1 (this m) = Some size
  /\ fluidTarget2 (this m) = Some size
  /\ option_map Fluid.iResolution (fluidMaterial (this m)) = Some res
  /\ option_map Display.iResolution (displayMaterial (this m)) = Some res
  /\ option_map r_size (renderer (this m)) = Some res.

(** A draw call whose [iResolution] is the size of both render targets. *)
Definition draw_sized (d : DrawCall) : Prop :=
  match d with
  | DrawFluid u _ t1 t2 =>
      let size := mkTarget (v2_x (Fluid.iResolution u)) (v2_y (Fluid.iResolution u)) in
      t1 = Some size /\ t2 = Some size
  | DrawDisplay u _ t1 t2 =>
      let size := mkTarget (v2_x (Display.iResolution u)) (v2_y (Display.iResolution u)) in
      t1 = Some size /\ t2 = Some size
  end.

(** A simulation draw that is fed the zero quad (a display draw has no
    quad). *)
Definition draw_idle (d : DrawCall) : Prop :=
  match d with
  | DrawFluid u _ _ _ => Fluid.iMouse u = zero4
  | DrawDisplay _ _ _ _ => True
  end.

(** A GPU log made of whole frames.  Each frame is a simulation draw into
    a target [dst] that reads another target [src], followed by a display
    draw to the screen that reads [dst]; and [src] is the target the frame
    before wrote, when there is a frame before.  The second index is the
    target written last. *)
Inductive PingPong : list DrawCall -> option TargetRef -> Prop :=
| pp_nil : PingPong [] None
| pp_frame (log : list DrawCall) (last : option TargetRef)
           (fu : Fluid.Uniforms) (du : Display.Uniforms)
           (src dst : TargetRef) (t1 t2 t1' t2' : option WebGLRenderTarget) :
    PingPong log last ->
    last = None \/ last = Some src ->
    src <> dst ->
    Fluid.iPreviousFrame fu = Some src ->
    Display.iFluid du = Some dst ->
    PingPong (log ++ [DrawFluid fu (Some dst) t1 t2; DrawDisplay du None t1' t2'])
             (Some dst).

(** The pointer quad is zero or is the stored position and the stored
    previous position. *)
Definition QuadConsistent (m : Machine) : Prop :=
  pointer_quad m = Some zero4
  \/ pointer_quad m =
       Some (vec4 (mouseX (this m)) (mouseY (this m))
                  (prevMouseX (this m)) (prevMouseY (this m))).

(** The uniforms that [setupMaterials] fills from [this.config]. *)
Definition tunables (fg : FluidGradient) :=
  (option_map (fun u => (Fluid.uBrushSize u, Fluid.uBrushStrength u,
                         Fluid.uFluidDecay u, Fluid.uTrailLength u,
                         Fluid.uStopDecay u)) (fluidMaterial fg),
   option_map (fun u => (Display.uDistortionAmount u,
                         Display.uColor1 u, Display.uColor2 u,
                         Display.uColor3 u, Display.uColor4 u,
                         Display.uColorIntensity u, Display.uSoftness u))
              (displayMaterial fg)).

(** The same, read from a configuration. *)
Definition tunables_of (cfg : Config) :=
  (Some (brushSize cfg, brushStrength cfg, fluidDecay cfg, trailLength cfg,
         stopDecay cfg),
   Some (distortionAmount cfg,
         hexToRgb (color1 cfg), hexToRgb (color2 cfg),
         hexToRgb (color3 cfg), hexToRgb (color4 cfg),
         colorIntensity cfg, softness cfg)).

Definition is_resize (ev : Event) : bool :=
  match ev with Resize _ _ => true | _ => false end.

Definition no_resize (evs : list Event) : bool :=
  forallb (fun ev => negb (is_resize ev)) evs.

(* ===================================================================== *)
(** * Colours: every input of [hexToRgb] *)
(* ===================================================================== *)

(** All 256 characters. *)
Definition all_ascii : list ascii := map ascii_of_nat (seq 0 256).

(** What [parseInt] can return on two characters: [NaN] or an integer
    from -15 to 255. *)
Definition byte_or_nan (o : option Z) : bool :=
  match o with
  | Some v => (-15 <=? v) && (v <=? 255)
  | None => true
  end.

(** A colour component: [NaN] or a number from -1/17 to 1. *)
Definition component_or_nan (c : option Q) : Prop :=
  match c with
  | Some q => (- (1 # 17) <= q /\ q <= 1)%Q
  | None => True
  end.




(* ===================================================================== *)
(** * [TextAnimation]: splitting paragraphs into words *)
(* ===================================================================== *)

(** Text is a sequence of UTF-16 code units below 256; on these, white
    space, [trim] and [toLowerCase] are the ones of JavaScript. *)
Module Text.

(** What [\s] matches and [trim] strips: TAB, LF, VT, FF, CR, SP, NBSP. *)
Definition is_space (c : ascii) : bool :=
  let n := Z.of_nat (nat_of_ascii c) in
  ((9 <=? n) && (n <=? 13)) || (n =? 32) || (n =? 160).

Fixpoint trimStart (s : string) : string :=
  match s with
  | String c r => if is_space c then trimStart r else s
  | EmptyString => s
  end.

(** [s] without its trailing white space. *)
Fixpoint trimEnd (s : string) : string :=
  match s with
  | String c r =>
      match trimEnd r with
      | EmptyString => if is_space c then EmptyString else String c EmptyString
      | r' => String c r'
      end
  | EmptyString => s
  end.

(** [s.trim()] *)
Definition trim (s : string) : string := trimEnd (trimStart s).

(** [c.toLowerCase()] on one code unit: A-Z and the capital letters of
    Latin-1 (all of 192..222 but the multiplication sign). *)
Definition toLowerCase_char (c : ascii) : ascii :=
  let n := Z.of_nat (nat_of_ascii c) in
  if ((65 <=? n) && (n <=? 90))
     || ((192 <=? n) && (n <=? 222) && negb (n =? 215))
  then ascii_of_nat (nat_of_ascii c + 32)
  else c.

Fixpoint toLowerCase (s : string) : string :=
  match s with
  | String c r => String (toLowerCase_char c) (toLowerCase r)
  | EmptyString => s
  end.

(** The characters of the class the source removes: full stop, comma,
    exclamation mark, question mark, semicolon, colon, double quote. *)
Definition punctuation : list ascii :=
  ["."; ","; "!"; "?"; ";"; ":"; ascii_of_nat 34]%char.

Definition is_punctuation (c : ascii) : bool :=
  existsb (Ascii.eqb c) punctuation.

(** [s.replace(...)] with that class, global, and the empty replacement. *)
Fixpoint strip_punctuation (s : string) : string :=
  match s with
  | String c r =>
      if is_punctuation c then strip_punctuation r
      else String c (strip_punctuation r)
  | EmptyString => s
  end.

(** [s.split(/\s+/)], scanning left to right: [word] is the piece being
    read, [gap] says that the last character was white space.  A piece is
    closed at the first white space after it and at the end of the string;
    the pieces before leading and after trailing white space are empty. *)
Fixpoint split_from (word : string) (gap : bool) (s : string) : list string :=
  match s with
  | EmptyString => [word]
  | String c r =>
      if is_space c then
        if gap then split_from EmptyString true r
        else word :: split_from EmptyString true r
      else split_from (word ++ String c EmptyString)%string false r
  end.

Definition split_spaces (s : string) : list string :=
  split_from EmptyString false s.

(** A DOM node: a text node or an element with its class list and its
    children. *)
#[warnings="-register-all"] Inductive Node :=
| TextNode (data : string)
| Element (tag : string) (classList : list string) (children : list Node).

(** [node.textContent]: the text of all descendants, in document order. *)
Fixpoint textContent (n : Node) : string :=
  match n with
  | TextNode data => data
  | Element _ _ children =>
      (fix all (l : list Node) : string :=
         match l with
         | [] => EmptyString
         | k :: r => (textContent k ++ all r)%string
         end) children
  end.

(** The [textContent] of an element with these children. *)
Definition text_of (children : list Node) : string :=
  textContent (Element "p" [] children).

(** [classList.add(token)]: a token that is there already is not added. *)
Definition classList_add (token : string) (classList : list string) : list string :=
  if existsb (String.eqb token) classList then classList
  else classList ++ [token].

(** [el.textContent = s] on an element: one text node, none for the empty
    string. *)
Definition set_textContent (s : string) : list Node :=
  match s with
  | EmptyString => []
  | _ => [TextNode s]
  end.

(** [this.keywords] *)
Definition keywords : list string :=
  ["vibrant"; "living"; "clarity"; "expression"; "shape"; "intuitive";
   "storytelling"; "interactive"; "vision"]%string.

Definition includes (l : list string) (s : string) : bool :=
  existsb (String.eqb s) l.

(** The body of [words.forEach((word) => { if (word.trim()) { ... } })]:
    the container appended for a word, none for a blank one.
[[
          const wordContainer = document.createElement("div");
          wordContainer.className = "word";
          const wordText = document.createElement("span");
          wordText.textContent = word;
          const normalizedWord = word.toLowerCase().replace(PUNCTUATION, EMPTY);
          if (this.keywords.includes(normalizedWord)) {
            wordContainer.classList.add("keyword-wrapper");
            wordText.classList.add("keyword", normalizedWord);
          }
          wordContainer.appendChild(wordText);
          paragraph.appendChild(wordContainer);
]] *)
Definition wordContainer (word : string) : list Node :=
  match trim word with
  | EmptyString => []
  | _ =>
      let normalizedWord := strip_punctuation (toLowerCase word) in
      if includes keywords normalizedWord then
        [Element "div" (classList_add "keyword-wrapper" ["word"%string])
           [Element "span"
              (classList_add normalizedWord (classList_add "keyword" []))
              (set_textContent word)]]
      else
        [Element "div" ["word"%string]
           [Element "span" [] (set_textContent word)]]
  end.

(** One paragraph of [processTextElements]: its children afterwards.
[[
      const text = paragraph.textContent;
      const words = text.split(/\s+/);
      paragraph.innerHTML = EMPTY;
      words.forEach((word) => { ... });
]] *)
Definition processParagraph (children : list Node) : list Node :=
  let text := text_of children in
  let words := split_spaces text in
  flat_map wordContainer words.

(** [processTextElements()] on the paragraphs that match [.anime-text p]. *)
Definition processTextElements (paragraphs : list (list Node)) : list (list Node) :=
  map processParagraph paragraphs.

(** The words of a text: the pieces that are not blank. *)
Definition words_of (text : string) : list string :=
  filter (fun w => match trim w with EmptyString => false | _ => true end)
         (split_spaces text).

(** A text without its white space. *)
Fixpoint remove_spaces (s : string) : string :=
  match s with
  | String c r => if is_space c then remove_spaces r else String c (remove_spaces r)
  | EmptyString => s
  end.

Fixpoint has_space (s : string) : bool :=
  match s with
  | String c r => is_space c || has_space r
  | EmptyString => false
  end.

(** All the strings of a list, one after the other. *)
Definition join (l : list string) : string :=
  fold_right String.append EmptyString l.

(** [word.toLowerCase()] without its punctuation. *)
Definition normalize (word : string) : string :=
  strip_punctuation (toLowerCase word).

(** A word container as [processTextElements] builds it: a [div.word] with
    one [span] that holds the word; for a keyword the [div] is also a
    [keyword-wrapper] and the [span] has the classes [keyword] and the
    keyword itself. *)
Definition WordElement (n : Node) : Prop :=
  exists word : string,
    word <> EmptyString
    /\ has_space word = false
    /\ (if includes keywords (normalize word)
        then n = Element "div" ["word"; "keyword-wrapper"]%string
                   [Element "span" ["keyword"%string; normalize word]
                      [TextNode word]]
        else n = Element "div" ["word"%string]
                   [Element "span" [] [TextNode word]]).

End Text.

(* ===================================================================== *)
(** * [TextAnimation]: the style of a word while scrolling *)
(* ===================================================================== *)

(** Numbers are rationals and the arithmetic is the exact one, where the
    source rounds the result of every operation to a double.  The
    theorems about this callback state what the rounding keeps: ranges
    and orderings that every rounding to nearest preserves, and bounds
    with a margin far above the rounding errors. *)
Module Scroll.

(** An opacity the callback assigns: a number, or
    [Math.max(floor, Math.pow(base, exponent))], kept as written because a
    power with a fractional exponent has no rational value. *)
Inductive Opacity :=
| Plain (value : Q)
| MaxPow (floor base exponent : Q).

(** What [onUpdate] assigns to one word: [word.style.opacity], the alpha of
    [word.style.backgroundColor], [wordText.style.opacity]. *)
Record Style := mkStyle {
  word_opacity : Q;
  background_alpha : Q;
  text_opacity : Opacity }.

(** [a < b] on numbers. *)
Definition Qltb (a b : Q) : bool := Qgtb b a.

(** [[
              const overlapWords = 8;
              const wordStart = index / totalWords;
              const wordEnd = wordStart + overlapWords / totalWords;
              const wordProgress = revealProgress < wordStart ? 0 :
                revealProgress > wordEnd ? 1 :
                (revealProgress - wordStart) / (wordEnd - wordStart);
]] *)
Definition wordProgress (revealProgress : Q) (index totalWords : Z) : Q :=
  let overlapWords := 8%Q in
  let wordStart := (inject_Z index / inject_Z totalWords)%Q in
  let wordEnd := (wordStart + overlapWords / inject_Z totalWords)%Q in
  if Qltb revealProgress wordStart then 0%Q
  else if Qgtb revealProgress wordEnd then 1%Q
  else ((revealProgress - wordStart) / (wordEnd - wordStart))%Q.

(** The body of [words.forEach((word, index) => ...)] in [onUpdate], for
    the progress of the scroll trigger, the index of the word and the
    number of words of the container.
[[
            if (progress < 0.8) {
              const revealProgress = progress / 0.8;
              ... wordProgress ...
              const minOpacity = 0.1;
              const finalOpacity = Math.max(minOpacity, wordProgress);
              word.style.opacity = finalOpacity;
              const backgroundOpacity = wordProgress > 0.7 ?
                Math.max(0, 1 - (wordProgress - 0.7) / 0.3) : 0;
              word.style.backgroundColor = `rgba(..., ${backgroundOpacity})`;
              const textRevealProgress = wordProgress > 0.3 ?
                (wordProgress - 0.3) / 0.7 : 0;
              wordText.style.opacity = Math.max(0.2, Math.pow(textRevealProgress, 0.3));
            } else {
              const exitProgress = (progress - 0.8) / 0.2;
              const fadeOut = 1 - exitProgress;
              word.style.opacity = Math.max(0.1, fadeOut);
              wordText.style.opacity = Math.max(0.1, fadeOut);
              word.style.backgroundColor = `rgba(..., ${exitProgress * 0.5})`;
            }
]] *)
Definition onUpdate (progress : Q) (index totalWords : Z) : Style :=
  if Qltb progress (8 # 10) then
    let revealProgress := (progress / (8 # 10))%Q in
    let wordProgress := wordProgress revealProgress index totalWords in
    let minOpacity := (1 # 10)%Q in
    let finalOpacity := Qmax minOpacity wordProgress in
    let backgroundOpacity :=
      if Qgtb wordProgress (7 # 10)
      then Qmax 0 (1 - (wordProgress - (7 # 10)) / (3 # 10))%Q
      else 0%Q in
    let textRevealProgress :=
      if Qgtb wordProgress (3 # 10)
      then ((wordProgress - (3 # 10)) / (7 # 10))%Q
      else 0%Q in
    mkStyle finalOpacity backgroundOpacity
            (MaxPow (2 # 10) textRevealProgress (3 # 10))
  else
    let exitProgress := ((progress - (8 # 10)) / (2 # 10))%Q in
    let fadeOut := (1 - exitProgress)%Q in
    mkStyle (Qmax (1 # 10) fadeOut) (exitProgress * (5 # 10))%Q
            (Plain (Qmax (1 # 10) fadeOut)).

(** An opacity that is a number between [lo] and 1, or the maximum of a
    floor between [lo] and 1 and a power of a base between 0 and 1 (so the
    power is a number between 0 and 1, not [NaN]). *)
Definition opacity_within (lo : Q) (o : Opacity) : Prop :=
  match o with
  | Plain v => (lo <= v /\ v <= 1)%Q
  | MaxPow floor base exponent =>
      (lo <= floor /\ floor <= 1 /\ 0 <= base /\ base <= 1 /\ 0 < exponent)%Q
  end.

End Scroll.

(* ===================================================================== *)
(** * The scroll callback of [src/unnamed/part_001] *)
(* ===================================================================== *)

(** The listener of [DOMContentLoaded] in [src/unnamed/part_001] creates
    the scroll triggers itself, with another [onUpdate]: the reveal phase
    ends at 0.7 and is followed by a reverse phase.  Numbers are rationals
    with exact arithmetic, as above; at the ends of the window of a word,
    where the rounding of the source decides the branch, the theorems
    claim nothing that depends on the branch taken. *)
Module ScrollInline.

(** What the callback does to the opacity of the text of a word. *)
Inductive TextWrite :=
| SetPow (base exponent : Q)  (** [wordText.style.opacity = Math.pow(base, exponent)] *)
| SetValue (value : Q)        (** [wordText.style.opacity = value] *)
| NoStyle.                    (** [wordText.opacity = ...]: no style is written *)

(** What [onUpdate] assigns to one word: [word.style.opacity], the alpha of
    [word.style.backgroundColor], and the write to the text. *)
Record Style := mkStyle {
  word_opacity : Q;
  background_alpha : Q;
  text_write : TextWrite }.

(** The body of [words.forEach((word, index) => ...)].
[[
          if (progress < 0.7) {
            const progressTarget = 0.7;
            const revealProgress = Math.min(1, progress / progressTarget);
            const overlapWords = 15;
            const totalAnimationLength = 1 + overlapWords / totalWords;
            const wordStart = index / totalWords;
            const wordEnd = wordStart + overlapWords / totalWords;
            const timelineScale = 1 / Math.min(totalAnimationLength,
                1 + (totalWords - 1) / totalWords + overlapWords / totalWords);
            const adjustedStart = wordStart * timelineScale;
            const adjustedEnd = wordEnd * timelineScale;
            const duration = adjustedEnd - adjustedStart;
            const wordProgress = revealProgress < adjustedStart ? 0
                : revealProgress > adjustedEnd ? 1
                : (revealProgress - adjustedStart) / duration;
            word.style.opacity = wordProgress;
            const backgroundFadeStart =
              wordProgress > 0.9 ? (wordProgress - 0.9) / 0.1 : 0;
            const backgroundOpacity = Math.max(0, 1 - backgroundFadeStart);
            word.style.backgroundColor = `rgba(..., ${backgroundOpacity})`;
            const textRevealThreshold = 0.9;
            const textRevealProgress = wordProgress > textRevealThreshold
                ? (wordProgress - textRevealThreshold) / (1 - textRevealThreshold)
                : 0;
            wordText.style.opacity = Math.pow(textRevealProgress, 0.5);
          } else {
            const reverseProgress = (progress - 0.7) / 0.3;
            word.style.opacity = 1;
            const targetTextOpacity = 1;
            const reverseOverlapWords = 5;
            const reverseWordStart = index / totalWords;
            const reverseWordEnd = reverseWordStart + reverseOverlapWords / totalWords;
            const reverseTimelineScale = 1 / Math.max(1,
                (totalWords - 1) / totalWords + reverseOverlapWords / totalWords);
            const reverseAdjustedStart = reverseWordStart * reverseTimelineScale;
            const reverseAdjustedEnd = reverseWordEnd * reverseTimelineScale;
            const reverseDuration = reverseAdjustedEnd - reverseAdjustedStart;
            const reverseWordProgress = reverseProgress < reverseAdjustedStart ? 0
                : reverseProgress > reverseAdjustedEnd ? 1
                : (progress - reverseAdjustedStart) / reverseDuration;
            if (reverseWordProgress > 0) {
              wordText.style.opacity = targetTextOpacity * (1 - reverseWordProgress);
              word.style.backgroundColor = `rgba(..., ${reverseWordProgress})`;
            } else {
              wordText.opacity = targetTextOpacity;
              word.style.backgroundColor = `rgba(..., 0)`;
            }
          }
]]
    [wordProgress] and [reverseWordProgress] are the values of the
    constants of these names; the quotient of the third case of
    [reverseWordProgress] is taken of [progress], not of
    [reverseProgress]. *)
Definition wordProgress (revealProgress : Q) (index totalWords : Z) : Q :=
  let index := inject_Z index in
  let totalWords := inject_Z totalWords in
  let overlapWords := 15%Q in
  let totalAnimationLength := (1 + overlapWords / totalWords)%Q in
  let wordStart := (index / totalWords)%Q in
  let wordEnd := (wordStart + overlapWords / totalWords)%Q in
  let timelineScale :=
    (1 / Qmin totalAnimationLength
              (1 + (totalWords - 1) / totalWords + overlapWords / totalWords))%Q in
  let adjustedStart := (wordStart * timelineScale)%Q in
  let adjustedEnd := (wordEnd * timelineScale)%Q in
  let duration := (adjustedEnd - adjustedStart)%Q in
  if Scroll.Qltb revealProgress adjustedStart then 0%Q
  else if Qgtb revealProgress adjustedEnd then 1%Q
  else ((revealProgress - adjustedStart) / duration)%Q.

Definition reverseWordProgress (progress : Q) (index totalWords : Z) : Q :=
  let index := inject_Z index in
  let totalWords := inject_Z totalWords in
  let reverseProgress := ((progress - (7 # 10)) / (3 # 10))%Q in
  let reverseOverlapWords := 5%Q in
  let reverseWordStart := (index / totalWords)%Q in
  let reverseWordEnd := (reverseWordStart + reverseOverlapWords / totalWords)%Q in
  let reverseTimelineScale :=
    (1 / Qmax 1 ((totalWords - 1) / totalWords
                 + reverseOverlapWords / totalWords))%Q in
  let reverseAdjustedStart := (reverseWordStart * reverseTimelineScale)%Q in
  let reverseAdjustedEnd := (reverseWordEnd * reverseTimelineScale)%Q in
  let reverseDuration := (reverseAdjustedEnd - reverseAdjustedStart)%Q in
  if Scroll.Qltb reverseProgress reverseAdjustedStart then 0%Q
  else if Qgtb reverseProgress reverseAdjustedEnd then 1%Q
  else ((progress - reverseAdjustedStart) / reverseDuration)%Q.

Definition onUpdate (progress : Q) (index totalWords : Z) : Style :=
  if Scroll.Qltb progress (7 # 10) then
    let progressTarget := (7 # 10)%Q in
    let revealProgress := Qmin 1 (progress / progressTarget) in
    let wordProgress := wordProgress revealProgress index totalWords in
    let backgroundFadeStart :=
      if Qgtb wordProgress (9 # 10)
      then ((wordProgress - (9 # 10)) / (1 # 10))%Q
      else 0%Q in
    let backgroundOpacity := Qmax 0 (1 - backgroundFadeStart)%Q in
    let textRevealThreshold := (9 # 10)%Q in
    let textRevealProgress :=
      if Qgtb wordProgress textRevealThreshold
      then ((wordProgress - textRevealThreshold) / (1 - textRevealThreshold))%Q
      else 0%Q in
    mkStyle wordProgress backgroundOpacity (SetPow textRevealProgress (5 # 10))
  else
    let targetTextOpacity := 1%Q in
    let reverseWordProgress := reverseWordProgress progress index totalWords in
    if Qgtb reverseWordProgress 0
    then mkStyle 1 reverseWordProgress
                 (SetValue (targetTextOpacity * (1 - reverseWordProgress))%Q)
    else mkStyle 1 0 NoStyle.

(** The window of a word in the reverse phase, in closed form: with [n]
    words the word [index] starts at [index / (n + 4)] and ends at
    [(index + 5) / (n + 4)]. *)
Definition reverse_start (index totalWords : Z) : Q :=
  (inject_Z index / inject_Z (totalWords + 4))%Q.

Definition reverse_end (index totalWords : Z) : Q :=
  (inject_Z (index + 5) / inject_Z (totalWords + 4))%Q.

End ScrollInline.

(* ===================================================================== *)
(** * [PreloaderComponent]: the progress bar *)
(* ===================================================================== *)

(** [Math.random()] is a sequence of numbers fixed in advance: [random k]
    is what the call number [k] returns. *)
Module Progress.

(** A tween of the progress bar: [tl.to(progressBar, { scaleX, duration })]. *)
Record Tween := mkTween { scaleX : Q; duration : Q }.

(** The loop of [animateProgress] with GSAP, from step [i] on, [todo] steps
    to go.
[[
            const steps = 5;
            let currentProgress = 0;
            for (let i = 0; i < steps; i++) {
                const isLastStep = i === steps - 1;
                const targetProgress = isLastStep
                    ? 1
                    : Math.min(currentProgress + Math.random() * 0.3 + 0.1, 0.9);
                currentProgress = targetProgress;
                tl.to(progressBar, { scaleX: targetProgress, duration: duration / steps, ... });
            }
]]
    The last step does not call [Math.random], so step [i] makes call
    number [i]. *)
Fixpoint animateProgress_from (random : nat -> Q) (duration : Q) (steps i todo : nat)
    (currentProgress : Q) : list Tween :=
  match todo with
  | O => []
  | S todo' =>
      let isLastStep := Nat.eqb i (steps - 1) in
      let targetProgress :=
        if isLastStep then 1%Q
        else Qmin (currentProgress + random i * (3 # 10) + (1 # 10))%Q (9 # 10) in
      mkTween targetProgress (duration / inject_Z (Z.of_nat steps))%Q
        :: animateProgress_from random duration steps (S i) todo' targetProgress
  end.

(** [animateProgress(duration)] when GSAP is used: the tweens of the
    timeline it returns. *)
Definition animateProgress (random : nat -> Q) (duration : Q) : list Tween :=
  animateProgress_from random duration 5 0 5 0.

(** The state of [animateProgressFallback]: [progress], whether the
    interval is still set, how often the promise was resolved, and the
    values handed to [onProgress] (the [scaleX] written to the bar). *)
Record Fallback := mkFallback {
  progress : Q;
  interval : bool;
  resolved : nat;
  reported : list Q }.

(** The promise is created: [let progress = 0] and [setInterval]. *)
Definition fallback_start : Fallback := mkFallback 0 true 0 [].

(** One firing of the interval, with the value [Math.random()] returns.
[[
                progress += (100 / steps) * (0.8 + Math.random() * 0.4);
                progress = Math.min(progress, 100);
                progressBar.style.transform = `translateX(-50%) scaleX(${progress / 100})`;
                if (this.config.onProgress) { this.config.onProgress(progress / 100); }
                if (progress >= 100) { clearInterval(interval); resolve(); }
]]
    with [steps = 50]; a cleared interval does not fire. *)
Definition fallback_tick (r : Q) (s : Fallback) : Fallback :=
  if interval s then
    let p := (progress s + (100 / 50) * ((8 # 10) + r * (4 # 10)))%Q in
    let p := Qmin p 100 in
    if Qle_bool 100 p
    then mkFallback p false (S (resolved s)) (reported s ++ [(p / 100)%Q])
    else mkFallback p true (resolved s) (reported s ++ [(p / 100)%Q])
  else s.

(** The firings number [k], [k+1], ..., [k+n-1]. *)
Fixpoint fallback_run (random : nat -> Q) (k n : nat) (s : Fallback) : Fallback :=
  match n with
  | O => s
  | S n' => fallback_run random (S k) n' (fallback_tick (random k) s)
  end.

(** What [Math.random] promises: a number from 0 up to, not including, 1. *)
Definition is_random (random : nat -> Q) : Prop :=
  forall k, (0 <= random k /\ random k < 1)%Q.

(** A list of numbers that never goes down. *)
Fixpoint ascending (l : list Q) : Prop :=
  match l with
  | [] => True
  | x :: r => match r with [] => True | y :: _ => (x <= y)%Q end /\ ascending r
  end.

(** What holds after [j] firings of the interval. *)
Definition fallback_inv (j : nat) (s : Fallback) : Prop :=
  (0 <= progress s /\ progress s <= 100)%Q
  /\ ascending (reported s)
  /\ Forall (fun v => (0 < v /\ v <= progress s / 100)%Q) (reported s)
  /\ (if interval s
      then List.length (reported s) = j
           /\ resolved s = 0%nat
           /\ (progress s < 100)%Q
           /\ ((16 # 10) * inject_Z (Z.of_nat j) <= progress s)%Q
           /\ (progress s <= (24 # 10) * inject_Z (Z.of_nat j))%Q
      else resolved s = 1%nat
           /\ (progress s == 100)%Q
           /\ (42 <= List.length (reported s) <= 63)%nat
           /\ (List.length (reported s) <= j)%nat).

End Progress.

(* ===================================================================== *)
(** * The application: preloader, timers, text animation *)
(* ===================================================================== *)

(** The listener of [DOMContentLoaded] in [src/script.js] builds a
    [FluidGradient], a [TextAnimation] and a [PreloaderAnimation] and
    listens to the keyboard.  [setTimeout] appends to a list of pending
    timers; the browser fires them one at a time, in any order.  The
    tweens handed to [gsap] are the host's [tweens]; [gsap] reports the
    completion of one of them, and a killed tween is no longer there.
    The text of a container is in its paragraphs: the page is one where
    every element matching [.anime-text .word] lies in a paragraph matching
    [.anime-text p], and where no paragraph or container lies in another.
    Not part of the model: the [onStart] callbacks of the timeline, which
    only start a tween of [.count-wrapper]. *)
Module App.

(** Inline styles of a [.word] element and of its [span]; [None] is a
    style that was never assigned. *)
Record WordStyle := mkWordStyle {
  opacity : option Q;
  backgroundAlpha : option Q;
  textOpacity : option Scroll.Opacity }.

(** An [.anime-text-container]: the children of each paragraph matching
    [.anime-text p] below it, the styles of the elements matching
    [.anime-text .word] below it, in document order, and the number of
    words its scroll trigger animates ([None]: no trigger). *)
Record Container := mkContainer {
  paragraphs : list (list Text.Node);
  wordStyles : list WordStyle;
  trigger : option nat }.

(** A callback handed to [setTimeout]. *)
Inductive Timer :=
| RemovePreloader   (** [() => this.preloader.remove()], 900 ms *)
| InitGradient      (** [() => fluidGradient.init()], 200 ms *)
| InitText          (** [() => textAnimation.init()], 500 ms *)
| InitBoth.         (** [() => { fluidGradient.init(); textAnimation.init(); }], 100 ms *)

(** A call into GSAP, ScrollTrigger or Lenis made by [TextAnimation.init]. *)
Inductive LibCall :=
| RegisterPlugin
| NewLenis
| LenisOnScroll
| TickerAdd
| LagSmoothing (threshold : Z)
| ScrollTriggerCreate (container : nat) (scrollEnd : Z).

(** The document outside the gradient's host. *)
Record Dom := mkDom {
  preloaderClasses : list string;
  preloaderAttached : bool;
  mainContentClasses : list string;
  bodyOverflow : option string;
  containers : list Container;
  (** paragraphs matching [.anime-text p] outside every container *)
  looseParagraphs : list (list Text.Node) }.

Definition set_preloaderClasses v '(mkDom _ b c d e f) := mkDom v b c d e f.
Definition set_preloaderAttached v '(mkDom a _ c d e f) := mkDom a v c d e f.
Definition set_mainContentClasses v '(mkDom a b _ d e f) := mkDom a b v d e f.
Definition set_bodyOverflow v '(mkDom a b c _ e f) := mkDom a b c v e f.
Definition set_containers v '(mkDom a b c d _ f) := mkDom a b c d v f.
Definition set_looseParagraphs v '(mkDom a b c d e _) := mkDom a b c d e v.

(** The three instances, the pending timers, the library calls made so
    far, and the document. *)
Record State := mkState {
  gradient : Machine;
  textInitialized : bool;
  preloader : Preloader.PreloaderAnimation;
  timers : list Timer;
  libCalls : list LibCall;
  dom : Dom }.

Definition set_gradient v '(mkState _ b c d e f) := mkState v b c d e f.
Definition set_textInitialized v '(mkState a _ c d e f) := mkState a v c d e f.
Definition set_timers v '(mkState a b c _ e f) := mkState a b c v e f.
Definition set_libCalls v '(mkState a b c d _ f) := mkState a b c d v f.
Definition set_dom v '(mkState a b c d e _) := mkState a b c d e v.

Definition AppM := M State.

(** A method of [fluidGradient], run on the instance and the host. *)
Definition onGradient {A} (c : JS A) : AppM A :=
  fun s => match c (gradient s) with
           | Normal a m => Normal a (set_gradient m s)
           | Throw e => Throw e
           end.

(** A method of [preloader], run on the instance and the host. *)
Definition onPreloader {A} (c : M Preloader.PMachine A) : AppM A :=
  fun s => match c (Preloader.mkPMachine (preloader s) (host (gradient s))) with
           | Normal a pm =>
               Normal a (set_gradient
                           (mkMachine (this (gradient s)) (Preloader.phost pm)) s)
           | Throw e => Throw e
           end.

Definition document (f : Dom -> Dom) : AppM unit :=
  modify (fun s => set_dom (f (dom s)) s).

Definition setTimeout (t : Timer) : AppM unit :=
  modify (fun s => set_timers (timers s ++ [t]) s).

Definition call (c : LibCall) : AppM unit :=
  modify (fun s => set_libCalls (libCalls s ++ [c]) s).

Definition console_log (msg : string) : AppM unit :=
  onGradient (effect (fun h => set_console (console h ++ [msg]) h)).

(** [initSmoothScrolling()]
[[
    this.lenis = new Lenis();
    this.lenis.on("scroll", ScrollTrigger.update);
    gsap.ticker.add((time) => { this.lenis.raf(time * 1000); });
    gsap.ticker.lagSmoothing(0);
]] *)
Definition initSmoothScrolling : AppM unit :=
  call NewLenis ;;
  call LenisOnScroll ;;
  call TickerAdd ;;
  call (LagSmoothing 0).

(** [processTextElements()] on every paragraph of the document. *)
Definition processTextElements : AppM unit :=
  document (fun d =>
    set_looseParagraphs (Text.processTextElements (looseParagraphs d))
      (set_containers
         (map (fun c => mkContainer (Text.processTextElements (paragraphs c))
                                    (wordStyles c) (trigger c))
              (containers d)) d)).

(** An element with the class [word]; an element with the tag [span]. *)
Definition is_word (n : Text.Node) : bool :=
  match n with
  | Text.Element _ classes _ => existsb (String.eqb "word") classes
  | Text.TextNode _ => false
  end.

Definition is_span (n : Text.Node) : bool :=
  match n with
  | Text.Element tag _ _ => String.eqb tag "span"
  | Text.TextNode _ => false
  end.

(** [n.querySelectorAll(...)]: the descendants of [n] that satisfy [p], in
    document order. *)
Fixpoint descendants (p : Text.Node -> bool) (n : Text.Node) : list Text.Node :=
  match n with
  | Text.TextNode _ => []
  | Text.Element _ _ children =>
      (fix all (l : list Text.Node) : list Text.Node :=
         match l with
         | [] => []
         | k :: r => (if p k then [k] else []) ++ descendants p k ++ all r
         end) children
  end.

(** [container.querySelectorAll(".anime-text .word")] *)
Definition words (c : Container) : list Text.Node :=
  flat_map (fun children => descendants is_word (Text.Element "p" [] children))
           (paragraphs c).

(** One container of [setupScrollAnimations()], the [i]-th; [None] is the
    [TypeError] of [wordText.style] when a word has no [span] below it.
[[
      const words = Array.from(container.querySelectorAll(".anime-text .word"));
      words.forEach((word) => {
        const wordText = word.querySelector("span");
        word.style.opacity = "0.3";
        wordText.style.opacity = "0.5";
      });
      ScrollTrigger.create({ trigger: container, pin: container, start: "top top",
        end: `+=${window.innerHeight * 3}`, pinSpacing: true, onUpdate: ... });
]] *)
Definition setupContainer (innerHeight : Z) (i : nat) (c : Container)
    : option (Container * LibCall) :=
  let words := words c in
  if forallb (fun word => match descendants is_span word with
                          | [] => false
                          | _ => true
                          end) words
  then Some (mkContainer (paragraphs c)
               (repeat (mkWordStyle (Some (3 # 10)) None
                                    (Some (Scroll.Plain (5 # 10))))
                       (List.length words))
               (Some (List.length words)),
             ScrollTriggerCreate i (innerHeight * 3))
  else None.

(** The containers from the [i]-th on, with the library calls made; the
    first failure ends the loop. *)
Fixpoint setupContainers (innerHeight : Z) (i : nat) (cs : list Container)
    : option (list Container * list LibCall) :=
  match cs with
  | [] => Some ([], [])
  | c :: r =>
      match setupContainer innerHeight i c with
      | None => None
      | Some (c', call) =>
          match setupContainers innerHeight (S i) r with
          | None => None
          | Some (r', calls) => Some (c' :: r', call :: calls)
          end
      end
  end.

Definition setupScrollAnimations : AppM unit :=
  h <- gets (fun s => innerHeight (host (gradient s))) ;;
  cs <- gets (fun s => containers (dom s)) ;;
  match setupContainers h 0 cs with
  | Some (cs', calls) =>
      document (set_containers cs') ;;
      modify (fun s => set_libCalls (libCalls s ++ calls) s)
  | None => throw TypeError
  end.

(** [[
  init() {
    if (this.isInitialized) return;
    gsap.registerPlugin(ScrollTrigger);
    this.initSmoothScrolling();
    this.processTextElements();
    this.setupScrollAnimations();
    this.isInitialized = true;
  }
]] *)
Definition textAnimation_init : AppM unit :=
  initialized <- gets textInitialized ;;
  if initialized then ret tt else
  call RegisterPlugin ;;
  initSmoothScrolling ;;
  processTextElements ;;
  setupScrollAnimations ;;
  modify (set_textInitialized true).

(** The [onComplete] the application passes to the preloader.
[[
      console.log("Preloader complete! Initializing components...");
      setTimeout(() => { fluidGradient.init(); }, 200);
      setTimeout(() => { textAnimation.init(); }, 500);
]] *)
Definition onComplete : AppM unit :=
  console_log "Preloader complete! Initializing components..." ;;
  setTimeout InitGradient ;;
  setTimeout InitText.

(** [[
  completeAnimation() {
    if (this.preloader) {
      this.preloader.classList.add("hidden");
      setTimeout(() => { this.preloader.remove(); }, 900);
    }
    if (this.mainContent) {
      this.mainContent.classList.add("loaded");
      document.body.style.overflow = "auto";
    }
    this.onComplete();
  }
]] *)
Definition completeAnimation : AppM unit :=
  p <- gets preloader ;;
  (if Preloader.preloader p then
     document (fun d => set_preloaderClasses
                          (Text.classList_add "hidden" (preloaderClasses d)) d) ;;
     setTimeout RemovePreloader
   else ret tt) ;;
  (if Preloader.mainContent p then
     document (fun d => set_mainContentClasses
                          (Text.classList_add "loaded" (mainContentClasses d)) d) ;;
     document (set_bodyOverflow (Some "auto"%string))
   else ret tt) ;;
  onComplete.

(** A tween that [timeline.kill()] or [gsap.killTweensOf(".count,
    .count-wrapper, .revealer svg")] removes: every tween in progress. *)
Definition is_running_tween (t : Tween) : bool :=
  match t with
  | TimelineTo _ _ _ _ => true
  | GsapTo _ _ _ _ => true
  | GsapSet _ _ => false
  end.

(** [[
  skipAnimation() {
    this.timeline.kill();
    gsap.killTweensOf(".count, .count-wrapper, .revealer svg");
    this.completeAnimation();
  }
]] *)
Definition skipAnimation : AppM unit :=
  onGradient (effect (fun h =>
    set_tweens (filter (fun t => negb (is_running_tween t)) (tweens h)) h)) ;;
  completeAnimation.

(** What the browser, the user and [gsap] do to the page. *)
Inductive Input :=
| KeyDown (key : string)
| TimerFires (k : nat) (now1 now2 : Q)
| TweenCompletes (k : nat)
| ScrollUpdate (container : nat) (progress : Q)
| Browser (ev : Event).

(** [l] without its element number [k]. *)
Fixpoint remove_nth {A} (k : nat) (l : list A) : list A :=
  match k, l with
  | _, [] => []
  | O, _ :: r => r
  | S k', a :: r => a :: remove_nth k' r
  end.

Definition fire (t : Timer) (now1 now2 : Q) : AppM unit :=
  match t with
  | RemovePreloader => document (set_preloaderAttached false)
  | InitGradient => onGradient (init now1 now2)
  | InitText => textAnimation_init
  | InitBoth => onGradient (init now1 now2) ;; textAnimation_init
  end.

(** The [onComplete] of the tween of the [i]-th revealer:
    [if (i === delays.length - 1) this.completeAnimation()]. *)
Definition revealer_done (i : nat) : AppM unit :=
  if Nat.eqb i (3 - 1) then completeAnimation else ret tt.

(** The styles [onUpdate] writes to the words of one container. *)
Definition update_styles (progress : Q) (total : nat) (styles : list WordStyle)
    : list WordStyle :=
  map (fun index =>
         let s := Scroll.onUpdate progress (Z.of_nat index) (Z.of_nat total) in
         mkWordStyle (Some (Scroll.word_opacity s))
                     (Some (Scroll.background_alpha s))
                     (Some (Scroll.text_opacity s)))
      (seq 0 total).

(** What [onUpdate] does to one container. *)
Definition restyle (progress : Q) (ct : Container) : Container :=
  match trigger ct with
  | Some total =>
      mkContainer (paragraphs ct)
                  (update_styles progress total (wordStyles ct)) (trigger ct)
  | None => ct
  end.

Fixpoint update_nth {A} (k : nat) (f : A -> A) (l : list A) : list A :=
  match k, l with
  | _, [] => []
  | O, a :: r => f a :: r
  | S k', a :: r => a :: update_nth k' f r
  end.

Definition input (i : Input) : AppM unit :=
  match i with
  | KeyDown key =>
      if String.eqb key "Escape" then
        skipAnimation ;;
        setTimeout InitBoth
      else ret tt
  | TimerFires k now1 now2 =>
      ts <- gets timers ;;
      match nth_error ts k with
      | Some t => modify (set_timers (remove_nth k ts)) ;; fire t now1 now2
      | None => ret tt
      end
  | TweenCompletes k =>
      tw <- gets (fun s => tweens (host (gradient s))) ;;
      match nth_error tw k with
      | Some t =>
          onGradient (effect (set_tweens (remove_nth k tw))) ;;
          match t with
          | GsapTo i _ _ _ => revealer_done i
          | _ => ret tt
          end
      | None => ret tt
      end
  | ScrollUpdate c progress =>
      document (fun d =>
        set_containers (update_nth c (restyle progress) (containers d)) d)
  | Browser ev => onGradient (dispatch ev)
  end.

Definition inputs (l : list Input) : AppM unit := forEach input l.

(** The listener of [DOMContentLoaded]: the state it leaves on a page
    where the gradient's host is [h], the preloader elements are found or
    not and have the classes [pc] and [mc], the body has the overflow
    [bo], and the text is in [cs] and [loose].
[[
  const fluidGradient = new FluidGradient();
  const textAnimation = new TextAnimation();
  const preloader = new PreloaderAnimation({ ..., onComplete: ... });
  document.addEventListener("keydown", ...);
]]
    The constructor of [PreloaderAnimation] ends with [this.init()]. *)
Definition domContentLoaded (h : Host) (p : Preloader.PreloaderAnimation)
    (pc mc : list string) (bo : option string)
    (cs : list (list (list Text.Node))) (loose : list (list Text.Node))
    : Completion State unit :=
  onPreloader Preloader.init
    (mkState (boot h) false p [] []
       (mkDom pc true mc bo
              (map (fun ps => mkContainer ps [] None) cs) loose)).

Definition is_escape (i : Input) : bool :=
  match i with
  | KeyDown key => String.eqb key "Escape"
  | _ => false
  end.

(** The library calls of one complete [TextAnimation.init] on a page with
    [n] containers and a window of height [h]. *)
Definition init_calls (h : Z) (n : nat) : list LibCall :=
  [RegisterPlugin; NewLenis; LenisOnScroll; TickerAdd; LagSmoothing 0]
  ++ map (fun i => ScrollTriggerCreate i (h * 3)) (seq 0 n).

(** The text of the page, [cs] and [loose] when the document was loaded:
    either untouched, with no library call made and no trigger, or, once
    [isInitialized] is set, processed exactly once, with the library calls
    of exactly one [init] and one trigger per container, over all its
    words. *)
Definition TextOnce (cs : list (list (list Text.Node)))
    (loose : list (list Text.Node)) (s : State) : Prop :=
  if textInitialized s then
    map paragraphs (containers (dom s)) = map Text.processTextElements cs
    /\ looseParagraphs (dom s) = Text.processTextElements loose
    /\ Forall (fun c => trigger c = Some (List.length (wordStyles c))
                        /\ List.length (wordStyles c) = List.length (words c))
              (containers (dom s))
    /\ exists h, libCalls s = init_calls h (List.length cs)
  else
    map paragraphs (containers (dom s)) = cs
    /\ looseParagraphs (dom s) = loose
    /\ Forall (fun c => trigger c = None /\ wordStyles c = [])
              (containers (dom s))
    /\ libCalls s = [].

(** The gradient is pristine or running, and the text is processed at
    most once. *)
Definition Sound (cs : list (list (list Text.Node)))
    (loose : list (list Text.Node)) (s : State) : Prop :=
  (Pristine (gradient s) \/ Running (gradient s))
  /\ TextOnce cs loose s.

(** The style every word gets in [setupScrollAnimations]. *)
Definition initial_style : WordStyle :=
  mkWordStyle (Some (3 # 10)) None (Some (Scroll.Plain (5 # 10))).

(** Everything of the state but the text and its library calls. *)
Definition shell (s : State) :=
  (gradient s, preloader s, timers s,
   preloaderClasses (dom s), preloaderAttached (dom s),
   mainContentClasses (dom s), bodyOverflow (dom s)).

(** The tweens [setupAnimation] hands to [gsap] on a page with [n]
    elements matching [.revealer svg]. *)
Definition setup_tweens (n : nat) : list Tween :=
  [TimelineTo ".count" (-900) (85 # 100) (1 # 2)]
  ++ map (fun i => TimelineTo ".count" (-900 + i * 180) (85 # 100) 0)
         [1; 2; 3; 4; 5; 6]
  ++ [GsapSet ".revealer svg" 0]
  ++ map (fun i => GsapTo i 45 (3 # 2) (Preloader.delays i)) (seq 0 n).

(** A tween whose completion runs [completeAnimation]. *)
Definition completes_preloader (t : Tween) : bool :=
  match t with
  | GsapTo i _ _ _ => Nat.eqb i 2
  | _ => false
  end.

(** The page as long as the preloader has not completed: nothing is
    scheduled, nothing is initialised, and the preloader, the main content
    and the body are as they were loaded. *)
Definition Waiting (pc mc : list string) (bo : option string)
    (cs : list (list (list Text.Node)))
    (loose : list (list Text.Node)) (s : State) : Prop :=
  timers s = []
  /\ textInitialized s = false
  /\ Pristine (gradient s)
  /\ preloaderClasses (dom s) = pc
  /\ preloaderAttached (dom s) = true
  /\ mainContentClasses (dom s) = mc
  /\ bodyOverflow (dom s) = bo
  /\ TextOnce cs loose s.

End App.

(* ===================================================================== *)
(** * Colours: [hexToRgb] *)
(* ===================================================================== *)

Section HexToRgb.

Import JsString.

Lemma is_hex_digit_alphabet (c : ascii) :
  is_hex_digit c = true -> In c hex_alphabet.
Proof.
  destruct c as [b0 b1 b2 b3 b4 b5 b6 b7].
  destruct b0, b1, b2, b3, b4, b5, b6, b7; vm_compute; intro H;
    solve [ discriminate H | repeat (first [left; reflexivity | right]) ].
Qed.

Lemma parseInt16_pair (hi lo : ascii) :
  is_hex_digit hi = true -> is_hex_digit lo = true ->
  parseInt16 (String hi (String lo EmptyString)) = Some (component hi lo).
Proof.
  intros Hhi Hlo.
  apply is_hex_digit_alphabet in Hhi; apply is_hex_digit_alphabet in Hlo.
  unfold hex_alphabet in Hhi, Hlo; simpl in Hhi, Hlo.
  repeat (destruct Hhi as [<- | Hhi]; [ | ]); try contradiction;
    repeat (destruct Hlo as [<- | Hlo]; [ | ]); try contradiction;
    reflexivity.
Qed.

(** [parseInt] reads exactly the hexadecimal digits, each at its value. *)
Lemma hex_digit_value_notation (c : ascii) :
  hex_digit_value c = if hex_char c then Some (digit c) else None.
Proof.
  destruct c as [b0 b1 b2 b3 b4 b5 b6 b7].
  destruct b0, b1, b2, b3, b4, b5, b6, b7; vm_compute; reflexivity.
Qed.

Lemma hex_char_is_hex_digit (c : ascii) :
  hex_char c = true -> is_hex_digit c = true.
Proof.
  intro H. unfold is_hex_digit. rewrite hex_digit_value_notation, H.
  reflexivity.
Qed.

Lemma digit_range (c : ascii) : 0 <= digit c <= 15.
Proof.
  destruct c as [b0 b1 b2 b3 b4 b5 b6 b7].
  destruct b0, b1, b2, b3, b4, b5, b6, b7; vm_compute; split; discriminate.
Qed.

Lemma component_range (hi lo : ascii) : 0 <= component hi lo <= 255.
Proof.
  unfold component.
  pose proof (digit_range hi). pose proof (digit_range lo). lia.
Qed.

Lemma byte_over_255_unit (n : Z) :
  0 <= n <= 255 ->
  (0 <= inject_Z n / inject_Z 255 /\ inject_Z n / inject_Z 255 <= 1)%Q.
Proof.
  intro H. unfold Qle, Qdiv, Qmult, Qinv, inject_Z; simpl. lia.
Qed.

End HexToRgb.

(** C6.  For every string [#RRGGBB] whose six characters after [#] are
    hexadecimal digits, [hexToRgb] returns three numbers; each is the value
    its two digits have in hexadecimal notation (16 times the first digit
    plus the second, a letter counting from 10 in either case) divided by
    255, and lies between 0 and 1. *)
Theorem hexToRgb_unit_components (c1 c2 c3 c4 c5 c6 : ascii) :
  hex_char c1 = true -> hex_char c2 = true ->
  hex_char c3 = true -> hex_char c4 = true ->
  hex_char c5 = true -> hex_char c6 = true ->
  exists r g b : Q,
    hexToRgb (hex_string c1 c2 c3 c4 c5 c6) = [Some r; Some g; Some b]
    /\ r = (inject_Z (component c1 c2) / inject_Z 255)%Q
    /\ g = (inject_Z (component c3 c4) / inject_Z 255)%Q
    /\ b = (inject_Z (component c5 c6) / inject_Z 255)%Q
    /\ (0 <= r /\ r <= 1)%Q /\ (0 <= g /\ g <= 1)%Q /\ (0 <= b /\ b <= 1)%Q.
Proof.
  intros H1 H2 H3 H4 H5 H6.
  apply hex_char_is_hex_digit in H1, H2, H3, H4, H5, H6.
  exists (inject_Z (component c1 c2) / inject_Z 255)%Q,
         (inject_Z (component c3 c4) / inject_Z 255)%Q,
         (inject_Z (component c5 c6) / inject_Z 255)%Q.
  split.
  - unfold hexToRgb, hex_string, JsString.slice.
    cbn [String.substring Nat.sub].
    rewrite !parseInt16_pair by assumption.
    reflexivity.
  - repeat split; try reflexivity;
      apply byte_over_255_unit, component_range.
Qed.

(** The colour [#fF80Ab], with letters of both cases: components 255/255,
    128/255 and 171/255. *)
Lemma hexToRgb_unit_components_witness :
  exists r g b : Q,
    hexToRgb "#fF80Ab" = [Some r; Some g; Some b]
    /\ r = (inject_Z 255 / inject_Z 255)%Q
    /\ g = (inject_Z 128 / inject_Z 255)%Q
    /\ b = (inject_Z 171 / inject_Z 255)%Q
    /\ (0 <= r /\ r <= 1)%Q /\ (0 <= g /\ g <= 1)%Q /\ (0 <= b /\ b <= 1)%Q.
Proof.
  exact (hexToRgb_unit_components "f" "F" "8" "0" "A" "b"
           eq_refl eq_refl eq_refl eq_refl eq_refl eq_refl).
Defined.

(* ===================================================================== *)
(** * Running instances: shape and single events *)
(* ===================================================================== *)

Lemma running_shape (m : Machine) :
  Running m ->
  exists cfg mx my px py lt fc cam r t1 t2 c p fu du geo gc w h con g rv tw,
    m = mkMachine
          (mkFG cfg mx my px py lt fc true cam (Some r) (Some t1) (Some t2)
                (Some c) (Some p) (Some fu) (Some du) geo
                (Some MeshFluid) (Some MeshDisplay))
          (mkHost gc w h [OnMouseMove true; OnMouseLeave; OnResize] 1 con g rv tw)
    /\ c <> p.
Proof.
  unfold Running, runningb.
  destruct m as [[cfg mx my px py lt fc ini cam rnd t1 t2 cur prv fm dm geo fp dp]
                 [gc w h ls raf con g rv tw]];
    cbn [this host isInitialized renderer fluidTarget1 fluidTarget2
         fluidMaterial displayMaterial currentFluidTarget previousFluidTarget
         fluidPlane displayPlane listeners animationFrames].
  intro H.
  repeat (apply andb_true_iff in H; destruct H as [H ?]).
  destruct ini; [ | discriminate ].
  destruct rnd as [r|]; [ | discriminate ].
  destruct t1 as [t1|]; [ | discriminate ].
  destruct t2 as [t2|]; [ | discriminate ].
  destruct fm as [fu|]; [ | discriminate ].
  destruct dm as [du|]; [ | discriminate ].
  destruct cur as [c|]; [ | discriminate ].
  destruct prv as [p|]; [ | discriminate ].
  destruct fp as [[|]|]; try discriminate.
  destruct dp as [[|]|]; try discriminate.
  destruct ls as [|[[|]| |] [|[[|]| |] [|[[|]| |] [|]]]]; try discriminate.
  destruct raf as [|[|]]; try discriminate.
  exists cfg, mx, my, px, py, lt, fc, cam, r, t1, t2, c, p, fu, du, geo,
         gc, w, h, con, g, rv, tw.
  split; [ reflexivity | ].
  intros ->. destruct p; discriminate.
Qed.

(** Evaluation of a method on a machine whose shape is known; the
    arithmetic of the clock and of the frame counter stays symbolic. *)
Ltac run_js := cbv -[Qgtb Qminus Qmult Qplus Qle_bool Z.add Qle Qlt app].

Ltac running_inv H :=
  let Hcp := fresh "Hcp" in
  match type of H with
  | Running ?m =>
      destruct (running_shape m H)
        as (?cfg & ?mx & ?my & ?px & ?py & ?lt & ?fc & ?cam & [? ?] & ?t1 & ?t2
            & ?c & ?p & [? ? ? ? ? ? ? ? ? ?] & [? ? ? ? ? ? ? ? ? ?]
            & ?geo & ?gc & ?w & ?h & ?con & ?g & ?rv & ?tw & -> & Hcp);
      clear H
  end.

(** One animation frame on a running instance. *)
Lemma frame_step (m : Machine) (now1 now2 : Q) :
  Running m ->
  exists m' fu du,
    dispatch (AnimationFrame now1 now2) m = Normal tt m'
    /\ Running m'
    /\ gpu (host m') =
         gpu (host m) ++
         [DrawFluid fu (currentFluidTarget (this m))
                    (fluidTarget1 (this m)) (fluidTarget2 (this m));
          DrawDisplay du None (fluidTarget1 (this m)) (fluidTarget2 (this m))]
    /\ Fluid.iPreviousFrame fu = previousFluidTarget (this m)
    /\ Display.iFluid du = currentFluidTarget (this m)
    /\ Fluid.iFrame fu = frameCount (this m)
    /\ Some (Fluid.iMouse fu) =
         (if Qgtb (now2 - lastMoveTime (this m)) 100
          then Some zero4 else pointer_quad m)
    /\ Some (Fluid.iResolution fu) =
         option_map Fluid.iResolution (fluidMaterial (this m))
    /\ Some (Display.iResolution du) =
         option_map Display.iResolution (displayMaterial (this m))
    /\ roles m' = swap_roles (roles m)
    /\ this m' =
         set_frameCount (frameCount (this m) + 1)
           (set_previousFluidTarget (currentFluidTarget (this m))
           (set_currentFluidTarget (previousFluidTarget (this m))
           (set_renderer
              (option_map (fun r => mkRenderer (r_size r) None) (renderer (this m)))
           (set_displayMaterial (Some du)
           (set_fluidMaterial (Some fu) (this m))))))
    /\ host m' = set_gpu (gpu (host m')) (host m).
Proof.
  intro H. running_inv H.
  run_js.
  destruct (Qgtb (now2 - lt) 100), c, p; try congruence;
    do 3 eexists;
    (split; [ reflexivity | ]);
    (split; [ reflexivity | ]);
    (split; [ rewrite <- app_assoc; reflexivity | ]);
    repeat split.
Qed.

(** The pointer-move listener on a running instance. *)
Lemma mousemove_step (m : Machine) (x y : Q) (rect : DOMRect) (now : Q) :
  Running m ->
  exists fu,
    fluidMaterial (this m) = Some fu
    /\ dispatch (MouseMove x y rect now) m =
       Normal tt
         (mkMachine
            (set_fluidMaterial
               (Some (Fluid.set_iMouse
                        (vec4 (x - left rect) (height rect - (y - top rect))
                              (mouseX (this m)) (mouseY (this m))) fu))
            (set_lastMoveTime now
            (set_mouseY (height rect - (y - top rect))%Q
            (set_mouseX (x - left rect)%Q
            (set_prevMouseY (mouseY (this m))
            (set_prevMouseX (mouseX (this m)) (this m)))))))
            (host m)).
Proof.
  intro H. running_inv H. eexists. split; reflexivity.
Qed.

(** The pointer-leave listener on a running instance. *)
Lemma mouseleave_step (m : Machine) :
  Running m ->
  exists fu,
    fluidMaterial (this m) = Some fu
    /\ dispatch MouseLeave m =
       Normal tt
         (mkMachine (set_fluidMaterial (Some (Fluid.set_iMouse zero4 fu)) (this m))
                    (host m)).
Proof.
  intro H. running_inv H. eexists. split; reflexivity.
Qed.

(** The resize listener on a running instance. *)
Lemma resize_step (m : Machine) (w h : Z) :
  Running m ->
  exists r fu du,
    renderer (this m) = Some r
    /\ fluidMaterial (this m) = Some fu
    /\ displayMaterial (this m) = Some du
    /\ dispatch (Resize w h) m =
       Normal tt
         (mkMachine
            (set_frameCount 0
            (set_fluidTarget2 (Some (mkTarget w h))
            (set_fluidTarget1 (Some (mkTarget w h))
            (set_displayMaterial (Some (Display.set_iResolution (vec2 w h) du))
            (set_fluidMaterial (Some (Fluid.set_iResolution (vec2 w h) fu))
            (set_renderer (Some (mkRenderer (vec2 w h) (r_target r))) (this m)))))))
            (set_innerHeight h (set_innerWidth w (host m)))).
Proof.
  intro H. running_inv H. do 3 eexists. repeat split.
Qed.

(** Every event is handled without an exception, leaves the instance
    running, swaps the roles exactly when it is a frame, and keeps
    [lastMoveTime] unless it is a pointer move. *)
Lemma dispatch_running (m : Machine) (ev : Event) :
  Running m ->
  exists m',
    dispatch ev m = Normal tt m'
    /\ Running m'
    /\ roles m' = (if is_frame ev then swap_roles (roles m) else roles m)
    /\ (is_move ev = false -> lastMoveTime (this m') = lastMoveTime (this m)).
Proof.
  intro H. destruct ev as [x y rect now | | w h | now1 now2].
  1-3: running_inv H; eexists; (split; [ reflexivity | ]);
       (split; [ destruct c, p; try congruence; reflexivity | ]);
       (split; [ reflexivity | ]);
       first [ discriminate | reflexivity ].
  destruct (frame_step m now1 now2 H)
    as (m' & fu & du & E & R & _ & _ & _ & _ & _ & _ & _ & Hr & Ht & _).
  exists m'. repeat split; try assumption.
  intros _. rewrite Ht. destruct (this m). reflexivity.
Qed.

Lemma run_cons (ev : Event) (evs : list Event) (m m1 : Machine) :
  dispatch ev m = Normal tt m1 -> run (ev :: evs) m = run evs m1.
Proof.
  intro E. unfold run; cbn [forEach]. unfold bind. rewrite E. reflexivity.
Qed.

(** Sequences of events, by induction on the sequence. *)
Lemma run_running (evs : list Event) :
  forall m, Running m ->
  exists m',
    run evs m = Normal tt m'
    /\ Running m'
    /\ roles m' = Nat.iter (frames evs) swap_roles (roles m)
    /\ (no_move evs = true -> lastMoveTime (this m') = lastMoveTime (this m)).
Proof.
  induction evs as [| ev evs IH]; intros m H.
  - exists m. repeat split; assumption.
  - destruct (dispatch_running m ev H) as (m1 & E1 & R1 & Hr1 & Hl1).
    destruct (IH m1 R1) as (m' & E & R & Hr & Hl).
    exists m'. rewrite (run_cons _ _ _ _ E1).
    split; [ exact E | split; [ exact R | split ] ].
    + rewrite Hr, Hr1. unfold frames. cbn [filter].
      destruct (is_frame ev); cbn [List.length].
      * rewrite Nat.iter_succ_r. reflexivity.
      * reflexivity.
    + unfold no_move; cbn [forallb]. intro N.
      apply andb_true_iff in N. destruct N as [N1 N2].
      rewrite (Hl N2). apply Hl1.
      destruct (is_move ev); [ discriminate | reflexivity ].
Qed.

Lemma swap_roles_involutive (r : option TargetRef * option TargetRef) :
  swap_roles (swap_roles r) = r.
Proof. destruct r; reflexivity. Qed.

(** [init] on a page that has the anchor and on which the component has
    installed nothing yet. *)
Lemma init_running (h : Host) (children : list DomNode) (now1 now2 : Q) :
  gradientCanvas h = Some children ->
  listeners h = [] ->
  animationFrames h = 0%nat ->
  exists m, init now1 now2 (boot h) = Normal tt m /\ Running m.
Proof.
  destruct h as [gc w hh ls raf con g rv tw]; cbn [gradientCanvas listeners animationFrames].
  intros -> -> ->. run_js.
  destruct (Qgtb (now2 - 0) 100); eexists; split; reflexivity.
Qed.

Lemma demo_running : Running demo.
Proof. reflexivity. Qed.

(** [a > b] decided by [Qgtb]. *)
Lemma Qgtb_true (a b : Q) : (b < a)%Q -> Qgtb a b = true.
Proof.
  intro H. unfold Qgtb. destruct (Qle_bool a b) eqn:E; [ | reflexivity ].
  apply Qle_bool_iff in E. lra.
Qed.

Lemma Qgtb_false (a b : Q) : (a <= b)%Q -> Qgtb a b = false.
Proof.
  intro H. unfold Qgtb. apply Qle_bool_iff in H. rewrite H. reflexivity.
Qed.

(* ===================================================================== *)
(** * The frame loop: ping-pong of the two render targets *)
(* ===================================================================== *)

(** C1.  On a running instance the two roles name the two different
    targets.  A frame draws the simulation pass into the current target
    with the previous target as [iPreviousFrame], then draws the display
    pass to the screen with that same current target as [iFluid], and ends
    with the roles exchanged.  Over any sequence of events the roles are
    exchanged once per frame and by nothing else; exchanging changes the
    assignment, and exchanging twice restores it. *)
Theorem ping_pong_per_frame (m : Machine) (now1 now2 : Q) (evs : list Event) :
  Running m ->
  (exists c p, roles m = (Some c, Some p) /\ c <> p)
  /\ (exists m' fu du t1 t2,
        dispatch (AnimationFrame now1 now2) m = Normal tt m'
        /\ gpu (host m') =
             gpu (host m) ++
             [DrawFluid fu (fst (roles m)) t1 t2; DrawDisplay du None t1 t2]
        /\ Fluid.iPreviousFrame fu = snd (roles m)
        /\ Display.iFluid du = fst (roles m)
        /\ roles m' = swap_roles (roles m)
        /\ frameCount (this m') = frameCount (this m) + 1)
  /\ (exists m',
        run evs m = Normal tt m'
        /\ Running m'
        /\ roles m' = Nat.iter (frames evs) swap_roles (roles m))
  /\ swap_roles (roles m) <> roles m
  /\ swap_roles (swap_roles (roles m)) = roles m.
Proof.
  intro H.
  assert (D : exists c p, roles m = (Some c, Some p) /\ c <> p).
  { destruct (running_shape m H)
      as (cfg & mx & my & px & py & lt & fc & cam & r & t1 & t2 & c & p
          & fu & du & geo & gc & w & h & con & g & rv & tw & -> & Hcp).
    exists c, p. split; [ reflexivity | exact Hcp ]. }
  split; [ exact D | ].
  split.
  - destruct (frame_step m now1 now2 H)
      as (m' & fu & du & E & _ & G & Hp & Hf & _ & _ & _ & _ & Hr & Ht & _).
    exists m', fu, du, (fluidTarget1 (this m)), (fluidTarget2 (this m)).
    repeat split; try assumption.
    rewrite Ht. destruct (this m); reflexivity.
  - split.
    + destruct (run_running evs m H) as (m' & E & R & Hr & _).
      exists m'. repeat split; assumption.
    + destruct D as (c & p & -> & Hcp). split.
      * unfold swap_roles; cbn [fst snd]. intro E. injection E as E1 E2.
        apply Hcp. symmetry. exact E1.
      * apply swap_roles_involutive.
Qed.

(** Two frames on the demo page bring the roles back. *)
Lemma ping_pong_per_frame_witness :
  exists m',
    run [AnimationFrame 16 16; AnimationFrame 32 32] demo = Normal tt m'
    /\ roles m' = roles demo.
Proof.
  destruct (ping_pong_per_frame demo 16 16
              [AnimationFrame 16 16; AnimationFrame 32 32] eq_refl)
    as (_ & _ & (m' & E & _ & R) & _ & _).
  exists m'. split; [ exact E | exact R ].
Defined.

(* ===================================================================== *)
(** * Pointer idleness *)
(* ===================================================================== *)

(** C2, as stated, fails at exactly 100 ms.  The pointer moves at clock
    reading 1000; the frame at reading 1100 comes after 100 ms without a
    move and still feeds the quad of that move. *)
Lemma idle_exactly_100ms_quad_kept :
  exists m m' fu du dst t1 t2,
    dispatch (MouseMove 100 500 (mkRect 0 0 800 600) 1000) demo = Normal tt m
    /\ (100 <= 1100 - lastMoveTime (this m))%Q
    /\ dispatch (AnimationFrame 1100 1100) m = Normal tt m'
    /\ gpu (host m') =
         gpu (host m) ++ [DrawFluid fu dst t1 t2; DrawDisplay du None t1 t2]
    /\ Fluid.iMouse fu = vec4 100 100 0 0
    /\ Fluid.iMouse fu <> zero4.
Proof.
  do 7 eexists.
  split; [ vm_compute; reflexivity | ].
  split; [ vm_compute; discriminate | ].
  split; [ vm_compute; reflexivity | ].
  split; [ vm_compute; reflexivity | ].
  split; [ reflexivity | discriminate ].
Qed.

(** C2, amended.  Once the pointer has been idle for more than 100 ms (at
    reading [t0]), whatever events other than pointer moves follow, every
    frame whose idle test reads the clock at [t0] or later feeds the zero
    quad to the simulation pass. *)
Theorem idle_quad_zero (m : Machine) (t0 : Q) (evs : list Event) (now1 now2 : Q) :
  Running m ->
  (100 < t0 - lastMoveTime (this m))%Q ->
  no_move evs = true ->
  (t0 <= now2)%Q ->
  exists m1 m2 fu du dst t1 t2,
    run evs m = Normal tt m1
    /\ dispatch (AnimationFrame now1 now2) m1 = Normal tt m2
    /\ gpu (host m2) =
         gpu (host m1) ++ [DrawFluid fu dst t1 t2; DrawDisplay du None t1 t2]
    /\ Fluid.iMouse fu = zero4.
Proof.
  intros H Hidle Hevs Hlater.
  destruct (run_running evs m H) as (m1 & E1 & R1 & _ & Hl).
  specialize (Hl Hevs).
  destruct (frame_step m1 now1 now2 R1)
    as (m2 & fu & du & E2 & _ & G & _ & _ & _ & Hq & _).
  rewrite Hl in Hq.
  rewrite Qgtb_true in Hq by lra.
  exists m1, m2, fu, du, (currentFluidTarget (this m1)),
         (fluidTarget1 (this m1)), (fluidTarget2 (this m1)).
  repeat split; try assumption.
  injection Hq as Hq. exact Hq.
Qed.

(** The pointer moves at reading 1000 and then rests; after a resize and a
    pointer leave, the frame at reading 1150 (150 ms idle) feeds zero. *)
Lemma idle_quad_zero_witness :
  exists m0 m1 m2 fu du dst t1 t2,
    dispatch (MouseMove 100 500 (mkRect 0 0 800 600) 1000) demo = Normal tt m0
    /\ run [Resize 1024 768; MouseLeave] m0 = Normal tt m1
    /\ dispatch (AnimationFrame 1150 1150) m1 = Normal tt m2
    /\ gpu (host m2) =
         gpu (host m1) ++ [DrawFluid fu dst t1 t2; DrawDisplay du None t1 t2]
    /\ Fluid.iMouse fu = zero4.
Proof.
  eexists.
  destruct (idle_quad_zero
              (match dispatch (MouseMove 100 500 (mkRect 0 0 800 600) 1000) demo with
               | Normal _ m => m
               | Throw _ => demo
               end)
              1150 [Resize 1024 768; MouseLeave] 1150 1150)
    as (m1 & m2 & fu & du & dst & t1 & t2 & E1 & E2 & G & Z).
  - reflexivity.
  - vm_compute. reflexivity.
  - reflexivity.
  - vm_compute. discriminate.
  - exists m1, m2, fu, du, dst, t1, t2.
    split; [ vm_compute; reflexivity | ].
    repeat split; assumption.
Defined.

(* ===================================================================== *)
(** * Resize *)
(* ===================================================================== *)

Lemma host_gpu_after_resize (h : Host) (w hh : Z) :
  gpu (set_innerHeight hh (set_innerWidth w h)) = gpu h.
Proof. destruct h; reflexivity. Qed.

(** C3.  The resize listener leaves both render targets at exactly the new
    window size, both [iResolution] uniforms at that size and [frameCount]
    at 0; the frame that follows draws with both targets at the new size,
    with [iFrame] 0 and the new resolution in both passes. *)
Theorem resize_reallocates (m : Machine) (w h : Z) (now1 now2 : Q) :
  Running m ->
  exists m1 m2 fu du dst,
    dispatch (Resize w h) m = Normal tt m1
    /\ fluidTarget1 (this m1) = Some (mkTarget w h)
    /\ fluidTarget2 (this m1) = Some (mkTarget w h)
    /\ option_map Fluid.iResolution (fluidMaterial (this m1)) = Some (vec2 w h)
    /\ option_map Display.iResolution (displayMaterial (this m1)) = Some (vec2 w h)
    /\ frameCount (this m1) = 0
    /\ dispatch (AnimationFrame now1 now2) m1 = Normal tt m2
    /\ gpu (host m2) =
         gpu (host m) ++
         [DrawFluid fu dst (Some (mkTarget w h)) (Some (mkTarget w h));
          DrawDisplay du None (Some (mkTarget w h)) (Some (mkTarget w h))]
    /\ Fluid.iFrame fu = 0
    /\ Fluid.iResolution fu = vec2 w h
    /\ Display.iResolution du = vec2 w h.
Proof.
  intro H.
  destruct (dispatch_running m (Resize w h) H) as (m1 & E1 & R1 & _ & _).
  destruct (resize_step m w h H) as (r & fu0 & du0 & Hr & Hf & Hd & E1').
  rewrite E1 in E1'. injection E1' as Hm1.
  destruct (frame_step m1 now1 now2 R1)
    as (m2 & fu & du & E2 & _ & G & _ & _ & Hfc & _ & Hres & Hdres & _).
  assert (T1 : fluidTarget1 (this m1) = Some (mkTarget w h))
    by (rewrite Hm1; cbn [this]; destruct (this m); reflexivity).
  assert (T2 : fluidTarget2 (this m1) = Some (mkTarget w h))
    by (rewrite Hm1; cbn [this]; destruct (this m); reflexivity).
  assert (F0 : frameCount (this m1) = 0)
    by (rewrite Hm1; cbn [this]; destruct (this m); reflexivity).
  assert (RF : option_map Fluid.iResolution (fluidMaterial (this m1))
               = Some (vec2 w h))
    by (rewrite Hm1; cbn [this]; destruct (this m), fu0; reflexivity).
  assert (RD : option_map Display.iResolution (displayMaterial (this m1))
               = Some (vec2 w h))
    by (rewrite Hm1; cbn [this]; destruct (this m), du0; reflexivity).
  assert (G0 : gpu (host m1) = gpu (host m))
    by (rewrite Hm1; cbn [host]; apply host_gpu_after_resize).
  rewrite T1, T2, G0 in G.
  rewrite RF in Hres. rewrite RD in Hdres.
  injection Hres as Hres. injection Hdres as Hdres.
  exists m1, m2, fu, du, (currentFluidTarget (this m1)).
  repeat split; try assumption.
  rewrite Hfc. exact F0.
Qed.

(** The window goes from 800 by 600 to 1024 by 768. *)
Lemma resize_reallocates_witness :
  exists m1 m2 fu du dst,
    dispatch (Resize 1024 768) demo = Normal tt m1
    /\ fluidTarget1 (this demo) = Some (mkTarget 800 600)
    /\ fluidTarget1 (this m1) = Some (mkTarget 1024 768)
    /\ fluidTarget2 (this m1) = Some (mkTarget 1024 768)
    /\ frameCount (this m1) = 0
    /\ dispatch (AnimationFrame 16 16) m1 = Normal tt m2
    /\ gpu (host m2) =
         gpu (host demo) ++
         [DrawFluid fu dst (Some (mkTarget 1024 768)) (Some (mkTarget 1024 768));
          DrawDisplay du None (Some (mkTarget 1024 768)) (Some (mkTarget 1024 768))]
    /\ Fluid.iFrame fu = 0.
Proof.
  destruct (resize_reallocates demo 1024 768 16 16 eq_refl)
    as (m1 & m2 & fu & du & dst & E1 & T1 & T2 & _ & _ & F & E2 & G & I & _).
  exists m1, m2, fu, du, dst.
  repeat split; try assumption.
Defined.

(** C9.  The resize listener changes the renderer's size, the two
    [iResolution] uniforms, the size of the two targets and [frameCount],
    and nothing else of the instance: the roles are the ones from before,
    and the frame that follows writes the target that was current and reads
    the one that was previous, with [iFrame] 0. *)
Theorem resize_keeps_roles (m : Machine) (w h : Z) (now1 now2 : Q) :
  Running m ->
  exists r fu du m1 m2 fu' du' t1 t2,
    renderer (this m) = Some r
    /\ fluidMaterial (this m) = Some fu
    /\ displayMaterial (this m) = Some du
    /\ dispatch (Resize w h) m = Normal tt m1
    /\ this m1 =
         set_frameCount 0
           (set_fluidTarget2 (Some (mkTarget w h))
           (set_fluidTarget1 (Some (mkTarget w h))
           (set_displayMaterial (Some (Display.set_iResolution (vec2 w h) du))
           (set_fluidMaterial (Some (Fluid.set_iResolution (vec2 w h) fu))
           (set_renderer (Some (mkRenderer (vec2 w h) (r_target r))) (this m))))))
    /\ host m1 = set_innerHeight h (set_innerWidth w (host m))
    /\ roles m1 = roles m
    /\ frameCount (this m1) = 0
    /\ dispatch (AnimationFrame now1 now2) m1 = Normal tt m2
    /\ gpu (host m2) =
         gpu (host m) ++
         [DrawFluid fu' (fst (roles m)) t1 t2; DrawDisplay du' None t1 t2]
    /\ Fluid.iPreviousFrame fu' = snd (roles m)
    /\ Display.iFluid du' = fst (roles m)
    /\ Fluid.iFrame fu' = 0.
Proof.
  intro H.
  destruct (dispatch_running m (Resize w h) H) as (m1 & E1 & R1 & Hroles & _).
  cbn [is_frame] in Hroles.
  destruct (resize_step m w h H) as (r & fu0 & du0 & Hr & Hf & Hd & E1').
  rewrite E1 in E1'. injection E1' as Hm1.
  destruct (frame_step m1 now1 now2 R1)
    as (m2 & fu & du & E2 & _ & G & Hp & Hc & Hfc & _).
  assert (F0 : frameCount (this m1) = 0).
  { rewrite Hm1. cbn [this]. destruct (this m); reflexivity. }
  exists r, fu0, du0, m1, m2, fu, du,
         (fluidTarget1 (this m1)), (fluidTarget2 (this m1)).
  repeat split; try assumption.
  - rewrite Hm1. reflexivity.
  - rewrite Hm1. reflexivity.
  - rewrite G. f_equal.
    + rewrite Hm1. cbn [host]. apply host_gpu_after_resize.
    + unfold roles in Hroles. injection Hroles as Hcur _.
      rewrite Hcur. reflexivity.
  - rewrite Hp. unfold roles in Hroles. injection Hroles as _ Hprv.
    rewrite Hprv. reflexivity.
  - rewrite Hc. unfold roles in Hroles. injection Hroles as Hcur _.
    rewrite Hcur. reflexivity.
  - rewrite Hfc. exact F0.
Qed.

(** After one more frame on the demo page the second target is current; a
    resize keeps it so. *)
Lemma resize_keeps_roles_witness :
  exists m1,
    roles demo = (Some Target2, Some Target1)
    /\ dispatch (Resize 1024 768) demo = Normal tt m1
    /\ roles m1 = (Some Target2, Some Target1)
    /\ frameCount (this demo) = 1
    /\ frameCount (this m1) = 0.
Proof.
  destruct (resize_keeps_roles demo 1024 768 16 16 eq_refl)
    as (r & fu & du & m1 & m2 & fu' & du' & t1 & t2
        & _ & _ & _ & E1 & _ & _ & R & F & _).
  exists m1.
  split; [ reflexivity | ].
  split; [ exact E1 | ].
  split; [ exact R | ].
  split; [ reflexivity | exact F ].
Defined.

(* ===================================================================== *)
(** * Pointer moves and pointer leave *)
(* ===================================================================== *)

Lemma running_after (m m' : Machine) (ev : Event) :
  Running m -> dispatch ev m = Normal tt m' -> Running m'.
Proof.
  intros H E. destruct (dispatch_running m ev H) as (m1 & E1 & R1 & _).
  rewrite E in E1. injection E1 as ->. exact R1.
Qed.

(** What the pointer-move listener leaves in the instance. *)
Lemma mousemove_fields (m m' : Machine) (x y : Q) (rect : DOMRect) (now : Q) :
  Running m ->
  dispatch (MouseMove x y rect now) m = Normal tt m' ->
  prevMouseX (this m') = mouseX (this m)
  /\ prevMouseY (this m') = mouseY (this m)
  /\ mouseX (this m') = (x - left rect)%Q
  /\ mouseY (this m') = (height rect - (y - top rect))%Q
  /\ lastMoveTime (this m') = now
  /\ pointer_quad m' =
       Some (vec4 (x - left rect) (height rect - (y - top rect))
                  (mouseX (this m)) (mouseY (this m)))
  /\ gpu (host m') = gpu (host m).
Proof.
  intros H E.
  destruct (mousemove_step m x y rect now H) as (fu & Hf & E').
  rewrite E in E'. injection E' as ->.
  unfold pointer_quad; cbn [this host].
  destruct (this m), fu. repeat split.
Qed.

(** C5, as stated, fails when the next tick comes late.  The pointer
    moves to (100, 100) at reading 1000 and to (150, 120) at reading 1040,
    within 50 ms; the stored quad is (150, 120, 100, 100), but the next
    frame runs at reading 1141, more than 100 ms after the second move, and
    feeds the zero quad. *)
Lemma late_tick_feeds_zero_quad :
  exists m1 m2 m3 fu du dst t1 t2,
    dispatch (MouseMove 100 500 (mkRect 0 0 800 600) 1000) demo = Normal tt m1
    /\ dispatch (MouseMove 150 480 (mkRect 0 0 800 600) 1040) m1 = Normal tt m2
    /\ pointer_quad m2 = Some (vec4 150 120 100 100)
    /\ dispatch (AnimationFrame 1141 1141) m2 = Normal tt m3
    /\ gpu (host m3) =
         gpu (host m2) ++ [DrawFluid fu dst t1 t2; DrawDisplay du None t1 t2]
    /\ Fluid.iMouse fu = zero4
    /\ Fluid.iMouse fu <> vec4 150 120 100 100.
Proof.
  do 8 eexists.
  split; [ vm_compute; reflexivity | ].
  split; [ vm_compute; reflexivity | ].
  split; [ vm_compute; reflexivity | ].
  split; [ vm_compute; reflexivity | ].
  split; [ vm_compute; reflexivity | ].
  split; [ reflexivity | discriminate ].
Qed.

(** C5, amended.  The pointer-move listener copies the stored position
    into [prevMouseX], [prevMouseY] before it stores the new one, computes
    the new one relative to the canvas rectangle with the vertical axis
    flipped ([clientX - left], [height - (clientY - top)]), and stamps
    [lastMoveTime].  After two moves, the next frame feeds the quad (second
    position, first position) to the simulation pass when its idle test
    reads the clock at most 100 ms after the second move, and the zero
    quad when it reads it later. *)
Theorem pointer_move_history (m : Machine)
    (x1 y1 : Q) (r1 : DOMRect) (n1 : Q)
    (x2 y2 : Q) (r2 : DOMRect) (n2 : Q) (now1 now2 : Q) :
  Running m ->
  exists m1 m2 m3 fu du dst t1 t2,
    dispatch (MouseMove x1 y1 r1 n1) m = Normal tt m1
    /\ prevMouseX (this m1) = mouseX (this m)
    /\ prevMouseY (this m1) = mouseY (this m)
    /\ mouseX (this m1) = (x1 - left r1)%Q
    /\ mouseY (this m1) = (height r1 - (y1 - top r1))%Q
    /\ lastMoveTime (this m1) = n1
    /\ dispatch (MouseMove x2 y2 r2 n2) m1 = Normal tt m2
    /\ dispatch (AnimationFrame now1 now2) m2 = Normal tt m3
    /\ gpu (host m3) =
         gpu (host m) ++ [DrawFluid fu dst t1 t2; DrawDisplay du None t1 t2]
    /\ ((now2 - n2 <= 100)%Q ->
        Fluid.iMouse fu =
          vec4 (x2 - left r2) (height r2 - (y2 - top r2))
               (x1 - left r1) (height r1 - (y1 - top r1)))
    /\ ((100 < now2 - n2)%Q -> Fluid.iMouse fu = zero4).
Proof.
  intros H.
  destruct (dispatch_running m (MouseMove x1 y1 r1 n1) H) as (m1 & E1 & R1 & _).
  destruct (mousemove_fields m m1 x1 y1 r1 n1 H E1)
    as (P1 & P2 & P3 & P4 & P5 & _ & G1).
  destruct (dispatch_running m1 (MouseMove x2 y2 r2 n2) R1) as (m2 & E2 & R2 & _).
  destruct (mousemove_fields m1 m2 x2 y2 r2 n2 R1 E2)
    as (_ & _ & _ & _ & L2 & Q2 & G2).
  destruct (frame_step m2 now1 now2 R2)
    as (m3 & fu & du & E3 & _ & G3 & _ & _ & _ & Hq & _).
  rewrite L2 in Hq.
  rewrite G2, G1 in G3.
  exists m1, m2, m3, fu, du, (currentFluidTarget (this m2)),
         (fluidTarget1 (this m2)), (fluidTarget2 (this m2)).
  do 9 (split; [ assumption | ]).
  split.
  - intro Hsoon. rewrite Qgtb_false, Q2, P3, P4 in Hq by exact Hsoon.
    injection Hq as Hq. exact Hq.
  - intro Hlate. rewrite Qgtb_true in Hq by exact Hlate.
    injection Hq as Hq. exact Hq.
Qed.

(** The canvas fills an 800 by 600 window.  The pointer moves to the window
    position (100, 500), which is (100, 100) in the flipped canvas space,
    at reading 1000 and to (150, 480), which is (150, 120), at reading
    1040; the frame at reading 1050 feeds (150, 120, 100, 100). *)
Lemma pointer_move_history_witness :
  exists m1 m2 m3 fu du dst t1 t2,
    dispatch (MouseMove 100 500 (mkRect 0 0 800 600) 1000) demo = Normal tt m1
    /\ dispatch (MouseMove 150 480 (mkRect 0 0 800 600) 1040) m1 = Normal tt m2
    /\ dispatch (AnimationFrame 1050 1050) m2 = Normal tt m3
    /\ gpu (host m3) =
         gpu (host demo) ++ [DrawFluid fu dst t1 t2; DrawDisplay du None t1 t2]
    /\ Fluid.iMouse fu = vec4 150 120 100 100.
Proof.
  assert (S : (1050 - 1040 <= 100)%Q) by (vm_compute; discriminate).
  destruct (pointer_move_history demo
              100 500 (mkRect 0 0 800 600) 1000
              150 480 (mkRect 0 0 800 600) 1040 1050 1050 eq_refl)
    as (m1 & m2 & m3 & fu & du & dst & t1 & t2
        & E1 & _ & _ & _ & _ & _ & E2 & E3 & G & Q & _).
  exists m1, m2, m3, fu, du, dst, t1, t2.
  split; [ exact E1 | ].
  split; [ exact E2 | ].
  split; [ exact E3 | ].
  split; [ exact G | exact (Q S) ].
Defined.

(** C7.  The pointer-leave listener sets the quad to zero at once: the
    frame that follows feeds the zero quad whatever the clock reads, also
    within 100 ms of the last move. *)
Theorem pointer_leave_zeroes_quad (m : Machine) (now1 now2 : Q) :
  Running m ->
  exists m1 m2 fu du dst t1 t2,
    dispatch MouseLeave m = Normal tt m1
    /\ pointer_quad m1 = Some zero4
    /\ dispatch (AnimationFrame now1 now2) m1 = Normal tt m2
    /\ gpu (host m2) =
         gpu (host m) ++ [DrawFluid fu dst t1 t2; DrawDisplay du None t1 t2]
    /\ Fluid.iMouse fu = zero4.
Proof.
  intro H.
  destruct (dispatch_running m MouseLeave H) as (m1 & E1 & R1 & _).
  destruct (mouseleave_step m H) as (fu0 & Hf & E1').
  rewrite E1 in E1'. injection E1' as Hm1.
  assert (Q1 : pointer_quad m1 = Some zero4).
  { rewrite Hm1. unfold pointer_quad; cbn [this].
    destruct (this m), fu0; reflexivity. }
  destruct (frame_step m1 now1 now2 R1)
    as (m2 & fu & du & E2 & _ & G & _ & _ & _ & Hq & _).
  rewrite Q1 in Hq.
  assert (Hz : Some (Fluid.iMouse fu) = Some zero4)
    by (destruct (Qgtb (now2 - lastMoveTime (this m1)) 100); exact Hq).
  injection Hz as Hz.
  assert (G0 : gpu (host m1) = gpu (host m)) by (rewrite Hm1; reflexivity).
  rewrite G0 in G.
  exists m1, m2, fu, du, (currentFluidTarget (this m1)),
         (fluidTarget1 (this m1)), (fluidTarget2 (this m1)).
  repeat split; assumption.
Qed.

(** The pointer moves at reading 1000 and leaves; the frame at reading
    1010, 10 ms after the move, feeds the zero quad. *)
Lemma pointer_leave_zeroes_quad_witness :
  exists m0 m1 m2 fu du dst t1 t2,
    dispatch (MouseMove 100 500 (mkRect 0 0 800 600) 1000) demo = Normal tt m0
    /\ pointer_quad m0 = Some (vec4 100 100 0 0)
    /\ dispatch MouseLeave m0 = Normal tt m1
    /\ dispatch (AnimationFrame 1010 1010) m1 = Normal tt m2
    /\ gpu (host m2) =
         gpu (host m0) ++ [DrawFluid fu dst t1 t2; DrawDisplay du None t1 t2]
    /\ Fluid.iMouse fu = zero4.
Proof.
  eexists.
  destruct (pointer_leave_zeroes_quad
              (match dispatch (MouseMove 100 500 (mkRect 0 0 800 600) 1000) demo with
               | Normal _ m => m
               | Throw _ => demo
               end) 1010 1010 eq_refl)
    as (m1 & m2 & fu & du & dst & t1 & t2 & E1 & _ & E2 & G & Z).
  exists m1, m2, fu, du, dst, t1, t2.
  split; [ vm_compute; reflexivity | ].
  split; [ reflexivity | ].
  split; [ exact E1 | ].
  split; [ exact E2 | ].
  split; [ exact G | exact Z ].
Defined.

(** C10.  The pointer-leave listener changes the [iMouse] uniform and
    nothing else: the instance is the one from before with [iMouse] at
    zero, the host is untouched, so [mouseX], [mouseY], [prevMouseX],
    [prevMouseY] and [lastMoveTime] keep their values; the next pointer
    move puts the position stored before the leave into the second half of
    the quad. *)
Theorem pointer_leave_keeps_position (m : Machine)
    (x y : Q) (rect : DOMRect) (now : Q) :
  Running m ->
  exists fu m1 m2,
    fluidMaterial (this m) = Some fu
    /\ dispatch MouseLeave m = Normal tt m1
    /\ this m1 = set_fluidMaterial (Some (Fluid.set_iMouse zero4 fu)) (this m)
    /\ host m1 = host m
    /\ mouseX (this m1) = mouseX (this m)
    /\ mouseY (this m1) = mouseY (this m)
    /\ prevMouseX (this m1) = prevMouseX (this m)
    /\ prevMouseY (this m1) = prevMouseY (this m)
    /\ lastMoveTime (this m1) = lastMoveTime (this m)
    /\ dispatch (MouseMove x y rect now) m1 = Normal tt m2
    /\ pointer_quad m2 =
         Some (vec4 (x - left rect) (height rect - (y - top rect))
                    (mouseX (this m)) (mouseY (this m))).
Proof.
  intro H.
  destruct (dispatch_running m MouseLeave H) as (m1 & E1 & R1 & _).
  destruct (mouseleave_step m H) as (fu & Hf & E1').
  rewrite E1 in E1'. injection E1' as Hm1.
  destruct (dispatch_running m1 (MouseMove x y rect now) R1) as (m2 & E2 & _).
  destruct (mousemove_fields m1 m2 x y rect now R1 E2)
    as (_ & _ & _ & _ & _ & Q2 & _).
  assert (X : mouseX (this m1) = mouseX (this m))
    by (rewrite Hm1; cbn [this]; destruct (this m); reflexivity).
  assert (Y : mouseY (this m1) = mouseY (this m))
    by (rewrite Hm1; cbn [this]; destruct (this m); reflexivity).
  rewrite X, Y in Q2.
  exists fu, m1, m2.
  repeat split; try assumption;
    rewrite Hm1; cbn [this host]; try reflexivity;
    destruct (this m); reflexivity.
Qed.

(** The pointer is at (100, 100) when it leaves; it re-enters at (150, 120)
    and the quad is (150, 120, 100, 100). *)
Lemma pointer_leave_keeps_position_witness :
  exists m0 m1 m2,
    dispatch (MouseMove 100 500 (mkRect 0 0 800 600) 1000) demo = Normal tt m0
    /\ dispatch MouseLeave m0 = Normal tt m1
    /\ pointer_quad m1 = Some zero4
    /\ dispatch (MouseMove 150 480 (mkRect 0 0 800 600) 5000) m1 = Normal tt m2
    /\ pointer_quad m2 = Some (vec4 150 120 100 100).
Proof.
  eexists.
  destruct (pointer_leave_keeps_position
              (match dispatch (MouseMove 100 500 (mkRect 0 0 800 600) 1000) demo with
               | Normal _ m => m
               | Throw _ => demo
               end) 150 480 (mkRect 0 0 800 600) 5000 eq_refl)
    as (fu & m1 & m2 & _ & E1 & T & _ & _ & _ & _ & _ & _ & E2 & Q2).
  exists m1, m2.
  split; [ vm_compute; reflexivity | ].
  split; [ exact E1 | ].
  split; [ | split; [ exact E2 | exact Q2 ] ].
  unfold pointer_quad. rewrite T. destruct fu. reflexivity.
Defined.

(* ===================================================================== *)
(** * Initialisation *)
(* ===================================================================== *)

(** The guard [if (this.isInitialized) return;]. *)
Lemma init_guard (m : Machine) (now1 now2 : Q) :
  isInitialized (this m) = true -> init now1 now2 m = Normal tt m.
Proof.
  intro H. unfold init, bind, field, gets. rewrite H. reflexivity.
Qed.

Lemma running_initialized (m : Machine) :
  Running m -> isInitialized (this m) = true.
Proof.
  intro H.
  destruct (running_shape m H)
    as (cfg & mx & my & px & py & lt & fc & cam & r & t1 & t2 & c & p
        & fu & du & geo & gc & w & h & con & g & rv & tw & -> & _).
  reflexivity.
Qed.

(** C4, as stated, fails for [FluidGradient.init]: on a page without the
    anchor it returns and leaves everything as it was, the console
    included; nothing is logged. *)
Lemma missing_canvas_logs_nothing :
  let m := boot (fresh_host None 800 600) in
  init 0 0 m = Normal tt m
  /\ ~ (exists m' msg,
          init 0 0 m = Normal tt m'
          /\ console (host m') = console (host m) ++ [msg]).
Proof.
  split; [ reflexivity | ].
  intros (m' & msg & E & C).
  vm_compute in E. injection E as <-.
  vm_compute in C. discriminate C.
Qed.

(** C4, amended.  When the anchor is absent, both [init] methods return
    without an exception and set nothing up.  [FluidGradient.init] leaves
    the instance and the host exactly as they were (so [isInitialized]
    keeps its value, no listener, no frame callback, no draw, no log);
    [PreloaderAnimation.init] leaves everything as it was except for one
    line on the console. *)
Theorem missing_anchor_aborts (m : Machine) (pm : Preloader.PMachine)
    (now1 now2 : Q) :
  gradientCanvas (host m) = None ->
  Preloader.preloader (Preloader.self pm) = false ->
  init now1 now2 m = Normal tt m
  /\ Preloader.init pm =
       Normal tt
         (Preloader.mkPMachine (Preloader.self pm)
            (set_console
               (console (Preloader.phost pm) ++ ["Preloader element not found"%string])
               (Preloader.phost pm))).
Proof.
  intros Hc Hp. split.
  - unfold init, bind, field, window, gets.
    destruct (isInitialized (this m)); [ reflexivity | ].
    rewrite Hc. reflexivity.
  - unfold Preloader.init, bind, gets. rewrite Hp. reflexivity.
Qed.

(** A page with neither anchor: the gradient stays uninitialised and the
    preloader logs its message. *)
Lemma missing_anchor_aborts_witness :
  let m := boot (fresh_host None 800 600) in
  let pm := Preloader.mkPMachine (Preloader.mkPA false false)
                                 (fresh_host None 800 600) in
  init 0 0 m = Normal tt m
  /\ isInitialized (this m) = false
  /\ Preloader.init pm =
       Normal tt
         (Preloader.mkPMachine (Preloader.mkPA false false)
            (mkHost None 800 600 [] 0
                    ["Preloader element not found"%string] [] 3 [])).
Proof.
  intros m pm.
  destruct (missing_anchor_aborts m pm 0 0 eq_refl eq_refl) as (E & P).
  split; [ exact E | ].
  split; [ reflexivity | exact P ].
Defined.

(** C8.  On a page with the anchor, [init] takes the instance from
    uninitialised to running and sets [isInitialized]; from then on,
    directly afterwards or after any sequence of events, a call of [init]
    returns with the instance and the host exactly as they were. *)
Theorem init_only_once (h : Host) (children : list DomNode)
    (now1 now2 : Q) (evs : list Event) (a b : Q) :
  gradientCanvas h = Some children ->
  listeners h = [] ->
  animationFrames h = 0%nat ->
  exists m1 m2,
    isInitialized (this (boot h)) = false
    /\ init now1 now2 (boot h) = Normal tt m1
    /\ isInitialized (this m1) = true
    /\ init a b m1 = Normal tt m1
    /\ run evs m1 = Normal tt m2
    /\ isInitialized (this m2) = true
    /\ init a b m2 = Normal tt m2.
Proof.
  intros Hc Hl Hf.
  destruct (init_running h children now1 now2 Hc Hl Hf) as (m1 & E1 & R1).
  destruct (run_running evs m1 R1) as (m2 & E2 & R2 & _).
  exists m1, m2.
  split; [ reflexivity | ].
  split; [ exact E1 | ].
  split; [ apply running_initialized; exact R1 | ].
  split; [ apply init_guard, running_initialized; exact R1 | ].
  split; [ exact E2 | ].
  split; [ apply running_initialized; exact R2 | ].
  apply init_guard, running_initialized; exact R2.
Qed.

(** The demo page: a second [init] after a move, a resize and a frame
    changes nothing. *)
Lemma init_only_once_witness :
  exists m1 m2,
    init 0 0 (boot demo_page) = Normal tt m1
    /\ listeners (host m1) = [OnMouseMove true; OnMouseLeave; OnResize]
    /\ run [MouseMove 100 500 (mkRect 0 0 800 600) 1000; Resize 1024 768;
            AnimationFrame 1016 1016] m1 = Normal tt m2
    /\ init 2000 2000 m2 = Normal tt m2.
Proof.
  destruct (init_only_once demo_page [] 0 0
              [MouseMove 100 500 (mkRect 0 0 800 600) 1000; Resize 1024 768;
               AnimationFrame 1016 1016] 2000 2000 eq_refl eq_refl eq_refl)
    as (m1 & m2 & _ & E1 & _ & _ & E2 & _ & E3).
  exists m1, m2.
  split; [ exact E1 | ].
  split; [ | split; [ exact E2 | exact E3 ] ].
  vm_compute in E1. injection E1 as <-. reflexivity.
Defined.

(* ===================================================================== *)
(** * Colours: every input of [hexToRgb] *)
(* ===================================================================== *)

Lemma all_ascii_complete (c : ascii) : In c all_ascii.
Proof.
  unfold all_ascii. apply in_map_iff. exists (nat_of_ascii c).
  split; [ apply ascii_nat_embedding | ].
  apply in_seq. pose proof (nat_ascii_bounded c). lia.
Qed.

Lemma parseInt16_all_pairs :
  forallb (fun a => forallb (fun b =>
    byte_or_nan (JsString.parseInt16 (String a (String b EmptyString))))
    all_ascii) all_ascii = true.
Proof. vm_compute. reflexivity. Qed.

Lemma parseInt16_all_singles :
  forallb (fun a => byte_or_nan (JsString.parseInt16 (String a EmptyString)))
          all_ascii = true.
Proof. vm_compute. reflexivity. Qed.

Lemma substring_length_le (n m : nat) (s : string) :
  (String.length (String.substring n m s) <= m)%nat.
Proof.
  revert n m. induction s as [| c s IH]; intros [| n] [| m]; cbn; try lia.
  - specialize (IH 0%nat m). lia.
  - apply (IH n 0%nat).
  - apply (IH n (S m)).
Qed.

(** [parseInt] on at most two characters. *)
Lemma parseInt16_short (s : string) :
  (String.length s <= 2)%nat -> byte_or_nan (JsString.parseInt16 s) = true.
Proof.
  destruct s as [| a [| b [| c s]]]; cbn [String.length]; intro H.
  - reflexivity.
  - pose proof parseInt16_all_singles as A.
    rewrite forallb_forall in A. apply A, all_ascii_complete.
  - pose proof parseInt16_all_pairs as A.
    rewrite forallb_forall in A.
    specialize (A a (all_ascii_complete a)).
    rewrite forallb_forall in A. apply A, all_ascii_complete.
  - lia.
Qed.

Lemma num_div_255_component (o : option Z) :
  byte_or_nan o = true -> component_or_nan (num_div o 255).
Proof.
  destruct o as [v |]; cbn; [ | trivial ].
  intro H. apply andb_true_iff in H. destruct H as [L U].
  apply Z.leb_le in L, U.
  unfold Qle, Qdiv, Qmult, Qinv, Qopp, inject_Z; cbn. lia.
Qed.

(** X1.  Whatever the string, [hexToRgb] returns exactly three components
    and each is [NaN] or lies between -1/17 and 1; the lower bound is
    reached (on [#-f]), so a malformed colour can give a negative
    component. *)
Theorem hexToRgb_any_string (hex : string) :
  (exists r g b : option Q,
     hexToRgb hex = [r; g; b]
     /\ component_or_nan r /\ component_or_nan g /\ component_or_nan b)
  /\ (exists q, hexToRgb "#-f" = [Some q; None; None] /\ (q == - (1 # 17))%Q).
Proof.
  split.
  - unfold hexToRgb, JsString.slice. do 3 eexists.
    split; [ reflexivity | ].
    repeat split; apply num_div_255_component, parseInt16_short,
      substring_length_le.
  - eexists. split; [ vm_compute; reflexivity | reflexivity ].
Qed.

Lemma substring_of_window (s : string) :
  String.substring 1 2 s = String.substring 0 2 (String.substring 1 6 s)
  /\ String.substring 3 2 s = String.substring 2 2 (String.substring 1 6 s)
  /\ String.substring 5 2 s = String.substring 4 2 (String.substring 1 6 s).
Proof.
  destruct s as [| c0 [| c1 [| c2 [| c3 [| c4 [| c5 [| c6 [| c7 s]]]]]]]];
    repeat split; reflexivity.
Qed.

(** X2.  [hexToRgb] reads the characters at positions 1 to 6 and nothing
    else: two strings with the same [slice(1, 7)] give the same colour,
    whatever their first character (a missing [#] is not noticed) and
    whatever follows the sixth digit (an alpha pair is ignored). *)
Theorem hexToRgb_reads_window (hex hex' : string) :
  JsString.slice hex 1 7 = JsString.slice hex' 1 7 ->
  hexToRgb hex = hexToRgb hex'.
Proof.
  unfold hexToRgb, JsString.slice. cbn [Nat.sub]. intro W.
  destruct (substring_of_window hex) as (A & B & C).
  destruct (substring_of_window hex') as (A' & B' & C').
  rewrite A, B, C, A', B', C', W. reflexivity.
Qed.

Lemma hexToRgb_reads_window_witness :
  hexToRgb "#ff8000" = hexToRgb "xff8000cc".
Proof. exact (hexToRgb_reads_window "#ff8000" "xff8000cc" eq_refl). Defined.

Lemma parseInt16_single (c : ascii) :
  JsString.is_hex_digit c = true ->
  JsString.parseInt16 (String c EmptyString) = Some (digit c).
Proof.
  intro H. apply is_hex_digit_alphabet in H.
  unfold hex_alphabet in H; simpl in H.
  repeat (destruct H as [<- | H]; [ reflexivity | ]). contradiction.
Qed.

(** X3.  The three-digit shorthand [#RGB] is not expanded: red is read
    from the first two digits, green from the third alone, and blue is
    [NaN]. *)
Theorem hexToRgb_shorthand (c1 c2 c3 : ascii) :
  JsString.is_hex_digit c1 = true ->
  JsString.is_hex_digit c2 = true ->
  JsString.is_hex_digit c3 = true ->
  hexToRgb (String "#" (String c1 (String c2 (String c3 EmptyString)))) =
    [Some (inject_Z (component c1 c2) / inject_Z 255)%Q;
     Some (inject_Z (digit c3) / inject_Z 255)%Q;
     None].
Proof.
  intros H1 H2 H3. unfold hexToRgb, JsString.slice.
  cbn [String.substring Nat.sub].
  rewrite parseInt16_pair, parseInt16_single by assumption.
  reflexivity.
Qed.

Lemma hexToRgb_shorthand_witness :
  hexToRgb "#fa3" =
    [Some (inject_Z 250 / inject_Z 255)%Q; Some (inject_Z 3 / inject_Z 255)%Q; None].
Proof. exact (hexToRgb_shorthand "f" "a" "3" eq_refl eq_refl eq_refl). Defined.





(* ===================================================================== *)
(** * Sessions *)
(* ===================================================================== *)

Lemma session_cons (a : Action) (acts : list Action) (m m1 : Machine) :
  act a m = Normal tt m1 -> session (a :: acts) m = session acts m1.
Proof.
  intro E. unfold session; cbn [forEach]. unfold bind. rewrite E. reflexivity.
Qed.

(** An event on a pristine machine finds no listener and no scheduled
    frame. *)
Lemma dispatch_pristine (m : Machine) (ev : Event) :
  Pristine m ->
  exists m',
    dispatch ev m = Normal tt m'
    /\ Pristine m'
    /\ has_canvas (host m') = has_canvas (host m).
Proof.
  destruct m as [fg [gc w h ls raf con g rv tw]].
  intros (Hfg & Hls & Hraf & Hg); cbn in Hfg, Hls, Hraf, Hg; subst.
  destruct ev; eexists; (split; [ reflexivity | ]);
    (split; [ repeat split | reflexivity ]).
Qed.

Lemma dispatch_canvas (m m' : Machine) (ev : Event) :
  Running m -> dispatch ev m = Normal tt m' ->
  has_canvas (host m') = has_canvas (host m).
Proof.
  intros H E. destruct ev as [x y rect now | | w h | now1 now2].
  - destruct (mousemove_step m x y rect now H) as (fu & _ & E').
    rewrite E in E'. injection E' as ->. reflexivity.
  - destruct (mouseleave_step m H) as (fu & _ & E').
    rewrite E in E'. injection E' as ->. reflexivity.
  - destruct (resize_step m w h H) as (r & fu & du & _ & _ & _ & E').
    rewrite E in E'. injection E' as ->. cbn [host].
    destruct (host m); reflexivity.
  - destruct (frame_step m now1 now2 H)
      as (m2 & fu & du & E' & _ & _ & _ & _ & _ & _ & _ & _ & _ & _ & Hh).
    rewrite E in E'. injection E' as ->. rewrite Hh.
    destruct (host m); reflexivity.
Qed.

(** [init] on a pristine machine: nothing without the anchor, a running
    instance with it. *)
Lemma init_pristine (m : Machine) (now1 now2 : Q) :
  Pristine m ->
  exists m',
    init now1 now2 m = Normal tt m'
    /\ has_canvas (host m') = has_canvas (host m)
    /\ (if has_canvas (host m) then Running m' else m' = m).
Proof.
  destruct m as [fg [gc w h ls raf con g rv tw]].
  intros (Hfg & Hls & Hraf & Hg); cbn in Hfg, Hls, Hraf, Hg; subst.
  destruct gc as [children |].
  - run_js. destruct (Qgtb (now2 - 0) 100); eexists;
      (split; [ reflexivity | split; reflexivity ]).
  - eexists. split; [ reflexivity | split; reflexivity ].
Qed.

Section SessionInvariant.

Variable I : Machine -> Prop.
Variable allowed : Event -> bool.

Hypothesis init_case :
  forall (m m' : Machine) (now1 now2 : Q),
    Pristine m -> init now1 now2 m = Normal tt m' -> Running m' -> I m'.

Hypothesis step_case :
  forall (m m' : Machine) (ev : Event),
    allowed ev = true -> Running m -> I m ->
    dispatch ev m = Normal tt m' -> I m'.

(** A session never raises an exception, and it leaves the machine
    pristine or running with the invariant. *)
Lemma session_stage (acts : list Action) :
  forall m,
    Pristine m \/ (Running m /\ I m) ->
    forallb (delivers allowed) acts = true ->
    exists m',
      session acts m = Normal tt m'
      /\ (Pristine m' \/ (Running m' /\ I m')).
Proof.
  induction acts as [| a acts IH]; intros m St Hall.
  - exists m. split; [ reflexivity | exact St ].
  - cbn [forallb] in Hall. apply andb_true_iff in Hall.
    destruct Hall as [Ha Hall].
    assert (Step : exists m1, act a m = Normal tt m1
                              /\ (Pristine m1 \/ (Running m1 /\ I m1))).
    { destruct St as [P | [R Inv]].
      - destruct a as [now1 now2 | ev]; cbn [act].
        + destruct (init_pristine m now1 now2 P) as (m1 & E & _ & C).
          exists m1. split; [ exact E | ].
          destruct (has_canvas (host m)).
          * right. split; [ exact C | ]. exact (init_case m m1 now1 now2 P E C).
          * left. rewrite C. exact P.
        + destruct (dispatch_pristine m ev P) as (m1 & E & P1 & _).
          exists m1. split; [ exact E | left; exact P1 ].
      - destruct a as [now1 now2 | ev]; cbn [act].
        + exists m. split; [ apply init_guard, running_initialized, R | ].
          right. split; assumption.
        + destruct (dispatch_running m ev R) as (m1 & E & R1 & _).
          exists m1. split; [ exact E | ]. right. split; [ exact R1 | ].
          exact (step_case m m1 ev Ha R Inv E). }
    destruct Step as (m1 & E1 & St1).
    destruct (IH m1 St1 Hall) as (m' & E & St').
    exists m'. rewrite (session_cons a acts m m1 E1). split; assumption.
Qed.

End SessionInvariant.


Lemma delivers_all (acts : list Action) :
  forallb (delivers (fun _ => true)) acts = true.
Proof. induction acts as [| [? ? | ?] acts IH]; cbn; auto. Qed.

Lemma session_running (acts : list Action) :
  forall m, Running m ->
  exists m', session acts m = Normal tt m' /\ Running m'.
Proof.
  induction acts as [| a acts IH]; intros m R.
  - exists m. split; [ reflexivity | exact R ].
  - assert (Step : exists m1, act a m = Normal tt m1 /\ Running m1).
    { destruct a as [now1 now2 | ev]; cbn [act].
      - exists m. split; [ apply init_guard, running_initialized, R | exact R ].
      - destruct (dispatch_running m ev R) as (m1 & E & R1 & _).
        exists m1. split; assumption. }
    destruct Step as (m1 & E1 & R1).
    destruct (IH m1 R1) as (m' & E & R').
    exists m'. rewrite (session_cons a acts m m1 E1). split; assumption.
Qed.

Lemma session_outcome (acts : list Action) :
  forall m, Pristine m ->
  exists m',
    session acts m = Normal tt m'
    /\ (if has_canvas (host m) && existsb is_call acts
        then Running m' else Pristine m').
Proof.
  induction acts as [| a acts IH]; intros m P.
  - exists m. split; [ reflexivity | ].
    cbn [existsb]. rewrite andb_false_r. exact P.
  - destruct a as [now1 now2 | ev].
    + destruct (init_pristine m now1 now2 P) as (m1 & E1 & Hc & C).
      rewrite (session_cons (CallInit now1 now2) acts m m1 E1).
      cbn [existsb is_call orb].
      destruct (has_canvas (host m)) eqn:Hcan; cbn [andb].
      * apply session_running. exact C.
      * subst m1. destruct (IH m P) as (m' & E & St).
        rewrite Hcan in St. exists m'. split; assumption.
    + destruct (dispatch_pristine m ev P) as (m1 & E1 & P1 & Hc).
      rewrite (session_cons (Deliver ev) acts m m1 E1).
      cbn [existsb is_call orb].
      rewrite <- Hc. apply IH. exact P1.
Qed.

(** X4.  From a pristine machine, any interleaving of [init] calls and
    browser events ends without an exception.  With the anchor on the
    page, the instance is running (one listener of each kind, one frame
    callback pending) as soon as [init] has been called once, however
    often it is called; before that, and for ever when the anchor is
    missing, it is pristine: nothing installed, nothing drawn. *)
Theorem session_lifecycle (acts : list Action) (m : Machine) :
  Pristine m ->
  exists m',
    session acts m = Normal tt m'
    /\ (if has_canvas (host m) && existsb is_call acts
        then Running m' else Pristine m').
Proof. apply session_outcome. Qed.

Lemma demo_page_pristine : Pristine (boot demo_page).
Proof. repeat split. Qed.

(** Events before the first [init] are lost; [init] is called three
    times and the listeners are there once. *)
Lemma session_lifecycle_witness :
  exists m',
    session [Deliver (MouseMove 10 10 (mkRect 0 0 800 600) 5);
             CallInit 100 100; Deliver (AnimationFrame 116 116);
             CallInit 200 200; CallInit 300 300] (boot demo_page)
    = Normal tt m'
    /\ listeners (host m') = [OnMouseMove true; OnMouseLeave; OnResize]
    /\ animationFrames (host m') = 1%nat.
Proof.
  destruct (session_lifecycle
              [Deliver (MouseMove 10 10 (mkRect 0 0 800 600) 5);
               CallInit 100 100; Deliver (AnimationFrame 116 116);
               CallInit 200 200; CallInit 300 300] (boot demo_page)
              (conj eq_refl (conj eq_refl (conj eq_refl eq_refl))))
    as (m' & E & R).
  exists m'. split; [ exact E | ].
  vm_compute in E. injection E as <-. split; reflexivity.
Defined.

Lemma pristine_not_running (m : Machine) : Pristine m -> ~ Running m.
Proof.
  intros (Hfg & _) R. apply running_initialized in R.
  rewrite Hfg in R. discriminate R.
Qed.

Lemma dispatch_gpu (m m' : Machine) (ev : Event) :
  Running m -> is_frame ev = false ->
  dispatch ev m = Normal tt m' ->
  gpu (host m') = gpu (host m).
Proof.
  intros H F E. destruct ev as [x y rect now | | w h | now1 now2];
    try discriminate F.
  - destruct (mousemove_step m x y rect now H) as (fu & _ & E').
    rewrite E in E'. injection E' as ->. reflexivity.
  - destruct (mouseleave_step m H) as (fu & _ & E').
    rewrite E in E'. injection E' as ->. reflexivity.
  - destruct (resize_step m w h H) as (r & fu & du & _ & _ & _ & E').
    rewrite E in E'. injection E' as ->. apply host_gpu_after_resize.
Qed.

Lemma running_roles (m : Machine) :
  Running m -> exists c p, roles m = (Some c, Some p) /\ c <> p.
Proof.
  intro H.
  destruct (running_shape m H)
    as (cfg & mx & my & px & py & lt & fc & cam & r & t1 & t2 & c & p
        & fu & du & geo & gc & w & h & con & g & rv & tw & -> & Hcp).
  exists c, p. split; [ reflexivity | exact Hcp ].
Qed.

(* ===================================================================== *)
(** * Invariants of a session *)
(* ===================================================================== *)

(** [init] on a pristine machine, when it leaves a running one. *)
Ltac init_case_tac :=
  let m := fresh "m" in
  let m' := fresh "m'" in
  intros m m' ?now1 ?now2 P E R;
  destruct m as [?fg [[?children |] ?w ?h ?ls ?raf ?con ?g ?rv ?tw]];
  destruct P as (Hfg & Hls & Hraf & Hg); cbn in Hfg, Hls, Hraf, Hg; subst;
  [ revert E; run_js;
    match goal with |- context [Qgtb ?a ?b] => destruct (Qgtb a b) end;
    intro E; injection E as <-
  | injection E as <-; discriminate R ].

Lemma sized_init (m m' : Machine) (now1 now2 : Q) :
  Pristine m -> init now1 now2 m = Normal tt m' -> Running m' -> Sized m'.
Proof. revert m m' now1 now2. init_case_tac; repeat split. Qed.

Lemma sized_step (m m' : Machine) (ev : Event) :
  Running m -> Sized m -> dispatch ev m = Normal tt m' -> Sized m'.
Proof.
  intros H S E. revert S E. running_inv H. unfold Sized. cbn.
  intros (S1 & S2 & S3 & S4 & S5).
  injection S1 as ->. injection S2 as ->. injection S3 as ->.
  injection S4 as ->. injection S5 as ->.
  destruct ev as [x y rect now | | w' h' | now1 now2]; run_js;
    try match goal with |- context [Qgtb ?a ?b] => destruct (Qgtb a b) end;
    intro E; injection E as <-; repeat split.
Qed.

(** X5.  After any session the instance is pristine, or it is running with
    both render targets, both [iResolution] uniforms and the renderer at
    the current size of the window. *)
Theorem viewport_size_invariant (acts : list Action) (m : Machine) :
  Pristine m ->
  exists m',
    session acts m = Normal tt m'
    /\ (Pristine m' \/ (Running m' /\ Sized m')).
Proof.
  intro P.
  apply (session_stage Sized (fun _ => true)); auto using delivers_all.
  - exact sized_init.
  - intros m0 m1 ev _. apply sized_step.
Qed.

(** The window is resized twice, once before [init]; at the end everything
    is 1024 by 768. *)
Lemma viewport_size_invariant_witness :
  exists m',
    session [Deliver (Resize 640 480); CallInit 100 100;
             Deliver (AnimationFrame 116 116); Deliver (Resize 1024 768)]
            (boot demo_page) = Normal tt m'
    /\ fluidTarget1 (this m') = Some (mkTarget 1024 768)
    /\ fluidTarget2 (this m') = Some (mkTarget 1024 768).
Proof.
  destruct (viewport_size_invariant
              [Deliver (Resize 640 480); CallInit 100 100;
               Deliver (AnimationFrame 116 116); Deliver (Resize 1024 768)]
              (boot demo_page)
              (conj eq_refl (conj eq_refl (conj eq_refl eq_refl))))
    as (m' & E & _).
  exists m'. split; [ exact E | ].
  vm_compute in E. injection E as <-. split; reflexivity.
Defined.

(** The log and the state together. *)
Lemma draws_sized_init (m m' : Machine) (now1 now2 : Q) :
  Pristine m -> init now1 now2 m = Normal tt m' -> Running m' ->
  Sized m' /\ Forall draw_sized (gpu (host m')).
Proof.
  revert m m' now1 now2. init_case_tac;
    (split; [ repeat split | repeat constructor ]).
Qed.

Lemma draws_sized_step (m m' : Machine) (ev : Event) :
  Running m -> Sized m /\ Forall draw_sized (gpu (host m)) ->
  dispatch ev m = Normal tt m' ->
  Sized m' /\ Forall draw_sized (gpu (host m')).
Proof.
  intros H [S F] E. split; [ exact (sized_step m m' ev H S E) | ].
  destruct (is_frame ev) eqn:Fr.
  - destruct ev as [| | | now1 now2]; try discriminate Fr.
    destruct (frame_step m now1 now2 H)
      as (m2 & fu & du & E' & _ & G & _ & _ & _ & _ & Hres & Hdres & _).
    rewrite E in E'. injection E' as <-.
    destruct S as (S1 & S2 & S3 & S4 & _).
    rewrite S3 in Hres. rewrite S4 in Hdres.
    injection Hres as Hres. injection Hdres as Hdres.
    rewrite G. apply Forall_app. split; [ exact F | ].
    repeat constructor; cbn; rewrite ?Hres, ?Hdres; cbn; assumption.
  - rewrite (dispatch_gpu m m' ev H Fr E). exact F.
Qed.

(** X6.  In the log of any session that starts on a pristine machine,
    every draw call is issued with both render targets at the size its
    [iResolution] uniform gives: no frame draws with a stale size, also
    across resizes. *)
Theorem draws_match_resolution (acts : list Action) (m : Machine) :
  Pristine m ->
  exists m',
    session acts m = Normal tt m'
    /\ Forall draw_sized (gpu (host m')).
Proof.
  intro P.
  destruct (session_stage (fun m => Sized m /\ Forall draw_sized (gpu (host m)))
              (fun _ => true)
              draws_sized_init
              (fun m0 m1 ev _ => draws_sized_step m0 m1 ev)
              acts m (or_introl P) (delivers_all acts))
    as (m' & E & St).
  exists m'. split; [ exact E | ].
  destruct St as [(_ & _ & _ & G) | (_ & _ & F)].
  - rewrite G. constructor.
  - exact F.
Qed.

Lemma draws_match_resolution_witness :
  exists m',
    session [CallInit 100 100; Deliver (Resize 1024 768);
             Deliver (AnimationFrame 116 116)] (boot demo_page) = Normal tt m'
    /\ List.length (gpu (host m')) = 4%nat
    /\ Forall draw_sized (gpu (host m')).
Proof.
  destruct (draws_match_resolution
              [CallInit 100 100; Deliver (Resize 1024 768);
               Deliver (AnimationFrame 116 116)] (boot demo_page)
              (conj eq_refl (conj eq_refl (conj eq_refl eq_refl))))
    as (m' & E & F).
  exists m'. split; [ exact E | split; [ | exact F ] ].
  vm_compute in E. injection E as <-. reflexivity.
Defined.

Lemma pingpong_init (m m' : Machine) (now1 now2 : Q) :
  Pristine m -> init now1 now2 m = Normal tt m' -> Running m' ->
  PingPong (gpu (host m')) (previousFluidTarget (this m')).
Proof.
  revert m m' now1 now2. init_case_tac; cbn;
    apply (pp_frame [] None _ _ Target2 Target1);
    solve [ constructor | left; reflexivity | discriminate | reflexivity ].
Qed.

Lemma pingpong_step (m m' : Machine) (ev : Event) :
  Running m -> PingPong (gpu (host m)) (previousFluidTarget (this m)) ->
  dispatch ev m = Normal tt m' ->
  PingPong (gpu (host m')) (previousFluidTarget (this m')).
Proof.
  intros H PP E.
  destruct (dispatch_running m ev H) as (m1 & E1 & _ & Hr & _).
  rewrite E in E1. injection E1 as <-.
  destruct (running_roles m H) as (c & p & Hcp & Hne).
  destruct (is_frame ev) eqn:Fr.
  - destruct ev as [| | | now1 now2]; try discriminate Fr.
    destruct (frame_step m now1 now2 H)
      as (m2 & fu & du & E' & _ & G & Hp & Hc & _).
    rewrite E in E'. injection E' as <-.
    rewrite Hcp in Hr. unfold roles, swap_roles in Hr, Hcp; cbn in Hr.
    injection Hr as _ Hprev. injection Hcp as Hcur Hprv.
    rewrite Hcur, Hprv in *. rewrite G, Hprev.
    apply (pp_frame _ (Some p) fu du p c); auto.
  - rewrite (dispatch_gpu m m' ev H Fr E).
    unfold roles in Hr. injection Hr as _ Hprev. rewrite Hprev. exact PP.
Qed.

(** X7.  The log of any session that starts on a pristine machine is a
    sequence of whole frames: a simulation draw into one target that reads
    the other, then a display draw to the screen that reads the target
    just written; and each simulation draw reads the target that the
    simulation draw of the frame before wrote.  The target written last is
    the one the instance holds as previous. *)
Theorem log_is_ping_pong (acts : list Action) (m : Machine) :
  Pristine m ->
  exists m',
    session acts m = Normal tt m'
    /\ PingPong (gpu (host m')) (previousFluidTarget (this m')).
Proof.
  intro P.
  destruct (session_stage
              (fun m => PingPong (gpu (host m)) (previousFluidTarget (this m)))
              (fun _ => true)
              pingpong_init
              (fun m0 m1 ev _ => pingpong_step m0 m1 ev)
              acts m (or_introl P) (delivers_all acts))
    as (m' & E & St).
  exists m'. split; [ exact E | ].
  destruct St as [(Hfg & _ & _ & G) | (_ & PP)].
  - rewrite G, Hfg. constructor.
  - exact PP.
Qed.

Lemma log_is_ping_pong_witness :
  exists m',
    session [CallInit 100 100; Deliver (AnimationFrame 116 116);
             Deliver (Resize 1024 768); Deliver (AnimationFrame 132 132)]
            (boot demo_page) = Normal tt m'
    /\ List.length (gpu (host m')) = 6%nat
    /\ PingPong (gpu (host m')) (Some Target1).
Proof.
  destruct (log_is_ping_pong
              [CallInit 100 100; Deliver (AnimationFrame 116 116);
               Deliver (Resize 1024 768); Deliver (AnimationFrame 132 132)]
              (boot demo_page)
              (conj eq_refl (conj eq_refl (conj eq_refl eq_refl))))
    as (m' & E & PP).
  exists m'. split; [ exact E | ].
  vm_compute in E. injection E as <-. split; [ reflexivity | exact PP ].
Defined.

(* ===================================================================== *)
(** * The pointer quad, the tunables and the frame counter in a session *)
(* ===================================================================== *)

Lemma idle_init (m m' : Machine) (now1 now2 : Q) :
  Pristine m -> init now1 now2 m = Normal tt m' -> Running m' ->
  pointer_quad m' = Some zero4 /\ Forall draw_idle (gpu (host m')).
Proof.
  revert m m' now1 now2. init_case_tac;
    (split; [ reflexivity | repeat constructor ]).
Qed.

Lemma idle_step (m m' : Machine) (ev : Event) :
  negb (is_move ev) = true ->
  Running m ->
  pointer_quad m = Some zero4 /\ Forall draw_idle (gpu (host m)) ->
  dispatch ev m = Normal tt m' ->
  pointer_quad m' = Some zero4 /\ Forall draw_idle (gpu (host m')).
Proof.
  intros Hev H [Q F] E.
  destruct ev as [x y rect now | | w h | now1 now2]; try discriminate Hev.
  - destruct (mouseleave_step m H) as (fu & Hf & E').
    rewrite E in E'. injection E' as ->. split; [ | exact F ].
    unfold pointer_quad; cbn [this]. destruct (this m), fu; reflexivity.
  - destruct (resize_step m w h H) as (r & fu & du & _ & Hf & _ & E').
    rewrite E in E'. injection E' as ->.
    split; [ | cbn [host]; rewrite host_gpu_after_resize; exact F ].
    revert Q. unfold pointer_quad; cbn [this].
    destruct (this m); cbn in Hf |- *. subst. destruct fu. exact (fun q => q).
  - destruct (frame_step m now1 now2 H)
      as (m2 & fu & du & E' & _ & G & _ & _ & _ & Hq & _ & _ & _ & Ht & _).
    rewrite E in E'. injection E' as <-.
    rewrite Q in Hq.
    assert (Hz : Fluid.iMouse fu = zero4).
    { destruct (Qgtb (now2 - lastMoveTime (this m)) 100);
        injection Hq as Hq; exact Hq. }
    split.
    + unfold pointer_quad. rewrite Ht. destruct (this m); cbn.
      rewrite Hz. reflexivity.
    + rewrite G. apply Forall_app. split; [ exact F | ].
      repeat constructor. exact Hz.
Qed.

(** X9.  As long as no pointer-move event is delivered, every simulation
    draw of a session is fed the zero quad, whatever the clock reads (also
    in the first 100 ms, when the idle test of [animate] does not fire). *)
Theorem no_move_no_quad (acts : list Action) (m : Machine) :
  Pristine m ->
  forallb (delivers (fun ev => negb (is_move ev))) acts = true ->
  exists m',
    session acts m = Normal tt m'
    /\ Forall draw_idle (gpu (host m')).
Proof.
  intros P Hacts.
  destruct (session_stage
              (fun m => pointer_quad m = Some zero4
                        /\ Forall draw_idle (gpu (host m)))
              (fun ev => negb (is_move ev))
              idle_init idle_step acts m (or_introl P) Hacts)
    as (m' & E & St).
  exists m'. split; [ exact E | ].
  destruct St as [(_ & _ & _ & G) | (_ & _ & F)].
  - rewrite G. constructor.
  - exact F.
Qed.

(** [init] at clock reading 50 and a frame at 60: [lastMoveTime] is 0 and
    the idle test is false both times, the quad is zero all the same. *)
Lemma no_move_no_quad_witness :
  exists m',
    session [CallInit 50 50; Deliver (AnimationFrame 60 60);
             Deliver MouseLeave; Deliver (Resize 1024 768)]
            (boot demo_page) = Normal tt m'
    /\ List.length (gpu (host m')) = 4%nat
    /\ Forall draw_idle (gpu (host m')).
Proof.
  destruct (no_move_no_quad
              [CallInit 50 50; Deliver (AnimationFrame 60 60);
               Deliver MouseLeave; Deliver (Resize 1024 768)]
              (boot demo_page)
              (conj eq_refl (conj eq_refl (conj eq_refl eq_refl))) eq_refl)
    as (m' & E & F).
  exists m'. split; [ exact E | split; [ | exact F ] ].
  vm_compute in E. injection E as <-. reflexivity.
Defined.

Lemma quad_init (m m' : Machine) (now1 now2 : Q) :
  Pristine m -> init now1 now2 m = Normal tt m' -> Running m' ->
  QuadConsistent m'.
Proof. revert m m' now1 now2. init_case_tac; left; reflexivity. Qed.

Lemma quad_step (m m' : Machine) (ev : Event) :
  Running m -> QuadConsistent m -> dispatch ev m = Normal tt m' ->
  QuadConsistent m'.
Proof.
  intros H Q E. revert Q E. running_inv H. unfold QuadConsistent, pointer_quad.
  cbn. intro Q.
  destruct ev as [x y rect now | | w' h' | now1 now2]; run_js;
    try match goal with |- context [Qgtb ?a ?b] => destruct (Qgtb a b) end;
    intro E; injection E as <-; cbn;
    solve [ left; reflexivity | right; reflexivity | exact Q ].
Qed.

(** X11.  After any session the instance is pristine, or it is running and
    its pointer quad is either zero or exactly the stored position followed
    by the stored previous position: the uniform never holds anything
    else. *)
Theorem quad_is_zero_or_stored (acts : list Action) (m : Machine) :
  Pristine m ->
  exists m',
    session acts m = Normal tt m'
    /\ (Pristine m' \/ (Running m' /\ QuadConsistent m')).
Proof.
  intro P.
  apply (session_stage QuadConsistent (fun _ => true));
    auto using delivers_all.
  - exact quad_init.
  - intros m0 m1 ev _. apply quad_step.
Qed.

Lemma quad_is_zero_or_stored_witness :
  exists m',
    session [CallInit 100 100;
             Deliver (MouseMove 100 500 (mkRect 0 0 800 600) 1000);
             Deliver (MouseMove 150 480 (mkRect 0 0 800 600) 1040);
             Deliver (AnimationFrame 1050 1050)]
            (boot demo_page) = Normal tt m'
    /\ pointer_quad m' = Some (vec4 150 120 100 100)
    /\ mouseX (this m') = 150%Q.
Proof.
  destruct (quad_is_zero_or_stored
              [CallInit 100 100;
               Deliver (MouseMove 100 500 (mkRect 0 0 800 600) 1000);
               Deliver (MouseMove 150 480 (mkRect 0 0 800 600) 1040);
               Deliver (AnimationFrame 1050 1050)]
              (boot demo_page)
              (conj eq_refl (conj eq_refl (conj eq_refl eq_refl))))
    as (m' & E & _).
  exists m'. split; [ exact E | ].
  vm_compute in E. injection E as <-. split; reflexivity.
Defined.

Lemma tunables_init (m m' : Machine) (now1 now2 : Q) :
  Pristine m -> init now1 now2 m = Normal tt m' -> Running m' ->
  config (this m') = default_config
  /\ tunables (this m') = tunables_of default_config.
Proof. revert m m' now1 now2. init_case_tac; split; reflexivity. Qed.

Lemma tunables_step (m m' : Machine) (ev : Event) :
  Running m ->
  dispatch ev m = Normal tt m' ->
  config (this m') = config (this m)
  /\ tunables (this m') = tunables (this m).
Proof.
  intros H E. revert E. running_inv H.
  destruct ev as [x y rect now | | w' h' | now1 now2]; run_js;
    try match goal with |- context [Qgtb ?a ?b] => destruct (Qgtb a b) end;
    intro E; injection E as <-; split; reflexivity.
Qed.

(** X14.  After any session the instance is pristine, or it is running and
    the tunable uniforms of both passes (brush, decay, trail, distortion,
    the four colours through [hexToRgb], intensity, softness) are the
    values of the constructor's configuration: [setupMaterials] copies
    them once, and no listener and no frame writes them or the
    configuration afterwards. *)
Theorem tunables_are_fixed (acts : list Action) (m : Machine) :
  Pristine m ->
  exists m',
    session acts m = Normal tt m'
    /\ (Pristine m'
        \/ (Running m'
            /\ config (this m') = default_config
            /\ tunables (this m') = tunables_of default_config)).
Proof.
  intro P.
  apply (session_stage
           (fun m => config (this m) = default_config
                     /\ tunables (this m) = tunables_of default_config)
           (fun _ => true)); auto using delivers_all.
  - exact tunables_init.
  - intros m0 m1 ev _ R [C T] E.
    destruct (tunables_step m0 m1 ev R E) as [C1 T1].
    rewrite C1, T1. split; assumption.
Qed.

Lemma tunables_are_fixed_witness :
  exists m' du,
    session [CallInit 100 100; Deliver (Resize 1024 768);
             Deliver (AnimationFrame 116 116)] (boot demo_page) = Normal tt m'
    /\ displayMaterial (this m') = Some du
    /\ Display.uColor2 du = [Some (17 # 255); Some (17 # 255); Some (17 # 255)].
Proof.
  destruct (tunables_are_fixed
              [CallInit 100 100; Deliver (Resize 1024 768);
               Deliver (AnimationFrame 116 116)] (boot demo_page)
              (conj eq_refl (conj eq_refl (conj eq_refl eq_refl))))
    as (m' & E & _).
  exists m'. eexists. split; [ exact E | ].
  vm_compute in E. injection E as <-. split; reflexivity.
Defined.

(** Frames and draws over a sequence of events without a resize. *)
Lemma run_counts (evs : list Event) :
  forall m, Running m -> no_resize evs = true ->
  exists m',
    run evs m = Normal tt m'
    /\ Running m'
    /\ frameCount (this m') = frameCount (this m) + Z.of_nat (frames evs)
    /\ List.length (gpu (host m')) =
         (List.length (gpu (host m)) + 2 * frames evs)%nat.
Proof.
  induction evs as [| ev evs IH]; intros m H N.
  - exists m. cbn. repeat split; [ exact H | lia | lia ].
  - unfold no_resize in N; cbn [forallb] in N.
    apply andb_true_iff in N. destruct N as [N1 N2].
    destruct (dispatch_running m ev H) as (m1 & E1 & R1 & _).
    assert (C : frameCount (this m1) =
                  frameCount (this m) + (if is_frame ev then 1 else 0)
                /\ List.length (gpu (host m1)) =
                     (List.length (gpu (host m))
                      + (if is_frame ev then 2 else 0))%nat).
    { destruct ev as [x y rect now | | w h | now1 now2];
        try discriminate N1; cbn [is_frame].
      - destruct (mousemove_step m x y rect now H) as (fu & _ & E').
        rewrite E1 in E'. injection E' as ->. cbn [this host].
        destruct (this m); cbn. split; lia.
      - destruct (mouseleave_step m H) as (fu & _ & E').
        rewrite E1 in E'. injection E' as ->. cbn [this host].
        destruct (this m); cbn. split; lia.
      - destruct (frame_step m now1 now2 H)
          as (m2 & fu & du & E' & _ & G & _ & _ & _ & _ & _ & _ & _ & Ht & _).
        rewrite E1 in E'. injection E' as <-.
        rewrite G, Ht, length_app. destruct (this m); cbn. split; lia. }
    destruct C as [C1 C2].
    destruct (IH m1 R1 N2) as (m' & E & R & F & G).
    exists m'. rewrite (run_cons ev evs m m1 E1).
    split; [ exact E | split; [ exact R | ] ].
    rewrite F, G, C1, C2. unfold frames; cbn [filter].
    destruct (is_frame ev); cbn [List.length]; split; lia.
Qed.

(** X8.  After a resize, [frameCount] is the number of frames run since
    (so a frame's [iFrame] counts the frames since the last resize), and
    every frame has added exactly two draw calls to the log. *)
Theorem frame_counter_since_resize (m : Machine) (w h : Z) (evs : list Event) :
  Running m ->
  no_resize evs = true ->
  exists m',
    run (Resize w h :: evs) m = Normal tt m'
    /\ frameCount (this m') = Z.of_nat (frames evs)
    /\ List.length (gpu (host m')) =
         (List.length (gpu (host m)) + 2 * frames evs)%nat.
Proof.
  intros H N.
  destruct (dispatch_running m (Resize w h) H) as (m1 & E1 & R1 & _).
  destruct (resize_step m w h H) as (r & fu & du & _ & _ & _ & E1').
  rewrite E1 in E1'. injection E1' as Hm1.
  destruct (run_counts evs m1 R1 N) as (m' & E & _ & F & G).
  exists m'. rewrite (run_cons _ evs m m1 E1).
  split; [ exact E | ].
  rewrite F, G, Hm1. cbn [this host]. rewrite host_gpu_after_resize.
  destruct (this m); cbn. split; lia.
Qed.

Lemma frame_counter_since_resize_witness :
  exists m',
    run [Resize 1024 768; AnimationFrame 16 16;
         MouseMove 1 1 (mkRect 0 0 1024 768) 20; AnimationFrame 32 32;
         AnimationFrame 48 48] demo = Normal tt m'
    /\ frameCount (this m') = 3.
Proof.
  destruct (frame_counter_since_resize demo 1024 768
              [AnimationFrame 16 16; MouseMove 1 1 (mkRect 0 0 1024 768) 20;
               AnimationFrame 32 32; AnimationFrame 48 48] eq_refl eq_refl)
    as (m' & E & F & _).
  exists m'. split; [ exact E | exact F ].
Defined.

(** X10.  An instance whose [init] was never called, or bailed out because
    the anchor is missing, cannot be animated: after any such session a
    call of [animate] raises a [TypeError] (the first uniform it touches is
    a property of [undefined]).  The guard of [init] does not make the
    instance safe to use; it only keeps [init] itself from throwing. *)
Theorem animate_before_init_throws (acts : list Action) (m : Machine)
    (now1 now2 : Q) :
  Pristine m ->
  has_canvas (host m) && existsb is_call acts = false ->
  exists m',
    session acts m = Normal tt m'
    /\ animate now1 now2 m' = Throw TypeError.
Proof.
  intros P H.
  destruct (session_outcome acts m P) as (m' & E & O).
  rewrite H in O. destruct O as (T & _).
  exists m'. split; [ exact E | ].
  unfold animate, bind, requestAnimationFrame, effect, modify,
    update_fluidMaterial, bind, field, gets. cbn [this].
  rewrite T. reflexivity.
Qed.

Lemma animate_before_init_throws_witness :
  exists m',
    session [CallInit 0 0; Deliver (Resize 640 480); CallInit 5 5]
            (boot (mkHost None 800 600 [] 0 [] [] 0 [])) = Normal tt m'
    /\ animate 16 16 m' = Throw TypeError.
Proof.
  exact (animate_before_init_throws
           [CallInit 0 0; Deliver (Resize 640 480); CallInit 5 5]
           (boot (mkHost None 800 600 [] 0 [] [] 0 [])) 16 16
           (conj eq_refl (conj eq_refl (conj eq_refl eq_refl))) eq_refl).
Defined.

(* ===================================================================== *)
(** * Paragraphs into words *)
(* ===================================================================== *)

Section TextWords.

Import Text.

Lemma append_empty_r (s : string) : (s ++ EmptyString)%string = s.
Proof. induction s as [| c s IH]; cbn; [ reflexivity | rewrite IH; reflexivity ]. Qed.

Lemma append_assoc (a b c : string) :
  ((a ++ b) ++ c)%string = (a ++ (b ++ c))%string.
Proof. induction a as [| x a IH]; cbn; [ reflexivity | rewrite IH; reflexivity ]. Qed.

Lemma has_space_append (a b : string) :
  has_space (a ++ b) = has_space a || has_space b.
Proof.
  induction a as [| c a IH]; cbn; [ reflexivity | ].
  rewrite IH. apply orb_assoc.
Qed.

Lemma join_cons (w : string) (l : list string) :
  join (w :: l) = (w ++ join l)%string.
Proof. reflexivity. Qed.

(** A string without white space is its own trimmed form. *)
Lemma trimEnd_no_space (s : string) : has_space s = false -> trimEnd s = s.
Proof.
  induction s as [| c s IH]; cbn; [ reflexivity | ].
  intro H. apply orb_false_iff in H. destruct H as [Hc Hs].
  rewrite (IH Hs), Hc. destruct s; reflexivity.
Qed.

Lemma trim_no_space (s : string) : has_space s = false -> trim s = s.
Proof.
  intro H. unfold trim.
  assert (T : trimStart s = s).
  { destruct s as [| c s]; cbn in *; [ reflexivity | ].
    apply orb_false_iff in H. destruct H as [Hc _]. rewrite Hc. reflexivity. }
  rewrite T. apply trimEnd_no_space, H.
Qed.

(** The pieces of [split] never contain white space, and put together they
    are the text without its white space. *)
Lemma split_from_pieces (s : string) :
  forall (word : string) (gap : bool),
    has_space word = false ->
    (gap = true -> word = EmptyString) ->
    Forall (fun w => has_space w = false) (split_from word gap s)
    /\ join (split_from word gap s) = (word ++ remove_spaces s)%string.
Proof.
  induction s as [| c s IH]; intros word gap Hw Hg;
    cbn [split_from remove_spaces].
  - split; [ repeat constructor; exact Hw | ].
    cbn. rewrite append_empty_r. reflexivity.
  - destruct (is_space c) eqn:Hc.
    + destruct (IH EmptyString true eq_refl (fun _ => eq_refl)) as [F J].
      destruct gap.
      * rewrite (Hg eq_refl). split; [ exact F | exact J ].
      * split; [ constructor; assumption | ].
        rewrite join_cons, J. reflexivity.
    + destruct (IH (word ++ String c EmptyString)%string false) as [F J].
      * rewrite has_space_append. cbn. rewrite Hw, Hc. reflexivity.
      * discriminate.
      * split; [ exact F | ].
        rewrite J, append_assoc. reflexivity.
Qed.

Lemma split_from_no_space (s : string) :
  forall word, has_space s = false ->
  split_from word false s = [(word ++ s)%string].
Proof.
  induction s as [| c s IH]; intros word H; cbn in *.
  - rewrite append_empty_r. reflexivity.
  - apply orb_false_iff in H. destruct H as [Hc Hs].
    rewrite Hc, (IH _ Hs), append_assoc. reflexivity.
Qed.

Lemma remove_spaces_no_space (s : string) : has_space (remove_spaces s) = false.
Proof.
  induction s as [| c s IH]; cbn; [ reflexivity | ].
  destruct (is_space c) eqn:Hc; cbn; [ exact IH | ].
  rewrite Hc, IH. reflexivity.
Qed.

Lemma join_filter_nonempty (l : list string) :
  Forall (fun w => has_space w = false) l ->
  join (filter (fun w => match trim w with
                         | EmptyString => false
                         | _ => true
                         end) l) = join l
  /\ Forall (fun w => w <> EmptyString /\ has_space w = false)
            (filter (fun w => match trim w with
                              | EmptyString => false
                              | _ => true
                              end) l).
Proof.
  induction 1 as [| w l Hw F [IHj IHf]]; cbn [filter];
    [ split; [ reflexivity | constructor ] | ].
  rewrite (trim_no_space w Hw).
  destruct w as [| c w].
  - rewrite join_cons. split; assumption.
  - rewrite !join_cons, IHj. split; [ reflexivity | ].
    constructor; [ split; [ discriminate | exact Hw ] | exact IHf ].
Qed.

Lemma words_of_join (text : string) :
  Forall (fun w => w <> EmptyString /\ has_space w = false) (words_of text)
  /\ join (words_of text) = remove_spaces text.
Proof.
  destruct (split_from_pieces text EmptyString false eq_refl
              (fun H => False_ind _ (diff_false_true H))) as [F J].
  destruct (join_filter_nonempty (split_spaces text) F) as [Jf Ff].
  split; [ exact Ff | ].
  unfold words_of. rewrite Jf. exact J.
Qed.

(** X12.  The words of a text: none is empty, none contains white space,
    and one after the other they are the text without its white space;
    nothing but white space is lost and no character is reordered. *)
Theorem words_keep_the_text (text : string) :
  Forall (fun w => w <> EmptyString /\ has_space w = false) (words_of text)
  /\ join (words_of text) = remove_spaces text.
Proof. apply words_of_join. Qed.

Lemma text_of_app (a b : list Node) :
  text_of (a ++ b) = (text_of a ++ text_of b)%string.
Proof.
  unfold text_of. cbn. induction a as [| k a IH]; cbn; [ reflexivity | ].
  rewrite IH, append_assoc. reflexivity.
Qed.

Lemma keyword_not_keyword (k : string) :
  includes keywords k = true ->
  classList_add k (classList_add "keyword" []) = ["keyword"%string; k].
Proof.
  unfold includes, keywords. cbn [existsb].
  intro H. repeat (apply orb_true_iff in H; destruct H as [H | H]);
    try discriminate H;
    apply String.eqb_eq in H; subst k; reflexivity.
Qed.

(** The container of a piece without white space. *)
Lemma wordContainer_piece (w : string) :
  has_space w = false ->
  match w with
  | EmptyString => wordContainer w = []
  | _ => exists n, wordContainer w = [n] /\ WordElement n /\ textContent n = w
  end.
Proof.
  intro Hw. unfold wordContainer. rewrite (trim_no_space w Hw).
  destruct w as [| c w]; [ reflexivity | ].
  fold (normalize (String c w)).
  destruct (includes keywords (normalize (String c w))) eqn:K.
  - rewrite (keyword_not_keyword _ K). eexists. split; [ reflexivity | ].
    split.
    + exists (String c w). split; [ discriminate | split; [ exact Hw | ] ].
      rewrite K. reflexivity.
    + cbn. rewrite !append_empty_r. reflexivity.
  - eexists. split; [ reflexivity | ]. split.
    + exists (String c w). split; [ discriminate | split; [ exact Hw | ] ].
      rewrite K. reflexivity.
    + cbn. rewrite !append_empty_r. reflexivity.
Qed.

Lemma containers_of_pieces (l : list string) :
  Forall (fun w => has_space w = false) l ->
  Forall WordElement (flat_map wordContainer l)
  /\ map textContent (flat_map wordContainer l) =
       filter (fun w => match trim w with
                        | EmptyString => false
                        | _ => true
                        end) l.
Proof.
  induction 1 as [| w l Hw F [IHe IHt]]; cbn [flat_map filter];
    [ split; constructor | ].
  pose proof (wordContainer_piece w Hw) as P.
  rewrite (trim_no_space w Hw).
  destruct w as [| c w].
  - rewrite P. cbn [app]. split; assumption.
  - destruct P as (n & -> & We & T). cbn [app map]. split.
    + constructor; assumption.
    + rewrite T, IHt. reflexivity.
Qed.

Lemma text_of_join (l : list Node) : text_of l = join (map textContent l).
Proof.
  unfold text_of. cbn. induction l as [| k l IH]; cbn; [ reflexivity | ].
  rewrite IH. reflexivity.
Qed.

Lemma paragraph_words_elements (children : list Node) :
  Forall WordElement (processParagraph children)
  /\ map textContent (processParagraph children) = words_of (text_of children)
  /\ text_of (processParagraph children) = remove_spaces (text_of children).
Proof.
  unfold processParagraph.
  destruct (split_from_pieces (text_of children) EmptyString false eq_refl
              (fun H => False_ind _ (diff_false_true H))) as [F J].
  destruct (containers_of_pieces (split_spaces (text_of children)) F) as [We T].
  split; [ exact We | split; [ exact T | ] ].
  rewrite text_of_join, T.
  destruct (words_of_join (text_of children)) as [_ Jw].
  exact Jw.
Qed.

(** X13.  [processTextElements] replaces the children of a paragraph by one
    word container per word of its text, in order: each is a [div.word]
    around one [span] with the word (with the keyword classes when the
    normalised word is a keyword), and the text of the paragraph is the
    old text without its white space. *)
Theorem paragraph_becomes_words (children : list Node) :
  Forall WordElement (processParagraph children)
  /\ map textContent (processParagraph children) = words_of (text_of children)
  /\ text_of (processParagraph children) = remove_spaces (text_of children).
Proof. apply paragraph_words_elements. Qed.

(** X15.  Running [processTextElements] on a paragraph it has already
    processed merges all the words into one: the second pass reads a text
    without white space and builds one container for it (none for an empty
    paragraph).  The guard of [init] is what keeps this from happening. *)
Theorem processing_twice_merges_words (children : list Node) :
  processParagraph (processParagraph children) =
    wordContainer (remove_spaces (text_of children))
  /\ (List.length (processParagraph (processParagraph children)) <= 1)%nat.
Proof.
  assert (E : processParagraph (processParagraph children) =
              wordContainer (remove_spaces (text_of children))).
  { unfold processParagraph at 1.
    assert (T : text_of (processParagraph children) =
                remove_spaces (text_of children))
      by apply paragraph_words_elements.
    rewrite T. unfold split_spaces.
    rewrite (split_from_no_space _ EmptyString (remove_spaces_no_space _)).
    cbn [flat_map append]. apply app_nil_r. }
  split; [ exact E | ].
  rewrite E.
  pose proof (wordContainer_piece _ (remove_spaces_no_space (text_of children))) as P.
  destruct (remove_spaces (text_of children)).
  - rewrite P. cbn. lia.
  - destruct P as (n & -> & _). cbn. lia.
Qed.

End TextWords.

(* ===================================================================== *)
(** * The style of a word while scrolling *)
(* ===================================================================== *)

Section ScrollStyle.

Import Scroll.

Lemma Qgtb_spec (a b : Q) :
  (Qgtb a b = true /\ b < a)%Q \/ (Qgtb a b = false /\ a <= b)%Q.
Proof.
  destruct (Qlt_le_dec b a) as [H | H].
  - left. split; [ apply Qgtb_true, H | exact H ].
  - right. split; [ apply Qgtb_false, H | exact H ].
Qed.

Lemma Qmax_bounds (lo x hi : Q) :
  (lo <= hi -> x <= hi -> lo <= Qmax lo x /\ Qmax lo x <= hi)%Q.
Proof.
  intros H1 H2. split.
  - apply Q.le_max_l.
  - apply Q.max_lub; assumption.
Qed.

(** A quotient of a part by a positive whole. *)
Lemma Qdiv_unit (a d : Q) :
  (0 < d -> 0 <= a -> a <= d -> 0 <= a / d /\ a / d <= 1)%Q.
Proof.
  intros Hd Ha Had. split.
  - apply Qle_shift_div_l; [ exact Hd | lra ].
  - apply Qle_shift_div_r; [ exact Hd | lra ].
Qed.

Lemma window_length (index totalWords : Z) :
  (0 < totalWords)%Z ->
  let wordStart := (inject_Z index / inject_Z totalWords)%Q in
  let wordEnd := (wordStart + 8 / inject_Z totalWords)%Q in
  (0 < wordEnd - wordStart)%Q.
Proof.
  intros Ht wordStart wordEnd. unfold wordEnd.
  assert (N : (0 < inject_Z totalWords)%Q)
    by (change 0%Q with (inject_Z 0); rewrite <- Zlt_Qlt; exact Ht).
  assert (P : (0 < 8 / inject_Z totalWords)%Q)
    by (apply Qlt_shift_div_l; [ exact N | lra ]).
  lra.
Qed.

Lemma wordProgress_unit (rp : Q) (index totalWords : Z) :
  (0 < totalWords)%Z ->
  (0 <= wordProgress rp index totalWords
   /\ wordProgress rp index totalWords <= 1)%Q.
Proof.
  intro Ht. unfold wordProgress, Qltb.
  pose proof (window_length index totalWords Ht) as W. cbv zeta in W.
  set (ws := (inject_Z index / inject_Z totalWords)%Q) in *.
  set (we := (ws + 8 / inject_Z totalWords)%Q) in *.
  destruct (Qgtb_spec ws rp) as [[-> _] | [-> L]]; [ lra | ].
  destruct (Qgtb_spec rp we) as [[-> _] | [-> U]]; [ lra | ].
  apply Qdiv_unit; lra.
Qed.

(** X16.  For a scroll progress between 0 and 1 and a word of the
    container, [onUpdate] assigns the word an opacity between 0.1 and 1 and
    a background alpha between 0 and 1, and the text an opacity between 0.1
    and 1; the base of the power it takes is between 0 and 1, so the power
    is never [NaN]. *)
Theorem word_style_in_range (progress : Q) (index totalWords : Z) :
  (0 <= progress)%Q -> (progress <= 1)%Q ->
  (0 <= index < totalWords)%Z ->
  let s := onUpdate progress index totalWords in
  ((1 # 10) <= word_opacity s /\ word_opacity s <= 1)%Q
  /\ (0 <= background_alpha s /\ background_alpha s <= 1)%Q
  /\ opacity_within (1 # 10) (text_opacity s).
Proof.
  intros P0 P1 Hi. cbv zeta. unfold onUpdate, Qltb.
  destruct (Qgtb_spec (8 # 10) progress) as [[-> Hp] | [-> Hp]]; cbv zeta;
    cbn [word_opacity background_alpha text_opacity opacity_within].
  - assert (Ht : (0 < totalWords)%Z) by lia.
    destruct (wordProgress_unit (progress / (8 # 10)) index totalWords Ht)
      as [W0 W1].
    set (wp := wordProgress (progress / (8 # 10)) index totalWords) in *.
    split; [ apply Qmax_bounds; lra | ].
    split.
    + destruct (Qgtb_spec wp (7 # 10)) as [[-> H7] | [-> H7]]; [ | lra ].
      assert (D : (0 <= (wp - (7 # 10)) / (3 # 10)
                   /\ (wp - (7 # 10)) / (3 # 10) <= 1)%Q)
        by (apply Qdiv_unit; lra).
      split; [ apply Q.le_max_l | apply Q.max_lub; lra ].
    + destruct (Qgtb_spec wp (3 # 10)) as [[-> H3] | [-> H3]].
      * assert (D : (0 <= (wp - (3 # 10)) / (7 # 10)
                     /\ (wp - (3 # 10)) / (7 # 10) <= 1)%Q)
          by (apply Qdiv_unit; lra).
        repeat split; lra.
      * repeat split; lra.
  - assert (D : (0 <= (progress - (8 # 10)) / (2 # 10)
                 /\ (progress - (8 # 10)) / (2 # 10) <= 1)%Q)
      by (apply Qdiv_unit; lra).
    set (ep := ((progress - (8 # 10)) / (2 # 10))%Q) in *.
    split; [ apply Qmax_bounds; lra | ].
    split; [ lra | apply Qmax_bounds; lra ].
Qed.

Lemma word_style_in_range_witness :
  let s := onUpdate (1 # 2) 3 20 in
  ((1 # 10) <= word_opacity s /\ word_opacity s <= 1)%Q
  /\ (0 <= background_alpha s /\ background_alpha s <= 1)%Q
  /\ opacity_within (1 # 10) (text_opacity s).
Proof.
  apply (word_style_in_range (1 # 2) 3 20).
  - vm_compute; discriminate.
  - vm_compute; discriminate.
  - lia.
Defined.


Lemma Qdiv_le_mono (d x y : Q) : (0 < d -> x <= y -> x / d <= y / d)%Q.
Proof.
  intros Hd Hxy. unfold Qdiv. apply Qmult_le_compat_r; [ exact Hxy | ].
  apply Qlt_le_weak, Qinv_lt_0_compat, Hd.
Qed.

Lemma inject_Z_pos (n : Z) : (0 < n)%Z -> (0 < inject_Z n)%Q.
Proof. intro H. change 0%Q with (inject_Z 0). rewrite <- Zlt_Qlt. exact H. Qed.

(** [wordProgress] as a clamped quotient over the common window length. *)
Lemma wordProgress_cases (rp : Q) (index totalWords : Z) :
  (0 < totalWords)%Z ->
  let A := (inject_Z index / inject_Z totalWords)%Q in
  let L := (8 / inject_Z totalWords)%Q in
  (rp < A /\ wordProgress rp index totalWords = 0)%Q
  \/ (A + L < rp /\ wordProgress rp index totalWords = 1)%Q
  \/ (A <= rp /\ rp <= A + L
      /\ wordProgress rp index totalWords == (rp - A) / L)%Q.
Proof.
  intros Ht A L. unfold wordProgress, Qltb. fold A. fold L.
  destruct (Qgtb_spec A rp) as [[-> H1] | [-> H1]]; [ left; split; [ exact H1 | reflexivity ] | ].
  destruct (Qgtb_spec rp (A + L)) as [[-> H2] | [-> H2]];
    [ right; left; split; [ exact H2 | reflexivity ] | ].
  right; right. split; [ exact H1 | split; [ exact H2 | ] ].
  assert (E : (A + L - A == L)%Q) by ring.
  rewrite E. reflexivity.
Qed.

(** X17.  In the reveal phase the words light up in order and never fade
    while the scroll advances: at the same progress a later word is never
    ahead of an earlier one, and for the same word a larger progress never
    gives a smaller value. *)
Theorem words_reveal_in_order (rp rp' : Q) (i j totalWords : Z) :
  (0 <= i <= j)%Z -> (j < totalWords)%Z -> (rp <= rp')%Q ->
  (wordProgress rp j totalWords <= wordProgress rp i totalWords)%Q
  /\ (wordProgress rp i totalWords <= wordProgress rp' i totalWords)%Q.
Proof.
  intros Hij Hj Hrp.
  assert (Ht : (0 < totalWords)%Z) by lia.
  pose proof (inject_Z_pos totalWords Ht) as N.
  assert (HL : (0 < 8 / inject_Z totalWords)%Q)
    by (apply Qlt_shift_div_l; [ exact N | lra ]).
  assert (HAB : (inject_Z i / inject_Z totalWords
                 <= inject_Z j / inject_Z totalWords)%Q).
  { apply Qdiv_le_mono; [ exact N | ]. rewrite <- Zle_Qle. lia. }
  pose proof (wordProgress_unit rp i totalWords Ht) as [Ui0 Ui1].
  pose proof (wordProgress_unit rp j totalWords Ht) as [Uj0 Uj1].
  pose proof (wordProgress_unit rp' i totalWords Ht) as [Vi0 Vi1].
  destruct (wordProgress_cases rp i totalWords Ht) as [[Ci Ei] | [[Ci Ei] | (Ci & Di & Ei)]];
  destruct (wordProgress_cases rp j totalWords Ht) as [[Cj Ej] | [[Cj Ej] | (Cj & Dj & Ej)]];
  destruct (wordProgress_cases rp' i totalWords Ht) as [[Ck Ek] | [[Ck Ek] | (Ck & Dk & Ek)]];
  cbv zeta in *;
  set (A := (inject_Z i / inject_Z totalWords)%Q) in *;
  set (B := (inject_Z j / inject_Z totalWords)%Q) in *;
  set (L := (8 / inject_Z totalWords)%Q) in *;
  (split;
   [ first [ lra
           | rewrite Ej; lra
           | rewrite Ei; lra
           | rewrite Ei, Ej; apply Qdiv_le_mono; [ exact HL | lra ] ]
   | first [ lra
           | rewrite Ei; lra
           | rewrite Ek; lra
           | rewrite Ei, Ek; apply Qdiv_le_mono; [ exact HL | lra ] ] ]).
Qed.

Lemma words_reveal_in_order_witness :
  (wordProgress (1 # 2) 12 20 <= wordProgress (1 # 2) 8 20)%Q
  /\ (wordProgress (1 # 2) 8 20 <= wordProgress (3 # 4) 8 20)%Q.
Proof.
  apply (words_reveal_in_order (1 # 2) (3 # 4) 8 12 20).
  - lia.
  - lia.
  - vm_compute; discriminate.
Defined.

(** X18.  The last seven words of a container are never shown above 0.9
    in the reveal phase: for a progress below 0.8 their opacity is at most
    0.9 (the exact bound 7/8 is left a margin, which the rounding of the
    source's arithmetic cannot cross), while at 0.8, where the exit phase
    starts, every word is at 1. *)
Theorem last_words_stay_dim (progress : Q) (index totalWords : Z) :
  (progress < 8 # 10)%Q ->
  (0 <= index < totalWords)%Z -> (totalWords <= index + 7)%Z ->
  (word_opacity (onUpdate progress index totalWords) <= 9 # 10)%Q
  /\ (word_opacity (onUpdate (8 # 10) index totalWords) == 1)%Q.
Proof.
  intros P1 Hi Hlast. split; [ | reflexivity ].
  assert (Ht : (0 < totalWords)%Z) by lia.
  pose proof (inject_Z_pos totalWords Ht) as N.
  unfold onUpdate, Qltb. rewrite (Qgtb_true _ _ P1).
  cbn [word_opacity].
  assert (R1 : (progress / (8 # 10) < 1)%Q)
    by (apply Qlt_shift_div_r; lra).
  set (rp := (progress / (8 # 10))%Q) in *.
  assert (HL : (0 < 8 / inject_Z totalWords)%Q)
    by (apply Qlt_shift_div_l; [ exact N | lra ]).
  assert (End1 : (1 <= inject_Z index / inject_Z totalWords
                      + (7 # 8) * (8 / inject_Z totalWords))%Q).
  { assert (E : (inject_Z index / inject_Z totalWords
                 + (7 # 8) * (8 / inject_Z totalWords)
                 == (inject_Z index + 7) / inject_Z totalWords)%Q)
      by (field; lra).
    rewrite E. apply Qle_shift_div_l; [ exact N | ].
    change 7%Q with (inject_Z 7). rewrite <- inject_Z_plus, Qmult_1_l.
    rewrite <- Zle_Qle. exact Hlast. }
  assert (W : (wordProgress rp index totalWords <= 7 # 8)%Q).
  { destruct (wordProgress_cases rp index totalWords Ht)
      as [[C E] | [[C E] | (C & D & E)]]; cbv zeta in *.
    - rewrite E. lra.
    - lra.
    - rewrite E. apply Qle_shift_div_r; [ exact HL | lra ]. }
  apply Q.max_lub; lra.
Qed.

Lemma last_words_stay_dim_witness :
  (word_opacity (onUpdate (79 # 100) 19 20) <= 9 # 10)%Q
  /\ (word_opacity (onUpdate (8 # 10) 19 20) == 1)%Q.
Proof.
  apply (last_words_stay_dim (79 # 100) 19 20).
  - vm_compute; reflexivity.
  - lia.
  - lia.
Defined.

End ScrollStyle.

(* ===================================================================== *)
(** * The scroll callback of the inline text animation *)
(* ===================================================================== *)

Section ScrollInlineStyle.

Import ScrollInline.

(** The reveal progress of a word is a number from 0 to 1. *)
Lemma inline_wordProgress_unit (rp : Q) (index totalWords : Z) :
  (0 < totalWords)%Z ->
  (0 <= wordProgress rp index totalWords
   /\ wordProgress rp index totalWords <= 1)%Q.
Proof.
  intro Ht. unfold wordProgress, Scroll.Qltb. cbv zeta.
  pose proof (inject_Z_pos totalWords Ht) as N.
  set (n := inject_Z totalWords) in *.
  set (i := inject_Z index).
  assert (P15 : (0 < 15 / n)%Q) by (apply Qlt_shift_div_l; [ exact N | lra ]).
  assert (P1 : (0 <= (n - 1) / n)%Q).
  { apply Qle_shift_div_l; [ exact N | ].
    assert (1 <= n)%Q; [ | lra ].
    change 1%Q with (inject_Z 1). unfold n. rewrite <- Zle_Qle. lia. }
  set (m := Qmin (1 + 15 / n) (1 + (n - 1) / n + 15 / n)).
  assert (M : (0 < m)%Q).
  { unfold m. apply Q.min_glb_lt; lra. }
  assert (S : (0 < 1 / m)%Q) by (apply Qlt_shift_div_l; [ exact M | lra ]).
  set (sc := (1 / m)%Q) in *.
  assert (D : (0 < (i / n + 15 / n) * sc - i / n * sc)%Q).
  { assert (E : ((i / n + 15 / n) * sc - i / n * sc == (15 / n) * sc)%Q) by ring.
    rewrite E. apply Qmult_lt_0_compat; assumption. }
  destruct (Qgtb_spec (i / n * sc) rp) as [[-> _] | [-> L]]; [ lra | ].
  destruct (Qgtb_spec rp ((i / n + 15 / n) * sc)) as [[-> _] | [-> U]]; [ lra | ].
  split.
  - apply Qle_shift_div_l; [ exact D | lra ].
  - apply Qle_shift_div_r; [ exact D | lra ].
Qed.

(** X24.  In the reveal phase of the inline callback (a progress below
    0.7) every word gets an opacity between 0 and 1 and a background alpha
    between 0 and 1, and the text the square root of a base between 0 and
    1, so never [NaN]. *)
Theorem inline_reveal_in_range (progress : Q) (index totalWords : Z) :
  (progress < 7 # 10)%Q ->
  (0 <= index < totalWords)%Z ->
  let s := onUpdate progress index totalWords in
  (0 <= word_opacity s /\ word_opacity s <= 1)%Q
  /\ (0 <= background_alpha s /\ background_alpha s <= 1)%Q
  /\ exists base : Q,
       text_write s = SetPow base (5 # 10) /\ (0 <= base /\ base <= 1)%Q.
Proof.
  intros Hp Hi. cbv zeta. unfold onUpdate, Scroll.Qltb.
  destruct (Qgtb_spec (7 # 10) progress) as [[-> _] | [_ C]]; [ | lra ].
  cbv zeta. cbn [word_opacity background_alpha text_write].
  assert (Ht : (0 < totalWords)%Z) by lia.
  destruct (inline_wordProgress_unit (Qmin 1 (progress / (7 # 10)))
              index totalWords Ht) as [W0 W1].
  set (wp := wordProgress (Qmin 1 (progress / (7 # 10))) index totalWords) in *.
  split; [ split; assumption | ].
  destruct (Qgtb_spec wp (9 # 10)) as [[-> H9] | [-> H9]].
  - assert (B : (0 <= (wp - (9 # 10)) / (1 # 10)
                 /\ (wp - (9 # 10)) / (1 # 10) <= 1)%Q).
    { split; [ apply Qle_shift_div_l | apply Qle_shift_div_r ]; lra. }
    assert (T : (0 <= (wp - (9 # 10)) / (1 - (9 # 10))
                 /\ (wp - (9 # 10)) / (1 - (9 # 10)) <= 1)%Q).
    { split; [ apply Qle_shift_div_l | apply Qle_shift_div_r ]; lra. }
    split.
    + split; [ apply Q.le_max_l | apply Q.max_lub; lra ].
    + eexists. split; [ reflexivity | exact T ].
  - split.
    + split; [ apply Q.le_max_l | apply Q.max_lub; lra ].
    + eexists. split; [ reflexivity | lra ].
Qed.

Lemma inline_reveal_in_range_witness :
  let s := onUpdate (1 # 2) 3 20 in
  (0 <= word_opacity s /\ word_opacity s <= 1)%Q
  /\ (0 <= background_alpha s /\ background_alpha s <= 1)%Q
  /\ exists base : Q,
       text_write s = SetPow base (5 # 10) /\ (0 <= base /\ base <= 1)%Q.
Proof.
  apply (inline_reveal_in_range (1 # 2) 3 20).
  - vm_compute; reflexivity.
  - lia.
Defined.

(** The three cases of [reverseWordProgress]: before the window of the
    word, after it, and inside it. *)
Lemma reverse_cases (progress : Q) (index totalWords : Z) :
  (0 <= index < totalWords)%Z ->
  let rp := ((progress - (7 # 10)) / (3 # 10))%Q in
  let rwp := reverseWordProgress progress index totalWords in
  ((rp < reverse_start index totalWords)%Q /\ rwp = 0%Q)
  \/ ((reverse_end index totalWords < rp)%Q /\ rwp = 1%Q)
  \/ ((reverse_start index totalWords <= rp)%Q
      /\ (rp <= reverse_end index totalWords)%Q
      /\ (rwp * 5 == progress * (inject_Z totalWords + 4) - inject_Z index)%Q).
Proof.
  intros Hi rp rwp. unfold rwp, reverse_start, reverse_end.
  rewrite !inject_Z_plus.
  change (inject_Z 4) with 4%Q. change (inject_Z 5) with 5%Q.
  unfold reverseWordProgress, Scroll.Qltb. cbv zeta. fold rp.
  assert (N : (0 < inject_Z totalWords)%Q) by (apply inject_Z_pos; lia).
  set (n := inject_Z totalWords) in *.
  set (i := inject_Z index) in *.
  assert (E1 : ((n - 1) / n + 5 / n == (n + 4) / n)%Q) by (field; lra).
  assert (G1 : (1 <= (n + 4) / n)%Q)
    by (apply Qle_shift_div_l; [ exact N | lra ]).
  assert (M : (Qmax 1 ((n - 1) / n + 5 / n) == (n + 4) / n)%Q).
  { rewrite E1. apply Q.max_r. exact G1. }
  set (m := Qmax 1 ((n - 1) / n + 5 / n)) in *.
  assert (S : (i / n * (1 / m) == i / (n + 4))%Q).
  { rewrite M. field. split; lra. }
  assert (E : ((i / n + 5 / n) * (1 / m) == (i + 5) / (n + 4))%Q).
  { rewrite M. field. split; lra. }
  set (rs := (i / n * (1 / m))%Q) in *.
  set (re := ((i / n + 5 / n) * (1 / m))%Q) in *.
  destruct (Qgtb_spec rs rp) as [[-> C] | [-> L]].
  { left. split; [ rewrite <- S; exact C | reflexivity ]. }
  destruct (Qgtb_spec rp re) as [[-> C] | [-> U]].
  { right; left. split; [ rewrite <- E; exact C | reflexivity ]. }
  right; right.
  split; [ rewrite <- S; exact L | ].
  split; [ rewrite <- E; exact U | ].
  assert (D : (re - rs == 5 / (n + 4))%Q).
  { rewrite S, E. field. lra. }
  rewrite D, S. field. lra.
Qed.

(** Inside the window the value is at least 0.7, and above 1 for every
    word but the last three. *)
Lemma reverse_inside (progress : Q) (index totalWords : Z) (rwp : Q) :
  (0 <= index < totalWords)%Z ->
  (reverse_start index totalWords <= (progress - (7 # 10)) / (3 # 10))%Q ->
  (rwp * 5 == progress * (inject_Z totalWords + 4) - inject_Z index)%Q ->
  (7 # 10 <= progress)%Q
  /\ (7 # 10 <= rwp)%Q
  /\ ((index + 4 <= totalWords)%Z -> (1 < rwp)%Q).
Proof.
  intros Hi L W.
  assert (N : (0 < inject_Z totalWords)%Q) by (apply inject_Z_pos; lia).
  assert (I0 : (0 <= inject_Z index)%Q)
    by (change 0%Q with (inject_Z 0); rewrite <- Zle_Qle; lia).
  assert (I1 : (inject_Z index + 1 <= inject_Z totalWords)%Q).
  { change 1%Q with (inject_Z 1). rewrite <- inject_Z_plus, <- Zle_Qle. lia. }
  assert (I4 : (index + 4 <= totalWords)%Z ->
               (inject_Z index + 4 <= inject_Z totalWords)%Q).
  { intro H. change 4%Q with (inject_Z 4).
    rewrite <- inject_Z_plus, <- Zle_Qle. exact H. }
  unfold reverse_start in L. rewrite inject_Z_plus in L.
  change (inject_Z 4) with 4%Q in L.
  set (n := inject_Z totalWords) in *.
  set (i := inject_Z index) in *.
  assert (A : (0 <= i / (n + 4))%Q).
  { apply Qle_shift_div_l; [ lra | ]. rewrite Qmult_0_l. exact I0. }
  assert (P7 : (7 # 10 <= progress)%Q).
  { destruct (Qlt_le_dec progress (7 # 10)) as [C | C]; [ | exact C ].
    assert (B : ((progress - (7 # 10)) / (3 # 10) < 0)%Q)
      by (apply Qlt_shift_div_r; lra).
    lra. }
  assert (P : (i * (3 # 10) <= progress * (n + 4) - (7 # 10) * (n + 4))%Q).
  { apply (Qmult_le_compat_r _ _ (n + 4)) in L; [ | lra ].
    assert (E1 : (i / (n + 4) * (n + 4) == i)%Q) by (field; lra).
    assert (E2 : ((progress - (7 # 10)) / (3 # 10) * (n + 4)
                  == (progress * (n + 4) - (7 # 10) * (n + 4)) / (3 # 10))%Q)
      by field.
    rewrite E1, E2 in L.
    apply (Qmult_le_compat_r _ _ (3 # 10)) in L; [ | lra ].
    assert (E3 : ((progress * (n + 4) - (7 # 10) * (n + 4)) / (3 # 10) * (3 # 10)
                  == progress * (n + 4) - (7 # 10) * (n + 4))%Q) by field.
    rewrite E3 in L. exact L. }
  set (X := (progress * (n + 4))%Q) in *.
  split; [ exact P7 | ]. split; [ lra | ].
  intro H4. specialize (I4 H4). lra.
Qed.

(** X25.  In the reverse phase the inline callback divides [progress],
    not [reverseProgress], by the length of the window of the word.  While
    the reverse progress is well inside the window of a word (one
    (n+4)-th away from either end), the value written as background alpha
    is above 1 and the text opacity is negative, for every word but the
    last three. *)
Theorem inline_reverse_overshoots (progress : Q) (index totalWords : Z) :
  (0 <= index)%Z -> (index + 4 <= totalWords)%Z ->
  (inject_Z (index + 1) / inject_Z (totalWords + 4)
   <= (progress - (7 # 10)) / (3 # 10))%Q ->
  ((progress - (7 # 10)) / (3 # 10)
   <= inject_Z (index + 4) / inject_Z (totalWords + 4))%Q ->
  let s := onUpdate progress index totalWords in
  (1 < background_alpha s)%Q
  /\ exists v : Q, text_write s = SetValue v /\ (v < 0)%Q.
Proof.
  intros H0 H4 L U. cbv zeta.
  assert (Hi : (0 <= index < totalWords)%Z) by lia.
  assert (D : (0 < inject_Z (totalWords + 4))%Q) by (apply inject_Z_pos; lia).
  assert (L' : (reverse_start index totalWords
                <= (progress - (7 # 10)) / (3 # 10))%Q).
  { apply Qle_trans with (2 := L). unfold reverse_start.
    apply Qdiv_le_mono; [ exact D | ]. rewrite <- Zle_Qle. lia. }
  assert (U' : ((progress - (7 # 10)) / (3 # 10)
                <= reverse_end index totalWords)%Q).
  { apply Qle_trans with (1 := U). unfold reverse_end.
    apply Qdiv_le_mono; [ exact D | ]. rewrite <- Zle_Qle. lia. }
  destruct (reverse_cases progress index totalWords Hi)
    as [[C _] | [[C _] | (_ & _ & W)]]; cbv zeta in *; [ lra | lra | ].
  destruct (reverse_inside progress index totalWords _ Hi L' W)
    as (P7 & _ & R1).
  specialize (R1 H4).
  unfold onUpdate, Scroll.Qltb.
  destruct (Qgtb_spec (7 # 10) progress) as [[_ C] | [-> _]]; [ lra | ].
  cbv zeta.
  set (rwp := reverseWordProgress progress index totalWords) in *.
  destruct (Qgtb_spec rwp 0) as [[-> _] | [_ C]]; [ | lra ].
  cbn [background_alpha text_write].
  split; [ exact R1 | ].
  eexists. split; [ reflexivity | lra ].
Qed.

(** Twenty words, the first one, a progress of 0.73: the reverse progress
    is 0.1, between 1/24 and 4/24. *)
Lemma inline_reverse_overshoots_witness :
  let s := onUpdate (73 # 100) 0 20 in
  (1 < background_alpha s)%Q
  /\ exists v : Q, text_write s = SetValue v /\ (v < 0)%Q.
Proof.
  apply (inline_reverse_overshoots (73 # 100) 0 20).
  - lia.
  - lia.
  - vm_compute; discriminate.
  - vm_compute; discriminate.
Defined.

(** X26.  In the reverse phase the inline callback never fades a word
    gradually: the word stays at opacity 1, and either the background
    alpha is 0 and no style of the text is written (the else branch
    assigns [wordText.opacity], which is no style), or the background
    alpha is above 0.69 and the text opacity below 0.31 (the exact bounds
    0.7 and 0.3 are left a margin, which the rounding of the source's
    arithmetic cannot cross). *)
Theorem inline_reverse_jumps (progress : Q) (index totalWords : Z) :
  (7 # 10 <= progress)%Q ->
  (0 <= index < totalWords)%Z ->
  let s := onUpdate progress index totalWords in
  (word_opacity s == 1)%Q
  /\ ((background_alpha s == 0)%Q /\ text_write s = NoStyle
      \/ (69 # 100 < background_alpha s)%Q
         /\ exists v : Q, text_write s = SetValue v /\ (v < 31 # 100)%Q).
Proof.
  intros P7 Hi. cbv zeta.
  unfold onUpdate, Scroll.Qltb.
  destruct (Qgtb_spec (7 # 10) progress) as [[_ C] | [-> _]]; [ lra | ].
  cbv zeta.
  destruct (reverse_cases progress index totalWords Hi)
    as [[_ R] | [[_ R] | (L & _ & W)]]; cbv zeta in *.
  - rewrite R. cbn. split; [ reflexivity | left; split; reflexivity ].
  - rewrite R. cbn. split; [ reflexivity | right ].
    split; [ lra | eexists; split; [ reflexivity | lra ] ].
  - destruct (reverse_inside progress index totalWords _ Hi L W)
      as (_ & R7 & _).
    set (rwp := reverseWordProgress progress index totalWords) in *.
    destruct (Qgtb_spec rwp 0) as [[-> _] | [_ C]]; [ | lra ].
    cbn [word_opacity background_alpha text_write].
    split; [ reflexivity | right ].
    split; [ lra | eexists; split; [ reflexivity | lra ] ].
Qed.

Lemma inline_reverse_jumps_witness :
  let s := onUpdate (8 # 10) 19 20 in
  (word_opacity s == 1)%Q
  /\ ((background_alpha s == 0)%Q /\ text_write s = NoStyle
      \/ (69 # 100 < background_alpha s)%Q
         /\ exists v : Q, text_write s = SetValue v /\ (v < 31 # 100)%Q).
Proof.
  apply (inline_reverse_jumps (8 # 10) 19 20).
  - vm_compute; discriminate.
  - lia.
Defined.

End ScrollInlineStyle.

(* ===================================================================== *)
(** * The progress bar of [PreloaderComponent] *)
(* ===================================================================== *)

Section ProgressBar.

Import Progress.

Lemma Qmin_step (cur r : Q) :
  (0 <= r -> r < 1 -> cur <= 9 # 10 ->
   cur <= Qmin (cur + r * (3 # 10) + (1 # 10)) (9 # 10)
   /\ Qmin (cur + r * (3 # 10) + (1 # 10)) (9 # 10) <= 9 # 10
   /\ Qmin cur (8 # 10) + (1 # 10)
      <= Qmin (cur + r * (3 # 10) + (1 # 10)) (9 # 10))%Q.
Proof.
  intros R0 R1 C.
  split; [ apply Q.min_glb; lra | ].
  split; [ apply Q.le_min_r | ].
  apply Q.min_glb.
  - pose proof (Q.le_min_l cur (8 # 10)). lra.
  - pose proof (Q.le_min_r cur (8 # 10)). lra.
Qed.

(** X19.  With GSAP the progress bar gets exactly five tweens of a fifth
    of the duration each.  Whatever [Math.random] returns, the targets
    never go down, the first four stay at or below 0.9 with the k-th at
    least k/10, and the fifth is exactly 1. *)
Theorem progress_targets_ascend (random : nat -> Q) (d : Q) :
  is_random random ->
  exists t1 t2 t3 t4 : Q,
    map scaleX (animateProgress random d) = [t1; t2; t3; t4; 1%Q]
    /\ map duration (animateProgress random d) =
         [(d / 5)%Q; (d / 5)%Q; (d / 5)%Q; (d / 5)%Q; (d / 5)%Q]
    /\ ((1 # 10) <= t1 /\ t1 <= t2 /\ t2 <= t3 /\ t3 <= t4 /\ t4 <= 9 # 10)%Q
    /\ ((2 # 10) <= t2 /\ (3 # 10) <= t3 /\ (4 # 10) <= t4)%Q.
Proof.
  intro R. unfold animateProgress. cbn [animateProgress_from Nat.eqb Nat.sub map scaleX duration].
  do 4 eexists. split; [ reflexivity | ]. split; [ reflexivity | ].
  destruct (R 0%nat) as [A0 A1]. destruct (R 1%nat) as [B0 B1].
  destruct (R 2%nat) as [C0 C1]. destruct (R 3%nat) as [D0 D1].
  set (t1 := Qmin (0 + random 0%nat * (3 # 10) + (1 # 10)) (9 # 10)).
  set (t2 := Qmin (t1 + random 1%nat * (3 # 10) + (1 # 10)) (9 # 10)).
  set (t3 := Qmin (t2 + random 2%nat * (3 # 10) + (1 # 10)) (9 # 10)).
  set (t4 := Qmin (t3 + random 3%nat * (3 # 10) + (1 # 10)) (9 # 10)).
  assert (H1 : (0 <= 9 # 10)%Q) by lra.
  destruct (Qmin_step 0 (random 0%nat) A0 A1 H1) as (L1 & U1 & G1). fold t1 in L1, U1, G1.
  destruct (Qmin_step t1 (random 1%nat) B0 B1 U1) as (L2 & U2 & G2). fold t2 in L2, U2, G2.
  destruct (Qmin_step t2 (random 2%nat) C0 C1 U2) as (L3 & U3 & G3). fold t3 in L3, U3, G3.
  destruct (Qmin_step t3 (random 3%nat) D0 D1 U3) as (L4 & U4 & G4). fold t4 in L4, U4, G4.
  assert (M0 : (Qmin 0 (8 # 10) == 0)%Q) by (apply Q.min_l; lra).
  assert (K1 : ((1 # 10) <= t1)%Q) by lra.
  assert (M1 : ((1 # 10) <= Qmin t1 (8 # 10))%Q) by (apply Q.min_glb; lra).
  assert (K2 : ((2 # 10) <= t2)%Q) by lra.
  assert (M2 : ((2 # 10) <= Qmin t2 (8 # 10))%Q) by (apply Q.min_glb; lra).
  assert (K3 : ((3 # 10) <= t3)%Q) by lra.
  assert (M3 : ((3 # 10) <= Qmin t3 (8 # 10))%Q) by (apply Q.min_glb; lra).
  assert (K4 : ((4 # 10) <= t4)%Q) by lra.
  repeat split; assumption.
Qed.

Lemma progress_targets_ascend_witness :
  exists t1 t2 t3 t4 : Q,
    map scaleX (animateProgress (fun _ => 1 # 2) 4) = [t1; t2; t3; t4; 1%Q]
    /\ ((1 # 10) <= t1 /\ t1 <= t2 /\ t2 <= t3 /\ t3 <= t4 /\ t4 <= 9 # 10)%Q.
Proof.
  assert (R : is_random (fun _ => 1 # 2))
    by (intro k; split; vm_compute; [ discriminate | reflexivity ]).
  destruct (progress_targets_ascend (fun _ => 1 # 2) 4 R)
    as (t1 & t2 & t3 & t4 & E & _ & B & _).
  exists t1, t2, t3, t4. split; assumption.
Defined.


Lemma ascending_snoc (l : list Q) (x : Q) :
  ascending l -> Forall (fun v => (v <= x)%Q) l -> ascending (l ++ [x]).
Proof.
  induction l as [| a l IH]; cbn [app ascending]; intros A F.
  - split; exact Logic.I.
  - destruct A as [A1 A2]. inversion F as [| ? ? Fa Fl]; subst.
    split; [ | apply IH; assumption ].
    destruct l as [| b l]; cbn [app]; [ exact Fa | exact A1 ].
Qed.

Lemma Qdiv_100_mono (a b : Q) : (a <= b -> a / 100 <= b / 100)%Q.
Proof. intro H. apply Qdiv_le_mono; [ reflexivity | exact H ]. Qed.

Lemma fallback_tick_inv (r : Q) (j : nat) (s : Fallback) :
  (0 <= r)%Q -> (r < 1)%Q ->
  fallback_inv j s -> fallback_inv (S j) (fallback_tick r s).
Proof.
  intros R0 R1 (Hp & Ha & Hf & Hi).
  unfold fallback_tick.
  destruct (interval s) eqn:Ei.
  - destruct Hi as (Hl & Hr & Hlt & Hlo & Hhi).
    set (q := (progress s + 100 / 50 * ((8 # 10) + r * (4 # 10)))%Q).
    assert (Hq1 : (progress s + (16 # 10) <= q)%Q)
      by (unfold q; assert ((100 / 50 == 2)%Q) as -> by reflexivity; lra).
    assert (Hq2 : (q <= progress s + (24 # 10))%Q)
      by (unfold q; assert ((100 / 50 == 2)%Q) as -> by reflexivity; lra).
    assert (Sj : (inject_Z (Z.of_nat (S j)) == inject_Z (Z.of_nat j) + 1)%Q).
    { rewrite Nat2Z.inj_succ. unfold Z.succ. rewrite inject_Z_plus. reflexivity. }
    assert (Hmono : (progress s <= Qmin q 100)%Q) by (apply Q.min_glb; lra).
    assert (Hpos : (0 < Qmin q 100)%Q) by (apply Q.min_glb_lt; lra).
    assert (Hrep : ascending (reported s ++ [(Qmin q 100 / 100)%Q])
                   /\ Forall (fun v => (0 < v /\ v <= Qmin q 100 / 100)%Q)
                             (reported s ++ [(Qmin q 100 / 100)%Q])).
    { split.
      - apply ascending_snoc; [ exact Ha | ].
        eapply Forall_impl; [ | exact Hf ]. cbn. intros v [_ Hv].
        apply (Qle_trans _ _ _ Hv). apply Qdiv_100_mono, Hmono.
      - apply Forall_app. split.
        + eapply Forall_impl; [ | exact Hf ]. cbn. intros v [Hv0 Hv].
          split; [ exact Hv0 | ].
          apply (Qle_trans _ _ _ Hv). apply Qdiv_100_mono, Hmono.
        + constructor; [ | constructor ].
          split; [ apply Qlt_shift_div_l; lra | apply Qle_refl ]. }
    destruct Hrep as [Hasc Hall].
    destruct (Qle_bool 100 (Qmin q 100)) eqn:Ed;
      unfold fallback_inv;
      cbn [progress interval resolved reported].
    + apply Qle_bool_iff in Ed.
      pose proof (Q.le_min_r q 100) as Hm.
      split; [ split; [ lra | exact Hm ] | ].
      split; [ exact Hasc | ]. split; [ exact Hall | ].
      split; [ rewrite Hr; reflexivity | ].
      split; [ apply Qle_antisym; assumption | ].
      rewrite length_app, Hl. cbn [List.length].
      assert (Hq100 : (100 <= q)%Q).
      { destruct (Q.min_spec q 100) as [[_ E] | [H _]]; [ rewrite E in Ed | ]; assumption. }
      assert (J1 : (42 <= j + 1)%nat).
      { destruct (Nat.le_gt_cases 41 j) as [G | G]; [ lia | ].
        assert (Hj : (inject_Z (Z.of_nat j) <= 40)%Q).
        { change 40%Q with (inject_Z 40). rewrite <- Zle_Qle. lia. }
        lra. }
      assert (J2 : (j + 1 <= 63)%nat).
      { destruct (Nat.le_gt_cases j 62) as [G | G]; [ lia | ].
        assert (Hj : (63 <= inject_Z (Z.of_nat j))%Q).
        { change 63%Q with (inject_Z 63). rewrite <- Zle_Qle. lia. }
        lra. }
      lia.
    + assert (Hlt' : (Qmin q 100 < 100)%Q).
      { apply Qnot_le_lt. intro H. apply Qle_bool_iff in H.
        rewrite H in Ed. discriminate Ed. }
      assert (Eq : (Qmin q 100 == q)%Q).
      { destruct (Q.min_spec q 100) as [[_ E] | [_ E]]; [ exact E | ].
        rewrite E in Hlt'. lra. }
      split; [ split; [ lra | lra ] | ].
      split; [ exact Hasc | ]. split; [ exact Hall | ].
      split; [ rewrite length_app, Hl; cbn; lia | ].
      split; [ exact Hr | ].
      split; [ exact Hlt' | ].
      rewrite Eq, Sj. split; lra.
  - unfold fallback_inv. rewrite Ei.
    destruct Hi as (Hr & He & [Hl1 Hl2] & Hj). destruct Hp as [Hp0 Hp1].
    repeat split; try assumption; lia.
Qed.

Lemma fallback_run_inv (random : nat -> Q) :
  is_random random ->
  forall n k j s,
    fallback_inv j s ->
    fallback_inv (j + n) (fallback_run random k n s).
Proof.
  intros R n. induction n as [| n IH]; intros k j s Inv; cbn [fallback_run].
  - rewrite Nat.add_0_r. exact Inv.
  - rewrite Nat.add_succ_r. apply (IH (S k) (S j)).
    destruct (R k) as [R0 R1]. apply fallback_tick_inv; assumption.
Qed.

Lemma fallback_start_inv : fallback_inv 0 fallback_start.
Proof.
  unfold fallback_inv, fallback_start; cbn.
  repeat split; try constructor; try lra; vm_compute; try discriminate; reflexivity.
Qed.

(** X20.  Without GSAP the progress bar is driven by an interval.
    Whatever [Math.random] returns, the interval is still running after 41
    firings and is cleared, with the promise resolved exactly once and the
    progress at exactly 100, after 63; the promise is never resolved
    twice.  The values written to the bar never go down and lie above 0
    and at most at 1. *)
Theorem fallback_progress_completes (random : nat -> Q) (n : nat) :
  is_random random ->
  let s := fallback_run random 0 n fallback_start in
  ((n <= 41)%nat -> interval s = true /\ resolved s = 0%nat)
  /\ ((63 <= n)%nat ->
      interval s = false /\ resolved s = 1%nat /\ (progress s == 100)%Q
      /\ (42 <= List.length (reported s) <= 63)%nat)
  /\ (resolved s <= 1)%nat
  /\ ascending (reported s)
  /\ Forall (fun v => (0 < v /\ v <= 1)%Q) (reported s).
Proof.
  intros R s.
  pose proof (fallback_run_inv random R n 0%nat 0%nat fallback_start
                fallback_start_inv) as Inv.
  cbn [Nat.add] in Inv. fold s in Inv.
  destruct Inv as ([P0 P1] & Ha & Hf & Hi).
  assert (Hunit : Forall (fun v => (0 < v /\ v <= 1)%Q) (reported s)).
  { eapply Forall_impl; [ | exact Hf ]. cbn. intros v [V0 V1].
    split; [ exact V0 | ].
    apply (Qle_trans _ _ _ V1). apply Qle_shift_div_r; lra. }
  destruct (interval s) eqn:Ei.
  - destruct Hi as (Hl & Hr & Hlt & Hlo & Hhi).
    split; [ intros _; split; [ reflexivity | exact Hr ] | ].
    split.
    + intro Hn. exfalso.
      assert (Hj : (63 <= inject_Z (Z.of_nat n))%Q).
      { change 63%Q with (inject_Z 63). rewrite <- Zle_Qle. lia. }
      lra.
    + split; [ lia | split; assumption ].
  - destruct Hi as (Hr & He & Hl & Hj).
    split; [ intro Hn; lia | ].
    split; [ intros _; repeat split; try assumption; lia | ].
    split; [ lia | split; assumption ].
Qed.

Lemma fallback_progress_completes_witness :
  let s := fallback_run (fun _ => 1 # 2) 0 63 fallback_start in
  interval s = false /\ resolved s = 1%nat /\ (progress s == 100)%Q.
Proof.
  assert (R : is_random (fun _ => 1 # 2))
    by (intro k; split; vm_compute; [ discriminate | reflexivity ]).
  destruct (fallback_progress_completes (fun _ => 1 # 2) 63 R) as (_ & H & _).
  destruct (H (le_n 63)) as (A & B & C & _).
  cbv zeta. repeat split; assumption.
Defined.

End ProgressBar.

(* ===================================================================== *)
(** * The application *)
(* ===================================================================== *)

Section Application.

Import App.

(** [init] and events leave the tweens of the host alone. *)
Lemma init_tweens (m : Machine) (now1 now2 : Q) :
  Pristine m \/ Running m ->
  exists m',
    init now1 now2 m = Normal tt m'
    /\ (if has_canvas (host m) then Running m' else m' = m)
    /\ tweens (host m') = tweens (host m)
    /\ has_canvas (host m') = has_canvas (host m).
Proof.
  intros [P | R].
  - destruct m as [fg [gc w h ls raf con g rv tw]].
    destruct P as (Hfg & Hls & Hraf & Hg); cbn in Hfg, Hls, Hraf, Hg; subst.
    destruct gc as [children |].
    + run_js. destruct (Qgtb (now2 - 0) 100); eexists;
        (split; [ reflexivity | repeat split ]).
    + eexists. split; [ reflexivity | repeat split ].
  - exists m. split; [ apply init_guard, running_initialized, R | ].
    split; [ | split; reflexivity ].
    destruct (has_canvas (host m)); [ exact R | reflexivity ].
Qed.

Lemma dispatch_tweens (m : Machine) (ev : Event) :
  Pristine m \/ Running m ->
  exists m',
    dispatch ev m = Normal tt m'
    /\ (Pristine m -> Pristine m')
    /\ (Running m -> Running m')
    /\ tweens (host m') = tweens (host m)
    /\ has_canvas (host m') = has_canvas (host m).
Proof.
  intros [P | R].
  - destruct (dispatch_pristine m ev P) as (m' & E & P' & Hc).
    exists m'. split; [ exact E | ]. split; [ intros _; exact P' | ].
    split; [ intro R; destruct (pristine_not_running m P R) | ].
    split; [ | exact Hc ].
    destruct m as [fg [gc w h ls raf con g rv tw]].
    destruct P as (Hfg & Hls & Hraf & Hg); cbn in Hfg, Hls, Hraf, Hg; subst.
    destruct ev; cbn in E; injection E as <-; reflexivity.
  - destruct (dispatch_running m ev R) as (m' & E & R' & _).
    exists m'. split; [ exact E | ].
    split; [ intro P; destruct (pristine_not_running m P R) | ].
    split; [ intros _; exact R' | ].
    split; [ | exact (dispatch_canvas m m' ev R E) ].
    destruct ev as [x y rect now | | w h | now1 now2].
    + destruct (mousemove_step m x y rect now R) as (fu & _ & E').
      rewrite E in E'. injection E' as ->. reflexivity.
    + destruct (mouseleave_step m R) as (fu & _ & E').
      rewrite E in E'. injection E' as ->. reflexivity.
    + destruct (resize_step m w h R) as (r & fu & du & _ & _ & _ & E').
      rewrite E in E'. injection E' as ->. cbn [host].
      destruct (host m); reflexivity.
    + destruct (frame_step m now1 now2 R)
        as (m2 & fu & du & E' & _ & _ & _ & _ & _ & _ & _ & _ & _ & _ & Hh).
      rewrite E in E'. injection E' as <-. rewrite Hh.
      destruct (host m); reflexivity.
Qed.

Lemma keyword_is_not_word (k : string) :
  Text.includes Text.keywords k = true -> String.eqb "word" k = false.
Proof.
  unfold Text.includes, Text.keywords. cbn [existsb].
  intro H. repeat (apply orb_true_iff in H; destruct H as [H | H]);
    try discriminate H;
    apply String.eqb_eq in H; subst k; reflexivity.
Qed.

(** A word container is a [.word], has no [.word] below it and has a
    [span]. *)
Lemma word_element_shape (n : Text.Node) :
  Text.WordElement n ->
  is_word n = true
  /\ descendants is_word n = []
  /\ descendants is_span n <> [].
Proof.
  intros (word & _ & _ & H).
  destruct (Text.includes Text.keywords (Text.normalize word)) eqn:K; subst n.
  - assert (Hs : is_word (Text.Element "span"
                            ["keyword"%string; Text.normalize word]
                            [Text.TextNode word]) = false).
    { unfold is_word. cbn [existsb].
      rewrite (keyword_is_not_word _ K). reflexivity. }
    split; [ reflexivity | ].
    split; [ cbn [descendants]; rewrite Hs; reflexivity | discriminate ].
  - repeat split; discriminate.
Qed.

Lemma words_of_processed (children : list Text.Node) :
  Forall Text.WordElement children ->
  descendants is_word (Text.Element "p" [] children) = children
  /\ forallb (fun word => match descendants is_span word with
                          | [] => false
                          | _ => true
                          end) children = true.
Proof.
  induction 1 as [| n l Hn Hl [IHw IHs]]; [ split; reflexivity | ].
  destruct (word_element_shape n Hn) as (W & D & S).
  cbn [descendants] in IHw |- *. split.
  - rewrite W. cbn [app].
    change (descendants is_word n) with (descendants is_word n).
    rewrite D. cbn [app]. f_equal. exact IHw.
  - cbn [forallb]. rewrite IHs.
    destruct (descendants is_span n); [ contradiction | reflexivity ].
Qed.


Lemma words_processed (c : Container) :
  Forall (Forall Text.WordElement) (paragraphs c) ->
  words c = List.concat (paragraphs c)
  /\ forallb (fun word => match descendants is_span word with
                          | [] => false
                          | _ => true
                          end) (words c) = true.
Proof.
  unfold words.
  induction 1 as [| p ps Hp Hps [IHw IHs]]; [ split; reflexivity | ].
  destruct (words_of_processed p Hp) as [W S].
  cbn [flat_map List.concat]. rewrite W.
  split; [ rewrite IHw; reflexivity | ].
  rewrite forallb_app, S, IHs. reflexivity.
Qed.

Lemma words_paragraphs (c c' : Container) :
  paragraphs c = paragraphs c' -> words c = words c'.
Proof. unfold words. intros ->. reflexivity. Qed.

Lemma processed_paragraphs (ps : list (list Text.Node)) :
  Forall (Forall Text.WordElement) (Text.processTextElements ps).
Proof.
  unfold Text.processTextElements. apply Forall_map.
  apply Forall_forall. intros p _.
  destruct (paragraph_words_elements p) as [H _]. exact H.
Qed.


Lemma setup_processed (h : Z) (cts : list Container) :
  forall i,
    Forall (fun c => Forall (Forall Text.WordElement) (paragraphs c)) cts ->
    setupContainers h i cts =
      Some (map (fun c => mkContainer (paragraphs c)
                            (repeat initial_style (List.length (words c)))
                            (Some (List.length (words c)))) cts,
            map (fun j => ScrollTriggerCreate j (h * 3))
                (seq i (List.length cts))).
Proof.
  induction cts as [| c cts IH]; intros i F; [ reflexivity | ].
  inversion F as [| ? ? Fc Fcts]; subst.
  cbn [setupContainers]. unfold setupContainer.
  destruct (words_processed c Fc) as [_ Hspan]. rewrite Hspan.
  rewrite (IH (S i) Fcts). reflexivity.
Qed.

(** [TextAnimation.init] never raises, leaves the text processed exactly
    once and touches nothing else. *)
Lemma text_init_once (cs : list (list (list Text.Node)))
    (loose : list (list Text.Node)) (s : State) :
  TextOnce cs loose s ->
  exists s',
    textAnimation_init s = Normal tt s'
    /\ TextOnce cs loose s'
    /\ textInitialized s' = true
    /\ shell s' = shell s.
Proof.
  destruct s as [g ti p ts lc [pc pa mc bo cts lp]].
  unfold TextOnce; cbn [textInitialized dom containers looseParagraphs libCalls].
  destruct ti.
  - intro T. eexists. split; [ reflexivity | ]. cbn. repeat split; exact T || apply T.
  - intros (Hc & Hl & Ht & Hcalls). subst lc lp.
    cbv [textAnimation_init bind gets call initSmoothScrolling ret
         processTextElements setupScrollAnimations document modify
         textInitialized libCalls dom containers looseParagraphs set_libCalls
         set_dom set_containers set_looseParagraphs gradient app
         set_textInitialized].
    rewrite setup_processed.
    + eexists. split; [ reflexivity | ].
      cbn [textInitialized set_textInitialized dom containers looseParagraphs
           libCalls set_libCalls set_dom set_containers shell gradient preloader
           timers preloaderClasses preloaderAttached mainContentClasses
           bodyOverflow app].
      split; [ | split; reflexivity ].
      split; [ | split; [ reflexivity | split ] ].
      * rewrite !map_map. cbn [paragraphs]. rewrite <- Hc, map_map. reflexivity.
      * apply Forall_map, Forall_map, Forall_forall. intros c _.
        cbn [trigger wordStyles]. rewrite repeat_length. split; reflexivity.
      * exists (innerHeight (host g)). unfold init_calls.
        rewrite length_map, <- Hc, length_map. reflexivity.
    + apply Forall_map, Forall_forall. intros c _. cbn [paragraphs].
      apply processed_paragraphs.
Qed.


(** Evaluation of the application's own steps on a state whose fields are
    known; [init], [dispatch] and the text stay folded. *)
Ltac run_app :=
  cbv [input inputs skipAnimation completeAnimation onComplete console_log
       setTimeout document call onGradient onPreloader fire revealer_done
       bind gets modify ret throw effect
       gradient textInitialized preloader timers libCalls dom
       set_gradient set_textInitialized set_timers set_libCalls set_dom
       preloaderClasses preloaderAttached mainContentClasses bodyOverflow
       containers looseParagraphs
       set_preloaderClasses set_preloaderAttached set_mainContentClasses
       set_bodyOverflow set_containers set_looseParagraphs
       Preloader.preloader Preloader.mainContent
       this host set_console set_tweens console tweens].

Ltac destruct_state s :=
  destruct s as [[?fg [?gc ?w ?h ?ls ?raf ?con ?g ?rv ?tw]] ?ti [?pre ?mcf]
                 ?ts ?lc [?pc ?pa ?mc ?bo ?cts ?lp]].

Ltac keep_sound G T :=
  split; [ destruct G as [G | G]; [ left; exact G | right; exact G ]
         | exact T ].

(** [completeAnimation] never raises and schedules the two inits (and the
    removal of the preloader, when there is one). *)
Lemma complete_sound (cs : list (list (list Text.Node)))
    (loose : list (list Text.Node)) (s : State) :
  Sound cs loose s ->
  exists s',
    completeAnimation s = Normal tt s'
    /\ Sound cs loose s'
    /\ timers s' =
         timers s
         ++ (if Preloader.preloader (preloader s) then [RemovePreloader] else [])
         ++ [InitGradient; InitText]
    /\ textInitialized s' = textInitialized s
    /\ has_canvas (host (gradient s')) = has_canvas (host (gradient s))
    /\ (Preloader.preloader (preloader s) = true ->
        In "hidden"%string (preloaderClasses (dom s'))).
Proof.
  destruct_state s. intros [G T].
  destruct pre, mcf; run_app; eexists;
    (split; [ reflexivity | ]);
    (split; [ keep_sound G T | ]);
    (split; [ cbn [app]; rewrite <- ?app_assoc; reflexivity | ]);
    (split; [ reflexivity | ]);
    (split; [ reflexivity | ]);
    intro F; try discriminate F.
  all: unfold Text.classList_add;
    destruct (existsb (String.eqb "hidden") pc) eqn:E;
    [ apply existsb_exists in E; destruct E as (x & Hin & Hx);
      apply String.eqb_eq in Hx; subst x; exact Hin
    | apply in_or_app; right; left; reflexivity ].
Qed.


Lemma update_nth_map {A B} (g : A -> B) (f : A -> A) (l : list A) :
  (forall a, g (f a) = g a) ->
  forall k, map g (update_nth k f l) = map g l.
Proof.
  intro H. induction l as [| a l IH]; intros [| k]; cbn; try reflexivity.
  - rewrite H. reflexivity.
  - rewrite IH. reflexivity.
Qed.

Lemma update_nth_Forall {A} (P : A -> Prop) (f : A -> A) (l : list A) :
  (forall a, P a -> P (f a)) ->
  forall k, Forall P l -> Forall P (update_nth k f l).
Proof.
  intro H. induction l as [| a l IH]; intros [| k] F; cbn;
    inversion F; subst; constructor; auto.
Qed.

Lemma restyle_paragraphs (progress : Q) (ct : Container) :
  paragraphs (restyle progress ct) = paragraphs ct.
Proof. unfold restyle. destruct (trigger ct); reflexivity. Qed.

Lemma scroll_sound (cs : list (list (list Text.Node)))
    (loose : list (list Text.Node)) (c : nat) (progress : Q) (s : State) :
  Sound cs loose s ->
  exists s',
    input (ScrollUpdate c progress) s = Normal tt s'
    /\ Sound cs loose s'
    /\ shell s' = shell s
    /\ textInitialized s' = textInitialized s.
Proof.
  destruct_state s. intros [G T].
  eexists. split; [ reflexivity | ].
  split; [ | split; reflexivity ].
  split; [ destruct G as [G | G]; [ left; exact G | right; exact G ] | ].
  revert T. unfold TextOnce.
  cbn [textInitialized dom containers looseParagraphs libCalls set_dom
       set_containers].
  destruct ti; intros (Hp & Hl & Hf & Hc);
    (split; [ rewrite update_nth_map; [ exact Hp | apply restyle_paragraphs ] | ]);
    (split; [ exact Hl | ]); (split; [ | exact Hc ]);
    apply update_nth_Forall; [ | exact Hf | | exact Hf ].
  - intros ct [Ht Hw]. unfold restyle. rewrite Ht.
    cbn [trigger wordStyles]. unfold update_styles.
    rewrite length_map, length_seq. split; [ reflexivity | ].
    rewrite Hw. reflexivity.
  - intros ct [Ht Hw]. unfold restyle. rewrite Ht. split; assumption.
Qed.

Lemma skip_sound (cs : list (list (list Text.Node)))
    (loose : list (list Text.Node)) (s : State) :
  Sound cs loose s ->
  exists s',
    skipAnimation s = Normal tt s'
    /\ Sound cs loose s'
    /\ timers s' =
         timers s
         ++ (if Preloader.preloader (preloader s) then [RemovePreloader] else [])
         ++ [InitGradient; InitText]
    /\ textInitialized s' = textInitialized s
    /\ has_canvas (host (gradient s')) = has_canvas (host (gradient s)).
Proof.
  destruct_state s. intros [G T].
  set (s1 := mkState
               (mkMachine fg
                  (mkHost gc w h ls raf con g rv
                     (filter (fun t => negb (is_running_tween t)) tw)))
               ti (Preloader.mkPA pre mcf) ts lc (mkDom pc pa mc bo cts lp)).
  assert (S1 : Sound cs loose s1) by keep_sound G T.
  destruct (complete_sound cs loose s1 S1) as (s' & E & S' & Ht & Hi & Hc & _).
  exists s'. split; [ exact E | ].
  split; [ exact S' | ]. split; [ exact Ht | ]. split; [ exact Hi | exact Hc ].
Qed.

Lemma sound_set_timers (cs : list (list (list Text.Node)))
    (loose : list (list Text.Node)) (ts : list Timer) (s : State) :
  Sound cs loose s -> Sound cs loose (set_timers ts s).
Proof. destruct_state s. intros [G T]. keep_sound G T. Qed.

Lemma sound_set_gradient (cs : list (list (list Text.Node)))
    (loose : list (list Text.Node)) (m : Machine) (s : State) :
  Pristine m \/ Running m ->
  Sound cs loose s -> Sound cs loose (set_gradient m s).
Proof. destruct_state s. intros G' [G T]. split; [ exact G' | exact T ]. Qed.

Lemma shell_text (cs : list (list (list Text.Node)))
    (loose : list (list Text.Node)) (s s' : State) :
  shell s' = shell s ->
  Pristine (gradient s) \/ Running (gradient s) ->
  TextOnce cs loose s' -> Sound cs loose s'.
Proof.
  intros Hs G T. split; [ | exact T ].
  unfold shell in Hs. injection Hs as Hg _. rewrite Hg. exact G.
Qed.


(** A timer that fires: never an exception; the gradient is initialised by
    [InitGradient] and [InitBoth], the text by [InitText] and [InitBoth]. *)
Lemma fire_sound (cs : list (list (list Text.Node)))
    (loose : list (list Text.Node)) (t : Timer) (now1 now2 : Q) (s : State) :
  Sound cs loose s ->
  exists s',
    fire t now1 now2 s = Normal tt s'
    /\ Sound cs loose s'
    /\ timers s' = timers s
    /\ has_canvas (host (gradient s')) = has_canvas (host (gradient s))
    /\ (textInitialized s = true -> textInitialized s' = true)
    /\ (Running (gradient s) -> Running (gradient s'))
    /\ (t = InitBoth ->
        textInitialized s' = true
        /\ (has_canvas (host (gradient s)) = true -> Running (gradient s'))).
Proof.
  intros [G T].
  destruct (init_tweens (gradient s) now1 now2 G) as (m' & E & C & _ & Hc).
  assert (G' : Pristine m' \/ Running m').
  { destruct (has_canvas (host (gradient s))); [ right; exact C | ].
    subst m'. exact G. }
  assert (R' : Running (gradient s) -> Running m').
  { intro R. pose proof (init_guard (gradient s) now1 now2
                           (running_initialized _ R)) as E0.
    rewrite E in E0. injection E0 as ->. exact R. }
  assert (S1 : Sound cs loose (set_gradient m' s))
    by (apply sound_set_gradient; [ exact G' | split; assumption ]).
  destruct t.
  - destruct_state s. eexists. split; [ reflexivity | ].
    split; [ keep_sound G T | ].
    repeat split; try (intro H; exact H); discriminate.
  - exists (set_gradient m' s). unfold fire, onGradient. rewrite E.
    split; [ reflexivity | ]. split; [ exact S1 | ].
    destruct_state s. cbn in *.
    repeat split; try assumption; try (intro H; exact H); discriminate.
  - destruct (text_init_once cs loose s T) as (s' & E' & T' & I' & Sh).
    exists s'. split; [ exact E' | ].
    split; [ exact (shell_text cs loose s s' Sh G T') | ].
    unfold shell in Sh. injection Sh as Hg _ Ht _ _ _ _.
    rewrite Hg. repeat split; try assumption; try (intros; assumption);
      discriminate.
  - destruct S1 as [G1 T1].
    destruct (text_init_once cs loose (set_gradient m' s) T1)
      as (s' & E' & T' & I' & Sh).
    exists s'. unfold fire, bind, onGradient. rewrite E.
    split; [ exact E' | ].
    split; [ exact (shell_text cs loose _ s' Sh G1 T') | ].
    unfold shell in Sh. injection Sh as Hg _ Ht _ _ _ _.
    rewrite Hg, Ht. destruct_state s. cbn in *.
    repeat split; try assumption; try (intros; assumption).
    all: intros; match goal with Hcan : has_canvas _ = true |- _ =>
                   rewrite Hcan in C; exact C end.
Qed.

Lemma remove_nth_Forall {A} (P : A -> Prop) (l : list A) :
  forall k, Forall P l -> Forall P (remove_nth k l).
Proof.
  induction l as [| a l IH]; intros [| k] F; cbn; inversion F; subst;
    try constructor; auto.
Qed.

(** Every input is handled without an exception and keeps the page
    sound. *)
Lemma input_sound (cs : list (list (list Text.Node)))
    (loose : list (list Text.Node)) (i : Input) (s : State) :
  Sound cs loose s ->
  exists s',
    input i s = Normal tt s'
    /\ Sound cs loose s'
    /\ (textInitialized s = true -> textInitialized s' = true)
    /\ (Running (gradient s) -> Running (gradient s'))
    /\ has_canvas (host (gradient s')) = has_canvas (host (gradient s)).
Proof.
  intro S. destruct i as [key | k now1 now2 | k | c progress | ev].
  - unfold input. destruct (String.eqb key "Escape").
    + destruct (skip_sound cs loose s S) as (s1 & E1 & S1 & _ & Hi & Hc).
      exists (set_timers (timers s1 ++ [InitBoth]) s1).
      unfold bind. rewrite E1.
      split; [ reflexivity | ].
      split; [ apply sound_set_timers; exact S1 | ].
      assert (Hg : Running (gradient s) -> Running (gradient s1)).
      { clear - E1. destruct_state s. unfold skipAnimation, bind in E1.
        revert E1. destruct pre, mcf; run_app; intro E1;
          injection E1 as <-; intro R; exact R. }
      destruct_state s1. cbn in *.
      split; [ intro H; rewrite Hi; exact H | split; assumption ].
    + exists s. split; [ reflexivity | split; [ exact S | repeat split; auto ] ].
  - unfold input, bind, gets.
    destruct (nth_error (timers s) k) as [t |] eqn:N.
    + pose proof (sound_set_timers cs loose (remove_nth k (timers s)) s S) as S1.
      destruct (fire_sound cs loose t now1 now2 _ S1)
        as (s' & E & S' & _ & Hc & Hi & Hr & _).
      exists s'. unfold modify. split; [ exact E | ].
      split; [ exact S' | ].
      destruct_state s. cbn in *. repeat split; assumption.
    + exists s. split; [ reflexivity | split; [ exact S | repeat split; auto ] ].
  - unfold input, bind, gets.
    destruct (nth_error (tweens (host (gradient s))) k) as [t |] eqn:N.
    + set (s1 := set_gradient
                   (mkMachine (this (gradient s))
                      (set_tweens (remove_nth k (tweens (host (gradient s))))
                                  (host (gradient s)))) s).
      assert (S1 : Sound cs loose s1).
      { subst s1. destruct S as [G T]. destruct_state s. keep_sound G T. }
      assert (F1 : textInitialized s1 = textInitialized s
                   /\ has_canvas (host (gradient s1)) = has_canvas (host (gradient s))
                   /\ (Running (gradient s) -> Running (gradient s1))).
      { subst s1. destruct_state s. repeat split. intro R; exact R. }
      destruct F1 as (F1 & F2 & F3).
      assert (E1 : onGradient (effect (set_tweens
                      (remove_nth k (tweens (host (gradient s)))))) s
                   = Normal tt s1) by reflexivity.
      rewrite E1.
      assert (Done : forall s2, Sound cs loose s2 ->
                exists s', completeAnimation s2 = Normal tt s'
                  /\ Sound cs loose s'
                  /\ (textInitialized s2 = true -> textInitialized s' = true)
                  /\ (Running (gradient s2) -> Running (gradient s'))
                  /\ has_canvas (host (gradient s')) = has_canvas (host (gradient s2))).
      { intros s2 S2.
        destruct (complete_sound cs loose s2 S2) as (s' & E & S' & _ & Hi & Hc & _).
        exists s'. split; [ exact E | ]. split; [ exact S' | ].
        split; [ intro H; rewrite Hi; exact H | ].
        split; [ | exact Hc ].
        clear - E. destruct_state s2. revert E.
        destruct pre, mcf; run_app; intro E; injection E as <-;
          intro R; exact R. }
      assert (Keep : exists s', ret tt s1 = Normal tt s'
                  /\ Sound cs loose s'
                  /\ (textInitialized s1 = true -> textInitialized s' = true)
                  /\ (Running (gradient s1) -> Running (gradient s'))
                  /\ has_canvas (host (gradient s')) = has_canvas (host (gradient s1)))
        by (exists s1; split; [ reflexivity | split; [ exact S1 | repeat split; auto ] ]).
      assert (Step : exists s',
                match t with
                | GsapTo i _ _ _ => revealer_done i
                | _ => ret tt
                end s1 = Normal tt s'
                /\ Sound cs loose s'
                /\ (textInitialized s1 = true -> textInitialized s' = true)
                /\ (Running (gradient s1) -> Running (gradient s'))
                /\ has_canvas (host (gradient s')) = has_canvas (host (gradient s1))).
      { destruct t as [sel x d dl | sel sc | i sc d dl]; try exact Keep.
        unfold revealer_done. destruct (Nat.eqb i (3 - 1)); [ | exact Keep ].
        apply Done, S1. }
      destruct Step as (s' & E & S' & Hi & Hr & Hc).
      exists s'. split; [ exact E | ]. split; [ exact S' | ].
      rewrite F1 in Hi. rewrite F2 in Hc. repeat split; auto.
    + exists s. split; [ reflexivity | split; [ exact S | repeat split; auto ] ].
  - destruct (scroll_sound cs loose c progress s S) as (s' & E & S' & Sh & Hi).
    exists s'. split; [ exact E | ]. split; [ exact S' | ].
    unfold shell in Sh. injection Sh as Hg _ _ _ _ _ _.
    rewrite Hg, Hi. repeat split; auto.
  - destruct S as [G T].
    destruct (dispatch_tweens (gradient s) ev G) as (m' & E & P' & R' & _ & Hc).
    exists (set_gradient m' s). unfold input, onGradient. rewrite E.
    split; [ reflexivity | ].
    split; [ apply sound_set_gradient;
             [ destruct G; [ left | right ]; auto | split; assumption ] | ].
    destruct_state s. cbn in *. repeat split; auto.
Qed.


Lemma forEach_add_tween {A} (f : A -> Tween) (l : list A) :
  forall pm,
    forEach (fun x => Preloader.add_tween (f x)) l pm =
      Normal tt (Preloader.mkPMachine (Preloader.self pm)
                   (set_tweens (tweens (Preloader.phost pm) ++ map f l)
                               (Preloader.phost pm))).
Proof.
  induction l as [| x l IH]; intros [sf [gc w h ls raf con g rv tw]].
  - cbn. rewrite app_nil_r. reflexivity.
  - cbn [forEach]. unfold bind, Preloader.add_tween at 1, Preloader.doc, modify.
    rewrite IH. cbn. rewrite <- app_assoc. reflexivity.
Qed.

(** [PreloaderAnimation.init]: a line on the console without the element,
    the tweens of [setupAnimation] with it. *)
Lemma preloader_init_result (pm : Preloader.PMachine) :
  Preloader.init pm =
    Normal tt
      (Preloader.mkPMachine (Preloader.self pm)
         (if Preloader.preloader (Preloader.self pm)
          then set_tweens (tweens (Preloader.phost pm)
                           ++ setup_tweens (revealerSvgs (Preloader.phost pm)))
                          (Preloader.phost pm)
          else set_console (console (Preloader.phost pm)
                            ++ ["Preloader element not found"%string])
                           (Preloader.phost pm))).
Proof.
  destruct pm as [[pre mcf] [gc w h ls raf con g rv tw]].
  destruct pre; [ | reflexivity ].
  unfold Preloader.init, bind, gets. cbn [Preloader.preloader Preloader.self negb].
  unfold Preloader.setupAnimation, bind, gets.
  unfold Preloader.add_tween at 1, Preloader.doc, modify.
  rewrite forEach_add_tween.
  unfold Preloader.add_tween at 1, Preloader.doc, modify.
  cbn [Preloader.self Preloader.phost tweens set_tweens revealerSvgs].
  rewrite forEach_add_tween.
  cbn [Preloader.self Preloader.phost tweens set_tweens revealerSvgs].
  unfold setup_tweens. rewrite <- !app_assoc. reflexivity.
Qed.

(** The state the listener of [DOMContentLoaded] leaves. *)
Lemma loaded_state (h : Host) (p : Preloader.PreloaderAnimation)
    (pc mc : list string) (bo : option string)
    (cs : list (list (list Text.Node))) (loose : list (list Text.Node)) :
  Pristine (boot h) ->
  exists s0,
    domContentLoaded h p pc mc bo cs loose = Normal tt s0
    /\ Waiting pc mc bo cs loose s0
    /\ preloader s0 = p
    /\ has_canvas (host (gradient s0)) = has_canvas h
    /\ tweens (host (gradient s0)) =
         tweens h ++ (if Preloader.preloader p
                      then setup_tweens (revealerSvgs h) else []).
Proof.
  intros (_ & Hl & Hr & Hg). cbn [host boot] in Hl, Hr, Hg.
  unfold domContentLoaded, onPreloader.
  rewrite preloader_init_result.
  cbn [Preloader.self Preloader.phost preloader gradient host boot this].
  eexists. split; [ reflexivity | ].
  destruct h as [gc w hh ls raf con g rv tw]. cbn in Hl, Hr, Hg. subst.
  destruct p as [pre mcf]. destruct pre; cbn.
  - split; [ | split; [ reflexivity | split; [ reflexivity | reflexivity ] ] ].
    repeat split; try reflexivity; cbn [containers dom].
    + rewrite map_map. cbn. apply map_id.
    + apply Forall_map, Forall_forall. intros; split; reflexivity.
  - split; [ | split; [ reflexivity | split; [ reflexivity | ] ] ].
    + repeat split; try reflexivity; cbn [containers dom].
      * rewrite map_map. cbn. apply map_id.
      * apply Forall_map, Forall_forall. intros; split; reflexivity.
    + rewrite app_nil_r. reflexivity.
Qed.

Lemma waiting_sound (pc mc : list string) (bo : option string)
    (cs : list (list (list Text.Node)))
    (loose : list (list Text.Node)) (s : State) :
  Waiting pc mc bo cs loose s -> Sound cs loose s.
Proof.
  intros (_ & _ & P & _ & _ & _ & _ & T). split; [ left; exact P | exact T ].
Qed.

Lemma inputs_sound (cs : list (list (list Text.Node)))
    (loose : list (list Text.Node)) (l : list Input) :
  forall s,
    Sound cs loose s ->
    exists s',
      inputs l s = Normal tt s'
      /\ Sound cs loose s'
      /\ (textInitialized s = true -> textInitialized s' = true)
      /\ (Running (gradient s) -> Running (gradient s'))
      /\ has_canvas (host (gradient s')) = has_canvas (host (gradient s)).
Proof.
  induction l as [| i l IH]; intros s S.
  - exists s. split; [ reflexivity | split; [ exact S | repeat split; auto ] ].
  - destruct (input_sound cs loose i s S) as (s1 & E1 & S1 & Hi1 & Hr1 & Hc1).
    destruct (IH s1 S1) as (s' & E & S' & Hi & Hr & Hc).
    exists s'. unfold inputs; cbn [forEach]. unfold bind. rewrite E1.
    split; [ exact E | ]. split; [ exact S' | ].
    rewrite Hc, Hc1. repeat split; auto.
Qed.

Lemma inputs_app (l1 l2 : list Input) (s s1 : State) :
  inputs l1 s = Normal tt s1 -> inputs (l1 ++ l2) s = inputs l2 s1.
Proof.
  revert s. induction l1 as [| i l1 IH]; intros s E.
  - injection E as <-. reflexivity.
  - unfold inputs in *; cbn [forEach app] in *. unfold bind in *.
    destruct (input i s) as [[] s2 |]; [ apply IH; exact E | discriminate E ].
Qed.

(** X21.  After [DOMContentLoaded], whatever the user, the browser, the
    timers (in any order) and [gsap] do, no exception is raised; the
    gradient is pristine or running, never set up twice; and the text is
    either untouched or was processed by exactly one [TextAnimation.init],
    with one scroll trigger per container: pressing Escape again and again
    or a timer that fires after Escape does not split the words a second
    time. *)
Theorem app_initialises_once (h : Host) (p : Preloader.PreloaderAnimation)
    (pc mc : list string) (bo : option string)
    (cs : list (list (list Text.Node))) (loose : list (list Text.Node))
    (l : list Input) :
  Pristine (boot h) ->
  exists s0 s,
    domContentLoaded h p pc mc bo cs loose = Normal tt s0
    /\ inputs l s0 = Normal tt s
    /\ (Pristine (gradient s) \/ Running (gradient s))
    /\ TextOnce cs loose s.
Proof.
  intro P.
  destruct (loaded_state h p pc mc bo cs loose P) as (s0 & E0 & W0 & _).
  destruct (inputs_sound cs loose l s0 (waiting_sound pc mc bo cs loose s0 W0))
    as (s & E & [G T] & _).
  exists s0, s. repeat split; assumption.
Qed.


Lemma app_initialises_once_witness :
  exists s0 s,
    domContentLoaded demo_page (Preloader.mkPA true true) [] [] None
      [[[Text.TextNode "a living  vision"]]] [] = Normal tt s0
    /\ inputs [KeyDown "Escape"; KeyDown "Escape"; TimerFires 5 10 10;
               TimerFires 0 20 20; TimerFires 0 30 30; TimerFires 0 40 40]
              s0 = Normal tt s
    /\ textInitialized s = true
    /\ List.length (libCalls s) = 6%nat
    /\ map paragraphs (containers (dom s)) =
         [[Text.processParagraph [Text.TextNode "a living  vision"]]].
Proof.
  destruct (app_initialises_once demo_page (Preloader.mkPA true true)
              [] [] None
              [[[Text.TextNode "a living  vision"]]] []
              [KeyDown "Escape"; KeyDown "Escape"; TimerFires 5 10 10;
               TimerFires 0 20 20; TimerFires 0 30 30; TimerFires 0 40 40]
              (conj eq_refl (conj eq_refl (conj eq_refl eq_refl))))
    as (s0 & s & E0 & E & _ & _).
  exists s0, s. split; [ exact E0 | split; [ exact E | ] ].
  vm_compute in E0. injection E0 as <-.
  vm_compute in E. injection E as <-.
  repeat split.
Defined.

Lemma timers_set_timers (ts : list Timer) (s : State) :
  timers (set_timers ts s) = ts.
Proof. destruct_state s. reflexivity. Qed.

(** X22.  Escape always starts the page: after any inputs followed by
    Escape, the timer the key handler has set is pending; when it fires,
    the text animation is initialised (the text processed exactly once)
    and, on a page with the gradient's anchor, the gradient is running.
    This holds also when the preloader element is missing or the revealer
    tweens never complete. *)
Theorem escape_starts_the_page (h : Host) (p : Preloader.PreloaderAnimation)
    (pc mc : list string) (bo : option string)
    (cs : list (list (list Text.Node))) (loose : list (list Text.Node))
    (l : list Input) (now1 now2 : Q) :
  Pristine (boot h) ->
  exists s0 s1 s2 k,
    domContentLoaded h p pc mc bo cs loose = Normal tt s0
    /\ inputs (l ++ [KeyDown "Escape"]) s0 = Normal tt s1
    /\ nth_error (timers s1) k = Some InitBoth
    /\ input (TimerFires k now1 now2) s1 = Normal tt s2
    /\ textInitialized s2 = true
    /\ TextOnce cs loose s2
    /\ (has_canvas h = true -> Running (gradient s2)).
Proof.
  intro P.
  destruct (loaded_state h p pc mc bo cs loose P)
    as (s0 & E0 & W0 & _ & Hc0 & _).
  destruct (inputs_sound cs loose l s0 (waiting_sound pc mc bo cs loose s0 W0))
    as (s & E & S & _ & _ & Hc).
  destruct (skip_sound cs loose s S) as (sk & Ek & Sk & Htk & _ & Hck).
  set (s1 := set_timers (timers sk ++ [InitBoth]) sk).
  assert (E1 : inputs (l ++ [KeyDown "Escape"]) s0 = Normal tt s1).
  { rewrite (inputs_app l _ s0 s E).
    unfold inputs; cbn [forEach]. unfold bind.
    unfold input. cbn [String.eqb Ascii.eqb Bool.eqb andb]. unfold bind.
    rewrite Ek. reflexivity. }
  assert (S1 : Sound cs loose s1) by (apply sound_set_timers; exact Sk).
  assert (N : nth_error (timers s1) (List.length (timers sk)) = Some InitBoth).
  { unfold s1. rewrite timers_set_timers.
    rewrite nth_error_app2 by lia. rewrite Nat.sub_diag. reflexivity. }
  pose proof (sound_set_timers cs loose
                (remove_nth (List.length (timers sk)) (timers s1)) s1 S1) as S2.
  destruct (fire_sound cs loose InitBoth now1 now2 _ S2)
    as (s2 & E2 & [G2 T2] & _ & _ & _ & _ & Hboth).
  destruct (Hboth eq_refl) as [Hi Hr].
  exists s0, s1, s2, (List.length (timers sk)).
  split; [ exact E0 | ]. split; [ exact E1 | ]. split; [ exact N | ].
  split; [ unfold input, bind, gets; rewrite N; exact E2 | ].
  split; [ exact Hi | ]. split; [ exact T2 | ].
  intro Hcan. apply Hr.
  assert (G : gradient (set_timers
                 (remove_nth (List.length (timers sk)) (timers s1)) s1)
              = gradient sk).
  { unfold s1. clear. destruct_state sk. reflexivity. }
  rewrite G, Hck, Hc, Hc0. exact Hcan.
Qed.

Lemma escape_starts_the_page_witness :
  exists s0 s1 s2 k,
    domContentLoaded demo_page (Preloader.mkPA false false) [] [] None
      [[[Text.TextNode "a living  vision"]]] [] = Normal tt s0
    /\ inputs ([TweenCompletes 0] ++ [KeyDown "Escape"]) s0 = Normal tt s1
    /\ nth_error (timers s1) k = Some InitBoth
    /\ input (TimerFires k 10 10) s1 = Normal tt s2
    /\ textInitialized s2 = true
    /\ Running (gradient s2).
Proof.
  destruct (escape_starts_the_page demo_page (Preloader.mkPA false false)
              [] [] None
              [[[Text.TextNode "a living  vision"]]] []
              [TweenCompletes 0] 10 10
              (conj eq_refl (conj eq_refl (conj eq_refl eq_refl))))
    as (s0 & s1 & s2 & k & E0 & E1 & N & E2 & Hi & _ & Hr).
  exists s0, s1, s2, k.
  repeat split; try assumption. apply Hr. reflexivity.
Defined.

(** An input other than Escape on a page that waits for the preloader,
    when no tween is left whose completion ends the preloader. *)
Lemma input_waiting (pc mc : list string) (bo : option string)
    (cs : list (list (list Text.Node)))
    (loose : list (list Text.Node)) (i : Input) (s : State) :
  is_escape i = false ->
  Waiting pc mc bo cs loose s ->
  Forall (fun t => completes_preloader t = false) (tweens (host (gradient s))) ->
  exists s',
    input i s = Normal tt s'
    /\ Waiting pc mc bo cs loose s'
    /\ Forall (fun t => completes_preloader t = false)
              (tweens (host (gradient s'))).
Proof.
  intros Hesc W F.
  destruct i as [key | k now1 now2 | k | c progress | ev].
  - cbn [is_escape] in Hesc. unfold input. rewrite Hesc.
    exists s. split; [ reflexivity | split; assumption ].
  - destruct W as (Ht & W'). unfold input, bind, gets. rewrite Ht.
    destruct k; cbn [nth_error];
      (exists s; split; [ reflexivity | split; [ split; assumption | exact F ] ]).
  - unfold input, bind, gets.
    destruct (nth_error (tweens (host (gradient s))) k) as [t |] eqn:N;
      [ | exists s; split; [ reflexivity | split; assumption ] ].
    assert (Ft : completes_preloader t = false).
    { rewrite Forall_forall in F. apply F. eapply nth_error_In, N. }
    pose proof (remove_nth_Forall _ _ k F) as F'.
    destruct_state s. cbn [gradient host tweens] in *.
    destruct W as (Wt & Wi & Wp & Wc & Wa & Wm & Wb & Wx).
    assert (Hret : forall i, Nat.eqb i 2 = false ->
              revealer_done i = ret tt).
    { intros i Hi. unfold revealer_done. cbn [Nat.sub]. rewrite Hi. reflexivity. }
    destruct t as [sel x d dl | sel sc | i sc d dl];
      try rewrite (Hret i Ft);
      (eexists; split; [ reflexivity | ]);
      (split; [ | exact F' ]);
      (split; [ exact Wt | split; [ exact Wi | split; [ exact Wp | ] ] ]);
      (split; [ exact Wc | split; [ exact Wa | split; [ exact Wm | split; [ exact Wb | exact Wx ] ] ] ]).
  - destruct (scroll_sound cs loose c progress s (waiting_sound pc mc bo cs loose s W))
      as (s' & E & [_ T'] & Sh & Hi).
    exists s'. split; [ exact E | ].
    destruct W as (Wt & Wi & Wp & Wc & Wa & Wm & Wb & Wx).
    unfold shell in Sh. injection Sh as Hg _ Ht Hpc Hpa Hmc Hbo.
    split.
    + unfold Waiting. rewrite Hg, Ht, Hpc, Hpa, Hmc, Hbo, Hi.
      split; [ exact Wt | split; [ exact Wi | split; [ exact Wp | ] ] ].
      split; [ exact Wc | split; [ exact Wa | split; [ exact Wm | split; [ exact Wb | exact T' ] ] ] ].
    + rewrite Hg. exact F.
  - destruct W as (Wt & Wi & Wp & Wc & Wa & Wm & Wb & Wx).
    destruct (dispatch_tweens (gradient s) ev (or_introl Wp))
      as (m' & E & P' & _ & Htw & _).
    exists (set_gradient m' s). unfold input, onGradient. rewrite E.
    split; [ reflexivity | ].
    specialize (P' Wp). rewrite <- Htw in F.
    destruct_state s. cbn in *.
    split; [ | exact F ].
    split; [ exact Wt | split; [ exact Wi | split; [ exact P' | ] ] ].
    split; [ exact Wc | split; [ exact Wa | split; [ exact Wm | split; [ exact Wb | exact Wx ] ] ] ].
Qed.

Lemma setup_tweens_incomplete (n : nat) :
  (n < 3)%nat ->
  Forall (fun t => completes_preloader t = false) (setup_tweens n).
Proof.
  intro H. unfold setup_tweens.
  destruct n as [| [| [| n]]]; [ | | | lia ]; cbn; repeat constructor.
Qed.

(** X23.  When the preloader element is missing, or the page has fewer
    than three elements matching [.revealer svg], nothing ever calls
    [completeAnimation] unless Escape is pressed: whatever else happens,
    no timer is ever set, the gradient stays pristine, the text is never
    processed, and the preloader, the main content and the body keep the
    classes and the overflow they were loaded with: the preloader is never
    hidden. *)
Theorem page_waits_for_the_preloader (h : Host)
    (p : Preloader.PreloaderAnimation)
    (pc mc : list string) (bo : option string)
    (cs : list (list (list Text.Node))) (loose : list (list Text.Node))
    (l : list Input) :
  Pristine (boot h) ->
  tweens h = [] ->
  Preloader.preloader p = false \/ (revealerSvgs h < 3)%nat ->
  forallb (fun i => negb (is_escape i)) l = true ->
  exists s0 s,
    domContentLoaded h p pc mc bo cs loose = Normal tt s0
    /\ inputs l s0 = Normal tt s
    /\ Waiting pc mc bo cs loose s.
Proof.
  intros P Htw Hfew Hl.
  destruct (loaded_state h p pc mc bo cs loose P) as (s0 & E0 & W0 & _ & _ & T0).
  assert (F0 : Forall (fun t => completes_preloader t = false)
                      (tweens (host (gradient s0)))).
  { rewrite T0, Htw. cbn [app].
    destruct (Preloader.preloader p); [ | constructor ].
    destruct Hfew as [Hp | Hn]; [ discriminate Hp | ].
    apply setup_tweens_incomplete, Hn. }
  assert (Run : forall l s,
            forallb (fun i => negb (is_escape i)) l = true ->
            Waiting pc mc bo cs loose s ->
            Forall (fun t => completes_preloader t = false)
                   (tweens (host (gradient s))) ->
            exists s', inputs l s = Normal tt s' /\ Waiting pc mc bo cs loose s').
  { clear. induction l as [| i l IH]; intros s Hl W F.
    - exists s. split; [ reflexivity | exact W ].
    - cbn [forallb] in Hl. apply andb_true_iff in Hl. destruct Hl as [Hi Hl].
      apply negb_true_iff in Hi.
      destruct (input_waiting pc mc bo cs loose i s Hi W F) as (s1 & E1 & W1 & F1).
      destruct (IH s1 Hl W1 F1) as (s' & E & W').
      exists s'. unfold inputs; cbn [forEach]. unfold bind. rewrite E1.
      split; [ exact E | exact W' ]. }
  destruct (Run l s0 Hl W0 F0) as (s & E & W).
  exists s0, s. split; [ exact E0 | split; [ exact E | exact W ] ].
Qed.

(** Two revealers only: their tweens complete, keys other than Escape are
    pressed, and the page still waits. *)
Lemma page_waits_for_the_preloader_witness :
  exists s0 s,
    domContentLoaded (mkHost (Some []) 800 600 [] 0 [] [] 2 [])
      (Preloader.mkPA true true) ["preloader"%string] [] None [] [] = Normal tt s0
    /\ inputs [TweenCompletes 9; TweenCompletes 8; KeyDown "Enter";
               TimerFires 0 10 10] s0 = Normal tt s
    /\ timers s = []
    /\ textInitialized s = false
    /\ preloaderClasses (dom s) = ["preloader"%string].
Proof.
  destruct (page_waits_for_the_preloader
              (mkHost (Some []) 800 600 [] 0 [] [] 2 [])
              (Preloader.mkPA true true) ["preloader"%string] [] None [] []
              [TweenCompletes 9; TweenCompletes 8; KeyDown "Enter";
               TimerFires 0 10 10]
              (conj eq_refl (conj eq_refl (conj eq_refl eq_refl)))
              eq_refl (or_intror (le_n 3)) eq_refl)
    as (s0 & s & E0 & E & Wt & Wi & _ & Wc & _).
  exists s0, s. repeat split; assumption.
Defined.

End Application.
